(** * INSBU Statistics Portal front end: HTTP client, storage, auth and paging

    A shallow embedding of the client-side data layer of the portal:

    - [src/utils/helpers.js]: the [storage] wrapper, [isValidEmail],
      [isValidPhone], [truncateText], [slugify], [getFileExtension],
      [unique], [chunk], [debounce], [throttle], [memoize], [hexToRgb],
      [rgbToHex], [handleApiError];
    - [src/utils/constants.js]: [API_CONFIG], [STORAGE_KEYS], [USER_ROLES],
      [HTTP_STATUS], [VALIDATION_RULES];
    - [src/services/api.js], lines 1-404: the axios instance, its
      interceptors, [requestWithRetry], [getWithCache], [postOptimistic],
      [clearCache], [health], [setAuthToken], [getAuthToken];
    - [src/services/api.js], lines 405-949 (the admin service):
      [adminService.createUser];
    - [src/services/authService.js]: [login], [getCurrentUser],
      [refreshToken], [logout];
    - [src/contexts/AuthContext.jsx]: [login], [logout], [refreshToken],
      the 401 interceptor and the refresh interval of the [AuthProvider],
      [hasRole], [hasPermission], [isAdmin], [canEdit];
    - [src/components/ProtectedRoute.jsx]: [ProtectedRoute];
    - [src/components/LoadingScreen.jsx], lines 291-789 (the hooks of
      [hooks/useApi]): [useApi], [usePaginatedApi], [useInfiniteScroll],
      [useOptimisticUpdate].

    Conventions.  JavaScript values that travel through [JSON] are the
    inductive type [json]; integers stand for the integral doubles the code
    manipulates (HTTP statuses, millisecond clocks, page numbers).  Strings
    are sequences of code units in the Latin-1 range.  [undefined] is
    [None] at the places where the code can meet it.  Asynchronous
    functions are state transformers over the [World] that return a settled
    promise; what the network decides is an [Env], what the browser decides
    about a write to [localStorage] is part of the [LocalStorage].
    [console] output is left out. *)

From Stdlib Require Import ZArith Bool Ascii String Lia.
From Stdlib Require Import DecimalString DecimalPos DecimalZ.
From stdpp Require Import base option list strings gmap.
From Equations Require Import Equations.

Local Open Scope Z_scope.
Set Warnings "-register-all".

(* ===================================================================== *)
(** * The JavaScript runtime the code relies on *)
(* ===================================================================== *)

Module JS.

(** Values that [JSON.stringify] / [JSON.parse] exchange.  An object keeps
    its properties in insertion order, which is the order
    [JSON.stringify] prints them in. *)
Inductive json : Type :=
| JNull
| JBool (b : bool)
| JNum (n : Z)
| JStr (s : string)
| JArr (items : list json)
| JObj (fields : list (string * json)).

(** [ToBoolean]: what [if (v)], [!v] and [v || d] test. *)
Definition truthy (v : json) : bool :=
  match v with
  | JNull => false
  | JBool b => b
  | JNum n => negb (n =? 0)
  | JStr s => negb (String.eqb s "")
  | JArr _ | JObj _ => true
  end.

(** [!!v] for a possibly [undefined] value. *)
Definition truthy_opt (v : option json) : bool :=
  match v with
  | Some v => truthy v
  | None => false
  end.

Definition string_of_Z (n : Z) : string :=
  NilZero.string_of_int (Z.to_int n).

(** [ToString], as a template literal [`${v}`] applies it.  An array
    joins its elements with commas, printing [null] as the empty
    string. *)
Fixpoint ToString (v : json) : string :=
  match v with
  | JNull => "null"
  | JBool true => "true"
  | JBool false => "false"
  | JNum n => string_of_Z n
  | JStr s => s
  | JArr items =>
      (fix join (l : list json) : string :=
         match l with
         | [] => ""
         | [x] => match x with JNull => "" | _ => ToString x end
         | x :: rest =>
             (match x with JNull => "" | _ => ToString x end)
               +:+ "," +:+ join rest
         end) items
  | JObj _ => "[object Object]"
  end.

(** Property read [v.k] (or [v[k]]): [undefined] when [v] is not an
    object or has no such property. *)
Fixpoint assoc (k : string) (fields : list (string * json)) : option json :=
  match fields with
  | [] => None
  | (k', v) :: rest => if String.eqb k k' then Some v else assoc k rest
  end.

Definition get_field (k : string) (v : json) : option json :=
  match v with
  | JObj fields => assoc k fields
  | _ => None
  end.

(** The [JSON] object of the runtime.  [JSON_parse] returns [None] where
    [JSON.parse] throws a [SyntaxError]. *)
Class JsonRuntime := {
  JSON_stringify : json -> string;
  JSON_parse : string -> option json
}.

(** The part of ECMA-262 the code depends on: parsing what was printed
    gives the value back, and the empty string is not a JSON text. *)
Class JsonLaws (J : JsonRuntime) : Prop := {
  JSON_parse_stringify : forall v, JSON_parse (JSON_stringify v) = Some v;
  JSON_parse_empty : JSON_parse "" = None
}.

(** [localStorage.setItem(k, v)] converts [v] with [ToString]; an
    [undefined] argument is stored as the text "undefined", which is what
    [JSON.stringify(undefined)] hands over. *)
Definition JSON_stringify_arg `{JsonRuntime} (v : option json) : string :=
  match v with
  | Some v => JSON_stringify v
  | None => "undefined"
  end.

End JS.
Export JS.

(** Induction over [json] that reaches into arrays and objects. *)
Section JsonInduction.
Variable P : json -> Prop.
Hypothesis HNull : P JNull.
Hypothesis HBool : forall b, P (JBool b).
Hypothesis HNum : forall n, P (JNum n).
Hypothesis HStr : forall s, P (JStr s).
Hypothesis HArr : forall items, Forall P items -> P (JArr items).
Hypothesis HObj : forall fields, Forall (fun kv => P (snd kv)) fields -> P (JObj fields).

Fixpoint json_induction (v : json) : P v :=
  match v with
  | JNull => HNull
  | JBool b => HBool b
  | JNum n => HNum n
  | JStr s => HStr s
  | JArr items =>
      HArr items
        ((fix all (l : list json) : Forall P l :=
            match l with
            | [] => @List.Forall_nil _ P
            | x :: rest =>
                @List.Forall_cons _ P x rest (json_induction x) (all rest)
            end) items)
  | JObj fields =>
      HObj fields
        ((fix all (l : list (string * json)) : Forall (fun kv => P (snd kv)) l :=
            match l with
            | [] => @List.Forall_nil _ _
            | kv :: rest =>
                @List.Forall_cons _ (fun kv => P (snd kv)) kv rest
                  (json_induction (snd kv)) (all rest)
            end) fields)
  end.
End JsonInduction.

(* ===================================================================== *)
(** * src/utils/constants.js *)
(* ===================================================================== *)

Module API_CONFIG.
Definition timeout : Z := 30000.
Definition retryAttempts : Z := 3.
Definition retryDelay : Z := 1000.
End API_CONFIG.

Module STORAGE_KEYS.
Definition AUTH_TOKEN : string := "insbu_auth_token".
Definition THEME_MODE : string := "insbu_theme_mode".
Definition USER_PREFERENCES : string := "insbu_user_preferences".
Definition LANGUAGE : string := "insbu_language".
End STORAGE_KEYS.

Module USER_ROLES.
Definition ADMIN : string := "admin".
Definition EDITOR : string := "editor".
Definition USER : string := "user".
(** [Object.values(USER_ROLES)] *)
Definition values : list string := [ADMIN; EDITOR; USER].
End USER_ROLES.

Module HTTP_STATUS.
Definition OK : Z := 200.
Definition CREATED : Z := 201.
Definition NO_CONTENT : Z := 204.
Definition BAD_REQUEST : Z := 400.
Definition UNAUTHORIZED : Z := 401.
Definition FORBIDDEN : Z := 403.
Definition NOT_FOUND : Z := 404.
Definition UNPROCESSABLE_ENTITY : Z := 422.
Definition INTERNAL_SERVER_ERROR : Z := 500.
End HTTP_STATUS.

(* ===================================================================== *)
(** * The browser's [localStorage] *)
(* ===================================================================== *)

(** The Web Storage area of the page: string keys, string values.  A write
    may be refused by the browser ([QuotaExceededError]); [accepts] is the
    browser's decision for a write into the given contents. *)
Record LocalStorage := {
  items : gmap string string;
  accepts : gmap string string -> string -> string -> bool
}.

Module localStorage.

Definition getItem (key : string) (ls : LocalStorage) : option string :=
  items ls !! key.

(** [None]: the call threw. *)
Definition setItem (key value : string) (ls : LocalStorage)
  : option LocalStorage :=
  if accepts ls (items ls) key value
  then Some {| items := <[key := value]> (items ls); accepts := accepts ls |}
  else None.

Definition removeItem (key : string) (ls : LocalStorage) : LocalStorage :=
  {| items := delete key (items ls); accepts := accepts ls |}.

End localStorage.

(* ===================================================================== *)
(** * src/utils/helpers.js: storage *)
(* ===================================================================== *)

Module storage.
Section WithRuntime.
Context `{JsonRuntime}.

(** [get]: [item ? JSON.parse(item) : null], and [null] from the [catch]
    when parsing throws. *)
Definition get (key : string) (ls : LocalStorage) : json :=
  match localStorage.getItem key ls with
  | Some item =>
      if String.eqb item "" then JNull
      else match JSON_parse item with
           | Some v => v
           | None => JNull
           end
  | None => JNull
  end.

(** [set]: [true] after the write, [false] from the [catch]. *)
Definition set (key : string) (value : option json) (ls : LocalStorage)
  : bool * LocalStorage :=
  match localStorage.setItem key (JSON_stringify_arg value) ls with
  | Some ls' => (true, ls')
  | None => (false, ls)
  end.

Definition remove (key : string) (ls : LocalStorage) : bool * LocalStorage :=
  (true, localStorage.removeItem key ls).

End WithRuntime.
End storage.

(* ===================================================================== *)
(** * Requests, responses, errors and the page's state *)
(* ===================================================================== *)

Inductive Method := GET | POST | PUT | PATCH | DELETE.

(** An axios request config, with the properties this code base reads or
    writes; an absent property is [None].  [_retry] is the marker the 401
    handlers put on a request, [metadata] holds [metadata.startTime]. *)
Record Config := {
  method : option Method;
  url : option string;
  params : option json;
  data : option json;
  headers : gmap string string;
  _retry : bool;
  useCache : option bool;
  cacheDuration : option Z;
  metadata : option Z
}.

Definition set_headers (h : gmap string string) (c : Config) : Config :=
  {| method := method c; url := url c; params := params c; data := data c;
     headers := h; _retry := _retry c; useCache := useCache c;
     cacheDuration := cacheDuration c; metadata := metadata c |}.

Definition set_retry (b : bool) (c : Config) : Config :=
  {| method := method c; url := url c; params := params c; data := data c;
     headers := headers c; _retry := b; useCache := useCache c;
     cacheDuration := cacheDuration c; metadata := metadata c |}.

Definition set_metadata (t : Z) (c : Config) : Config :=
  {| method := method c; url := url c; params := params c; data := data c;
     headers := headers c; _retry := _retry c; useCache := useCache c;
     cacheDuration := cacheDuration c; metadata := Some t |}.

(** [{ method, url }], every other property absent. *)
Definition request (m : Method) (u : string) : Config :=
  {| method := Some m; url := Some u; params := None; data := None; headers := ∅;
     _retry := false; useCache := None; cacheDuration := None;
     metadata := None |}.

Record Response := {
  res_status : Z;
  res_data : json;
  res_config : option Config;
  res_responseTime : option Z
}.

(** The object a promise rejects with.  An [AxiosError] carries [response],
    [request], [code], [message] and [config]; the object built by
    [handleApiError] carries [status], [message] and [type] only.  An
    [Error] has a [name] ([Error], [TypeError], [AxiosError], and
    [AbortError] for the exception of an aborted request); an object
    literal that is thrown has none.  A property that is absent reads as
    [undefined]. *)
Record JsError := {
  err_name : option string;
  err_response : option Response;
  err_request : bool;
  err_code : option string;
  err_message : option json;
  err_config : option Config;
  err_status : option Z;
  err_type : option string;
  err_validationErrors : option json
}.

(** [new Error(msg)], and the same with another [name]. *)
Definition named_error (name msg : string) : JsError :=
  {| err_name := Some name;
     err_response := None; err_request := false; err_code := None;
     err_message := Some (JStr msg); err_config := None; err_status := None;
     err_type := None; err_validationErrors := None |}.

Definition plain_error (msg : string) : JsError := named_error "Error" msg.

(** What went over the wire or was waited for, oldest first. *)
Inductive Event :=
| Sent (c : Config)
| Slept (ms : Z).

(** The closure the AuthProvider effect registered as response interceptor:
    the [isAuthenticated] and [refreshing] of the render it was made in. *)
Record AuthClosure := {
  seen_isAuthenticated : bool;
  seen_refreshing : bool
}.

Record World := {
  storage_area : LocalStorage;              (* window.localStorage *)
  defaults_common : gmap string string;     (* api.defaults.headers.common *)
  location_href : option string;            (* last write to window.location.href *)
  clock : Z;                                (* Date.now() *)
  user : json;                              (* AuthProvider: useState(null) *)
  loading : bool;                           (* AuthProvider: useState(true) *)
  refreshing : bool;                        (* AuthProvider: useState(false) *)
  auth_interceptor : option AuthClosure;    (* registered by the 401 effect *)
  wire : list Event
}.

Definition set_storage_area (ls : LocalStorage) (w : World) : World :=
  {| storage_area := ls; defaults_common := defaults_common w;
     location_href := location_href w; clock := clock w; user := user w;
     loading := loading w; refreshing := refreshing w;
     auth_interceptor := auth_interceptor w; wire := wire w |}.

Definition set_defaults_common (h : gmap string string) (w : World) : World :=
  {| storage_area := storage_area w; defaults_common := h;
     location_href := location_href w; clock := clock w; user := user w;
     loading := loading w; refreshing := refreshing w;
     auth_interceptor := auth_interceptor w; wire := wire w |}.

Definition set_location_href (h : string) (w : World) : World :=
  {| storage_area := storage_area w; defaults_common := defaults_common w;
     location_href := Some h; clock := clock w; user := user w;
     loading := loading w; refreshing := refreshing w;
     auth_interceptor := auth_interceptor w; wire := wire w |}.

Definition set_clock (t : Z) (w : World) : World :=
  {| storage_area := storage_area w; defaults_common := defaults_common w;
     location_href := location_href w; clock := t; user := user w;
     loading := loading w; refreshing := refreshing w;
     auth_interceptor := auth_interceptor w; wire := wire w |}.

Definition setUser (u : json) (w : World) : World :=
  {| storage_area := storage_area w; defaults_common := defaults_common w;
     location_href := location_href w; clock := clock w; user := u;
     loading := loading w; refreshing := refreshing w;
     auth_interceptor := auth_interceptor w; wire := wire w |}.

Definition setLoading (b : bool) (w : World) : World :=
  {| storage_area := storage_area w; defaults_common := defaults_common w;
     location_href := location_href w; clock := clock w; user := user w;
     loading := b; refreshing := refreshing w;
     auth_interceptor := auth_interceptor w; wire := wire w |}.

Definition setRefreshing (b : bool) (w : World) : World :=
  {| storage_area := storage_area w; defaults_common := defaults_common w;
     location_href := location_href w; clock := clock w; user := user w;
     loading := loading w; refreshing := b;
     auth_interceptor := auth_interceptor w; wire := wire w |}.

Definition record (e : Event) (w : World) : World :=
  {| storage_area := storage_area w; defaults_common := defaults_common w;
     location_href := location_href w; clock := clock w; user := user w;
     loading := loading w; refreshing := refreshing w;
     auth_interceptor := auth_interceptor w; wire := wire w ++ [e] |}.

(** [const isAuthenticated = !!user] *)
Definition isAuthenticated (w : World) : bool := truthy (user w).

(** What the outside decides.  The server sees the history and the request
    and either answers with a status and a body or is never heard from
    (network failure, or the axios timeout); either way some time passes. *)
Inductive Silence := NetworkError | Timeout.

Inductive Outcome :=
| Answer (status : Z) (body : json) (latency : Z)
| NoAnswer (why : Silence) (latency : Z).

Record Env := {
  server : list Event -> Config -> Outcome
}.

(* ===================================================================== *)
(** * Promises as state transformers *)
(* ===================================================================== *)

(** A promise is resolved, rejected, or never settles. *)
Inductive Settled (A : Type) :=
| Resolved (a : A)
| Rejected (e : JsError)
| Pending.
Arguments Resolved {A} a.
Arguments Rejected {A} e.
Arguments Pending {A}.

Definition M (A : Type) : Type := World -> Settled A * World.

Definition ret {A} (a : A) : M A := fun w => (Resolved a, w).
Definition throw {A} (e : JsError) : M A := fun w => (Rejected e, w).
Definition never {A} : M A := fun w => (Pending, w).

(** [await m; k] *)
Definition bind {A B} (m : M A) (k : A -> M B) : M B :=
  fun w =>
    match m w with
    | (Resolved a, w') => k a w'
    | (Rejected e, w') => (Rejected e, w')
    | (Pending, w') => (Pending, w')
    end.

(** [try { m } catch (error) { h error }] *)
Definition try_catch {A} (m : M A) (h : JsError -> M A) : M A :=
  fun w =>
    match m w with
    | (Rejected e, w') => h e w'
    | r => r
    end.

(** [try { m } finally { f }] for a [finally] block that cannot throw. *)
Definition try_finally {A} (m : M A) (f : World -> World) : M A :=
  fun w =>
    match m w with
    | (Pending, w') => (Pending, w')
    | (r, w') => (r, f w')
    end.

(** A statement that only changes the state. *)
Definition exec (f : World -> World) : M unit := fun w => (Resolved tt, f w).
Definition read {A} (f : World -> A) : M A := fun w => (Resolved (f w), w).

Declare Scope promise_scope.
Delimit Scope promise_scope with promise.
Notation "x <- m ;; k" := (bind m (fun x => k))
  (at level 90, m at level 80, right associativity) : promise_scope.
Notation "m ;;; k" := (bind m (fun _ => k))
  (at level 90, right associativity) : promise_scope.
Local Open Scope promise_scope.

(** [await new Promise(resolve => setTimeout(resolve, ms))] *)
Definition slept (ms : Z) (w : World) : World :=
  record (Slept ms) (set_clock (clock w + ms) w).

Definition sleep (ms : Z) : M unit := exec (slept ms).

(* ===================================================================== *)
(** * More of the runtime: strings, numbers, regular expressions *)
(* ===================================================================== *)

(** The numbers that [ToNumber] gives: a finite number is
    [mantissa * 10 ^ exponent], taken exactly (the rounding of doubles is
    left out). *)
Inductive Number :=
| Finite (mantissa exponent : Z)
| PlusInfinity
| MinusInfinity
| NaN.

Definition negate (n : Number) : Number :=
  match n with
  | Finite m e => Finite (- m) e
  | PlusInfinity => MinusInfinity
  | MinusInfinity => PlusInfinity
  | NaN => NaN
  end.

Module Str.

Definition code (c : ascii) : N := N_of_ascii c.

(** [WhiteSpace] and [LineTerminator] code units below 256: TAB, LF, VT,
    FF, CR, SP, NBSP. *)
Definition is_space (c : ascii) : bool :=
  let n := code c in
  ((9 <=? n) && (n <=? 13) || (n =? 32) || (n =? 160))%N.

Fixpoint trimStart (s : string) : string :=
  match s with
  | String c rest => if is_space c then trimStart rest else s
  | EmptyString => EmptyString
  end.

(** [trimEnd]: drop the trailing run of white space. *)
Fixpoint trimEnd (s : string) : string :=
  match s with
  | EmptyString => EmptyString
  | String c rest =>
      match trimEnd rest with
      | EmptyString => if is_space c then EmptyString else String c EmptyString
      | kept => String c kept
      end
  end.

(** [String.prototype.trim] *)
Definition trim (s : string) : string := trimEnd (trimStart s).

Definition lower (c : ascii) : ascii :=
  let n := code c in
  if ((65 <=? n) && (n <=? 90)
      || (192 <=? n) && (n <=? 222) && negb (n =? 215))%N
  then ascii_of_N (n + 32) else c.

(** [String.prototype.toLowerCase] *)
Fixpoint toLowerCase (s : string) : string :=
  match s with
  | EmptyString => EmptyString
  | String c rest => String (lower c) (toLowerCase rest)
  end.

Definition is_digit (c : ascii) : bool :=
  let n := code c in ((48 <=? n) && (n <=? 57))%N.

(** ASCII letters: what [[A-Z]] matches under the [i] flag. *)
Definition is_letter (c : ascii) : bool :=
  let n := code c in
  ((65 <=? n) && (n <=? 90) || (97 <=? n) && (n <=? 122))%N.

Fixpoint digits_value (acc : Z) (s : string) : option Z :=
  match s with
  | EmptyString => Some acc
  | String c rest =>
      if is_digit c
      then digits_value (10 * acc + Z.of_N (code c) - 48) rest
      else None
  end.

(** The value of a digit in the given radix (up to 16). *)
Definition digit_in (radix : Z) (c : ascii) : option Z :=
  let n := code c in
  let value := if is_digit c then Some (Z.of_N n - 48)
               else if ((97 <=? n) && (n <=? 102))%N then Some (Z.of_N n - 87)
               else if ((65 <=? n) && (n <=? 70))%N then Some (Z.of_N n - 55)
               else None in
  match value with
  | Some d => if d <? radix then Some d else None
  | None => None
  end.

Fixpoint radix_value (radix acc : Z) (s : string) : option Z :=
  match s with
  | EmptyString => Some acc
  | String c rest =>
      match digit_in radix c with
      | Some d => radix_value radix (radix * acc + d) rest
      | None => None
      end
  end.

(** The longest prefix of decimal digits, and what follows it. *)
Fixpoint span_digits (s : string) : string * string :=
  match s with
  | String c rest =>
      if is_digit c
      then let (digits, others) := span_digits rest in (String c digits, others)
      else (EmptyString, s)
  | EmptyString => (EmptyString, EmptyString)
  end.

(** An [ExponentPart] or nothing: the exponent. *)
Definition exponent_part (s : string) : option Z :=
  match s with
  | EmptyString => Some 0
  | String c rest =>
      if Ascii.eqb c "e" || Ascii.eqb c "E"
      then match rest with
           | String "-" (String d r) => Z.opp <$> digits_value 0 (String d r)
           | String "+" (String d r) => digits_value 0 (String d r)
           | String d r => digits_value 0 (String d r)
           | EmptyString => None
           end
      else None
  end.

(** [StrUnsignedDecimalLiteral]: [Infinity], or digits with an optional
    fraction and an optional exponent, one digit at least. *)
Definition unsigned_decimal (s : string) : Number :=
  if String.eqb s "Infinity" then PlusInfinity
  else
    let (int, rest) := span_digits s in
    match rest with
    | String "." rest =>
        let (frac, rest) := span_digits rest in
        if String.eqb int "" && String.eqb frac "" then NaN
        else match digits_value 0 (int ++ frac), exponent_part rest with
             | Some m, Some e => Finite m (e - Z.of_nat (String.length frac))
             | _, _ => NaN
             end
    | _ =>
        if String.eqb int "" then NaN
        else match digits_value 0 int, exponent_part rest with
             | Some m, Some e => Finite m e
             | _, _ => NaN
             end
    end.

(** [NonDecimalIntegerLiteral]: [0x], [0o] or [0b] and digits of that
    radix; [None] when the string does not start like one. *)
Definition non_decimal (s : string) : option Number :=
  match s with
  | String "0" (String p (String d rest)) =>
      let radix := if Ascii.eqb p "x" || Ascii.eqb p "X" then Some 16
                   else if Ascii.eqb p "o" || Ascii.eqb p "O" then Some 8
                   else if Ascii.eqb p "b" || Ascii.eqb p "B" then Some 2
                   else None in
      match radix with
      | Some r => Some match radix_value r 0 (String d rest) with
                       | Some v => Finite v 0
                       | None => NaN
                       end
      | None => None
      end
  | _ => None
  end.

(** [ToNumber] of a string ([StringNumericLiteral]): white space is
    trimmed, the empty string is 0, a sign may lead a decimal literal. *)
Definition to_number (s : string) : Number :=
  match trim s with
  | EmptyString => Finite 0 0
  | String "-" rest => negate (unsigned_decimal rest)
  | String "+" rest => unsigned_decimal rest
  | text =>
      match non_decimal text with
      | Some n => n
      | None => unsigned_decimal text
      end
  end.

End Str.

(** [ToNumber] of a value that may be [undefined]. *)
Definition ToNumber (v : option json) : Number :=
  match v with
  | None => NaN
  | Some JNull => Finite 0 0
  | Some (JBool b) => Finite (if b then 1 else 0) 0
  | Some (JNum n) => Finite n 0
  | Some (JStr s) => Str.to_number s
  | Some (JArr items) => Str.to_number (ToString (JArr items))
  | Some (JObj _) => NaN
  end.

(** [a - b < c] for integers [a] and [c]; a comparison with [NaN] is
    false. *)
Definition sub_lt (a : Z) (b : Number) (c : Z) : bool :=
  match b with
  | Finite m e =>
      if 0 <=? e then a - m * 10 ^ e <? c
      else (a - c) * 10 ^ (- e) <? m
  | PlusInfinity => true
  | MinusInfinity => false
  | NaN => false
  end.

(** [`${v}`] for a value that may be [undefined]. *)
Definition ToString_opt (v : option json) : string :=
  match v with
  | Some v => ToString v
  | None => "undefined"
  end.

(** [a || b] *)
Definition or_else (a b : option json) : option json :=
  if truthy_opt a then a else b.

(** Regular expressions over code units, matched by derivatives; [test] is
    a match of the whole string, which is what a pattern anchored with [^]
    and [$] asks for. *)
Module RegExp.

Inductive t :=
| Fail
| Eps
| Class (p : ascii -> bool)
| Cat (r1 r2 : t)
| Alt (r1 r2 : t)
| Star (r : t).

(** [r+] and [r{2,}] *)
Definition Plus (r : t) : t := Cat r (Star r).
Definition AtLeast2 (r : t) : t := Cat r (Cat r (Star r)).

Fixpoint nullable (r : t) : bool :=
  match r with
  | Fail => false
  | Eps => true
  | Class _ => false
  | Cat r1 r2 => nullable r1 && nullable r2
  | Alt r1 r2 => nullable r1 || nullable r2
  | Star _ => true
  end.

Fixpoint deriv (c : ascii) (r : t) : t :=
  match r with
  | Fail => Fail
  | Eps => Fail
  | Class p => if p c then Eps else Fail
  | Cat r1 r2 =>
      if nullable r1
      then Alt (Cat (deriv c r1) r2) (deriv c r2)
      else Cat (deriv c r1) r2
  | Alt r1 r2 => Alt (deriv c r1) (deriv c r2)
  | Star r1 => Cat (deriv c r1) (Star r1)
  end.

Fixpoint test (r : t) (s : string) : bool :=
  match s with
  | EmptyString => nullable r
  | String c rest => test (deriv c r) rest
  end.

End RegExp.

(** What it means for a string to match a regular expression. *)
Inductive Matches : RegExp.t -> string -> Prop :=
| MEps : Matches RegExp.Eps ""
| MClass (p : ascii -> bool) (c : ascii) :
    p c = true -> Matches (RegExp.Class p) (String c "")
| MCat (r1 r2 : RegExp.t) (s1 s2 : string) :
    Matches r1 s1 -> Matches r2 s2 -> Matches (RegExp.Cat r1 r2) (s1 +:+ s2)
| MAltL (r1 r2 : RegExp.t) (s : string) :
    Matches r1 s -> Matches (RegExp.Alt r1 r2) s
| MAltR (r1 r2 : RegExp.t) (s : string) :
    Matches r2 s -> Matches (RegExp.Alt r1 r2) s
| MStarNil (r : RegExp.t) : Matches (RegExp.Star r) ""
| MStarCons (r : RegExp.t) (s1 s2 : string) :
    Matches r s1 -> Matches (RegExp.Star r) s2 ->
    Matches (RegExp.Star r) (s1 +:+ s2).

(** Every character of the string is in the class. *)
Fixpoint all_in (p : ascii -> bool) (s : string) : bool :=
  match s with
  | EmptyString => true
  | String c rest => p c && all_in p rest
  end.

(* ===================================================================== *)
(** * src/utils/helpers.js: validation and error handling *)
(* ===================================================================== *)

Definition is_char (x : ascii) (c : ascii) : bool := Ascii.eqb x c.

(** [[A-Z0-9._%+-]] under [i] *)
Definition local_char (c : ascii) : bool :=
  Str.is_letter c || Str.is_digit c || is_char "." c || is_char "_" c
  || is_char "%" c || is_char "+" c || is_char "-" c.

(** [[A-Z0-9.-]] under [i] *)
Definition domain_char (c : ascii) : bool :=
  Str.is_letter c || Str.is_digit c || is_char "." c || is_char "-" c.

(** [/^[A-Z0-9._%+-]+@[A-Z0-9.-]+\.[A-Z]{2,}$/i] *)
Definition emailRegex : RegExp.t :=
  RegExp.Cat (RegExp.Plus (RegExp.Class local_char))
    (RegExp.Cat (RegExp.Class (is_char "@"))
       (RegExp.Cat (RegExp.Plus (RegExp.Class domain_char))
          (RegExp.Cat (RegExp.Class (is_char "."))
             (RegExp.AtLeast2 (RegExp.Class Str.is_letter))))).

Definition isValidEmail (email : string) : bool :=
  RegExp.test emailRegex email.

(** [handleApiError]: the [{ status, message, type }] object. *)
Definition api_error (status : Z) (message : option json) (type : string)
  : JsError :=
  {| err_name := None;
     err_response := None; err_request := false; err_code := None;
     err_message := message; err_config := None; err_status := Some status;
     err_type := Some type; err_validationErrors := None |}.

Definition handleApiError (error : JsError) : JsError :=
  match err_response error with
  | Some response =>
      api_error (res_status response)
        (or_else (get_field "message" (res_data response)) (err_message error))
        "api_error"
  | None =>
      if err_request error
      then api_error 0
             (Some (JStr "Network error. Please check your connection."))
             "network_error"
      else api_error 0
             (or_else (err_message error)
                (Some (JStr "An unexpected error occurred")))
             "unknown_error"
  end.

(* ===================================================================== *)
(** * The axios transport *)
(* ===================================================================== *)

(** axios is a dependency of the portal.  This is the part of its
    documented behaviour the code relies on: the headers of
    [defaults.headers.common] are merged under those of the request; a
    response whose status is not in 200..299 rejects the promise with an
    error that carries [response], [request], [config] and a [code]; a
    request without answer rejects it with an error that carries [request]
    and the code [ERR_NETWORK], or [ECONNABORTED] after the timeout. *)
Module axios.
Section Transport.
Context (env : Env).

(** The default [validateStatus]. *)
Definition validateStatus (status : Z) : bool :=
  (200 <=? status) && (status <? 300).

(** Request headers over [defaults.headers.common]. *)
Definition mergeConfig (config : Config) : M Config :=
  read (fun w => set_headers (headers config ∪ defaults_common w) config).

Definition AxiosError (message : string) (code : option string)
    (config : Config) (response : option Response) : JsError :=
  {| err_name := Some "AxiosError"%string;
     err_response := response; err_request := true; err_code := code;
     err_message := Some (JStr message); err_config := Some config;
     err_status := None; err_type := None; err_validationErrors := None |}.

(** Put the request on the wire and settle with what comes back. *)
Definition dispatchRequest (config : Config) : M Response :=
  fun w =>
    let sent := record (Sent config) in
    match server env (wire w) config with
    | Answer status body latency =>
        let w' := sent (set_clock (clock w + latency) w) in
        let response :=
          {| res_status := status; res_data := body;
             res_config := Some config; res_responseTime := None |} in
        if validateStatus status then (Resolved response, w')
        else
          (Rejected
             (AxiosError
                ("Request failed with status code " +:+ string_of_Z status)
                (if (400 <=? status) && (status <? 500)
                 then Some "ERR_BAD_REQUEST"%string
                 else if (500 <=? status) && (status <? 600)
                      then Some "ERR_BAD_RESPONSE"%string
                      else None)
                config (Some response)),
           w')
    | NoAnswer why latency =>
        let w' := sent (set_clock (clock w + latency) w) in
        (Rejected
           match why with
           | NetworkError =>
               AxiosError "Network Error" (Some "ERR_NETWORK"%string)
                 config None
           | Timeout =>
               AxiosError "timeout of 30000ms exceeded"
                 (Some "ECONNABORTED"%string) config None
           end,
         w')
    end.

End Transport.
End axios.

(** [storage.x(...)] as a statement of an asynchronous function. *)
Section StorageStatements.
Context `{JsonRuntime}.

Definition storage_get (key : string) (w : World) : json :=
  storage.get key (storage_area w).

Definition storage_set (key : string) (value : option json) (w : World)
  : World :=
  set_storage_area (snd (storage.set key value (storage_area w))) w.

Definition storage_remove (key : string) (w : World) : World :=
  set_storage_area (snd (storage.remove key (storage_area w))) w.

End StorageStatements.

(** [delete api.defaults.headers.common['Authorization']] *)
Definition delete_default_Authorization (w : World) : World :=
  set_defaults_common (delete "Authorization"%string (defaults_common w)) w.

(** [api.defaults.headers.common['Authorization'] = value] *)
Definition set_default_Authorization (value : string) (w : World) : World :=
  set_defaults_common (<["Authorization"%string := value]> (defaults_common w)) w.

Definition TypeError (what : string) : JsError := named_error "TypeError" what.

(* ===================================================================== *)
(** * src/services/authService.js *)
(* ===================================================================== *)

(** What a service call resolves with: [{ success, data, message }]. *)
Record ServiceResult := {
  success : bool;
  sr_data : json;
  sr_message : option string
}.

Module authService.
Section WithApi.
(** The axios instance exported by api.js. *)
Context (api : Config -> M Response).


Definition refreshToken : M ServiceResult :=
  response <- api (request POST "/auth/refresh");;
  ret {| success := true; sr_data := res_data response; sr_message := None |}.

(** The [catch] turns a failed server logout into a local one. *)
Definition logout : M ServiceResult :=
  try_catch
    (response <- api (request POST "/auth/logout");;
     ret {| success := true;
            sr_data := if truthy (res_data response)
                       then res_data response else JObj [];
            sr_message := Some "Logged out successfully"%string |})
    (fun error =>
       ret {| success := true; sr_data := JObj [];
              sr_message := Some "Logged out locally"%string |}).

End WithApi.
End authService.

(* ===================================================================== *)
(** * src/contexts/AuthContext.jsx *)
(* ===================================================================== *)

Module AuthContext.
Section WithApi.
Context `{JsonRuntime} (api : Config -> M Response).

(** [logout]: the inner [try] swallows a failing server call, the
    [finally] block cleans up whatever happened. *)
Definition logout : M unit :=
  try_finally
    (try_catch
       (token <- read (storage_get STORAGE_KEYS.AUTH_TOKEN);;
        if truthy token
        then try_catch (authService.logout api;;; ret tt)
                       (fun error => ret tt)
        else ret tt)
       (fun error => ret tt))
    (fun w =>
       setLoading false
         (setUser JNull
            (delete_default_Authorization
               (storage_remove STORAGE_KEYS.AUTH_TOKEN w)))).

(** [refreshToken], as the closure of a render in which the state
    variable [refreshing] had the given value. *)
Definition refreshToken (refreshing : bool) : M bool :=
  if refreshing then ret false
  else
    try_finally
      (try_catch
         (exec (setRefreshing true);;;
          response <- authService.refreshToken api;;
          (* const { token, user: userData } = response.data *)
          match sr_data response with
          | JNull => throw (TypeError "Cannot destructure 'response.data'")
          | body =>
              let token := get_field "token" body in
              let userData := get_field "user" body in
              exec (storage_set STORAGE_KEYS.AUTH_TOKEN token);;;
              exec (set_default_Authorization
                      ("Bearer " +:+ ToString_opt token));;;
              (match userData with
               | Some u => if truthy u then exec (setUser u) else ret tt
               | None => ret tt
               end);;;
              ret true
          end)
         (fun error => logout;;; ret false))
      (setRefreshing false).

Definition with_config (c : Config) (error : JsError) : JsError :=
  {| err_name := err_name error;
     err_response := err_response error; err_request := err_request error;
     err_code := err_code error; err_message := err_message error;
     err_config := Some c; err_status := err_status error;
     err_type := err_type error;
     err_validationErrors := err_validationErrors error |}.

(** [error.response?.status === 401] *)
Definition is_401 (error : JsError) : bool :=
  match err_response error with
  | Some response => res_status response =? 401
  | None => false
  end.

(** The rejection handler of the interceptor installed by the 401
    effect, closed over [isAuthenticated] and [refreshToken]. *)
Definition responseErrorInterceptor (seen : AuthClosure) (error : JsError)
  : M Response :=
  if is_401 error then
    match err_config error with
    | None => throw (TypeError "Cannot read properties of undefined (reading '_retry')")
    | Some originalRequest =>
        if negb (_retry originalRequest) && seen_isAuthenticated seen then
          let originalRequest := set_retry true originalRequest in
          refreshed <- refreshToken (seen_refreshing seen);;
          if (refreshed : bool) then
            token <- read (storage_get STORAGE_KEYS.AUTH_TOKEN);;
            api (set_headers
                   (<["Authorization"%string := "Bearer " +:+ ToString token]>
                      (headers originalRequest))
                   originalRequest)
          else throw (with_config originalRequest error)
        else throw error
    end
  else throw error.

(** The refresh effect: an interval of 15 minutes while authenticated,
    nothing otherwise. *)
Definition refreshIntervalMs : Z := 15 * 60 * 1000.

Definition refreshEffect (isAuthenticated : bool) : option Z :=
  if negb isAuthenticated then None else Some refreshIntervalMs.

(** One firing of the interval callback. *)
Definition refreshTick (refreshing : bool) : M unit :=
  token <- read (storage_get STORAGE_KEYS.AUTH_TOKEN);;
  if truthy token
  then try_catch (refreshToken refreshing;;; ret tt) (fun error => ret tt)
  else ret tt.

End WithApi.
End AuthContext.

(* ===================================================================== *)
(** * src/services/api.js *)
(* ===================================================================== *)

(** [promise.then(onFulfilled, onRejected)] *)
Definition then_ {A B} (m : M A) (onFulfilled : A -> M B)
    (onRejected : JsError -> M B) : M B :=
  fun w =>
    match m w with
    | (Resolved a, w') => onFulfilled a w'
    | (Rejected e, w') => onRejected e w'
    | (Pending, w') => (Pending, w')
    end.

Definition inspect {A} (a : A) : {b : A | a = b} := exist _ a eq_refl.

(** What [getWithCache] resolves with: [{ data, fromCache: true }] from the
    cache, [{ ...response, fromCache: false }] from the network. *)
Inductive CacheResult :=
| Cached (data : option json)
| Fetched (response : Response).

Definition fromCache (r : CacheResult) : bool :=
  match r with
  | Cached _ => true
  | Fetched _ => false
  end.

Module Api.
Section Instance.
Context `{JsonRuntime} (env : Env).

(** Request interceptor (lines 28-45). *)
Definition requestInterceptor (config : Config) : M Config :=
  token <- read (storage_get STORAGE_KEYS.AUTH_TOKEN);;
  let config :=
    if truthy token
    then set_headers
           (<["Authorization"%string := "Bearer " +:+ ToString token]>
              (headers config))
           config
    else config in
  startTime <- read clock;;
  ret (set_metadata startTime config).

(** Response interceptor, success side (lines 58-75). *)
Definition responseInterceptor (response : Response) : M Response :=
  endTime <- read clock;;
  match res_config response ≫= metadata with
  | None => throw (TypeError "Cannot read properties of undefined (reading 'startTime')")
  | Some startTime =>
      ret {| res_status := res_status response;
             res_data := res_data response;
             res_config := res_config response;
             res_responseTime := Some (endTime - startTime) |}
  end.

Definition with_validationErrors (v : option json) (error : JsError)
  : JsError :=
  {| err_name := err_name error;
     err_response := err_response error; err_request := err_request error;
     err_code := err_code error; err_message := err_message error;
     err_config := err_config error; err_status := err_status error;
     err_type := err_type error; err_validationErrors := v |}.

(** Response interceptor, error side (lines 76-130).  The promise is
    always rejected, with the object [handleApiError] builds. *)
Definition responseErrorInterceptor (error : JsError) : M Response :=
  let originalRequest := err_config error in
  error <-
    match err_response error with
    | Some response =>
        let status := res_status response in
        let data := res_data response in
        (* validation errors (422) *)
        error <-
          (if status =? HTTP_STATUS.UNPROCESSABLE_ENTITY then
             match data with
             | JNull => throw (TypeError "Cannot read properties of null (reading 'errors')")
             | _ => ret (with_validationErrors
                           (or_else (get_field "errors" data) (Some (JObj [])))
                           error)
             end
           else ret error);;
        (* unauthorized (401) *)
        (if status =? HTTP_STATUS.UNAUTHORIZED then
           match originalRequest with
           | None => throw (TypeError "Cannot read properties of undefined (reading '_retry')")
           | Some originalRequest =>
               if negb (_retry originalRequest) then
                 exec (storage_remove STORAGE_KEYS.AUTH_TOKEN);;;
                 exec delete_default_Authorization;;;
                 exec (set_location_href "/login");;;
                 ret (AuthContext.with_config
                        (set_retry true originalRequest) error)
               else ret error
           end
         else ret error)
    | None => ret error
    end;;
  throw (handleApiError error).

(** [api(config)]: defaults merged in, the request interceptor, the
    transport, then the response interceptors in the order they were
    registered: the one of this module first (it is installed when the
    module is loaded), the one of the AuthProvider effect after it, if
    the provider is mounted.  [back] is what the closures of that second
    interceptor reach when they call [api]. *)
Definition api_with (back : Config -> M Response) (config : Config)
  : M Response :=
  fun w =>
    let first :=
      then_ (config <- axios.mergeConfig config;;
             config <- requestInterceptor config;;
             axios.dispatchRequest env config)
            responseInterceptor responseErrorInterceptor in
    match auth_interceptor w with
    | Some seen =>
        then_ first ret (AuthContext.responseErrorInterceptor back seen) w
    | None => first w
    end.

(** The exported instance.  The recursion through the second interceptor
    is cut with a promise that never settles; [api_unfold] below shows
    that the cut is never reached, so that [api] is the function that
    calls back into itself. *)
Definition api : Config -> M Response := api_with (fun _ => never).

End Instance.

Section Enhanced.
Context `{JsonRuntime}.
(** The instance the functions below call. *)
Context (api : Config -> M Response).

(** [shouldRetry] (lines 142-145) *)
Definition shouldRetry (retryCount : Z) (error : JsError) : bool :=
  (retryCount <? API_CONFIG.retryAttempts)
  && match err_response error with
     | None => true
     | Some response => 500 <=? res_status response
     end
  && negb match err_code error with
          | Some code => String.eqb code "ECONNABORTED"
          | None => false
          end.

(** [API_CONFIG.retryDelay * Math.pow(2, retryCount)] *)
Definition retryDelayFor (retryCount : Z) : Z :=
  API_CONFIG.retryDelay * 2 ^ retryCount.

(** [{ base..., ...config }] where [base] has [method], [url] and maybe
    [data]: the properties of [config] win where it has them. *)
Definition spread (m : Method) (u : string) (d : option json)
    (config : Config) : Config :=
  {| method := match method config with Some m' => Some m' | None => Some m end;
     url := match url config with Some u' => Some u' | None => Some u end;
     params := params config;
     data := match data config with Some d' => Some d' | None => d end;
     headers := headers config; _retry := _retry config;
     useCache := useCache config; cacheDuration := cacheDuration config;
     metadata := metadata config |}.

(** [config.useCache !== false] *)
Definition cacheEnabled (config : Config) : bool :=
  match useCache config with
  | Some false => false
  | _ => true
  end.

(** [config.params || {}] *)
Definition cacheParams (config : Config) : json :=
  match params config with
  | Some p => if truthy p then p else JObj []
  | None => JObj []
  end.

Definition cacheKey (u : string) (config : Config) : string :=
  "api_cache_" +:+ u +:+ "_" +:+ JSON_stringify (cacheParams config).

(** [config.cacheDuration || 5 * 60 * 1000] *)
Definition cacheDurationOf (config : Config) : Z :=
  match cacheDuration config with
  | Some d => if d =? 0 then 5 * 60 * 1000 else d
  | None => 5 * 60 * 1000
  end.

(** [cachedData && Date.now() - cachedData.timestamp < cacheDuration];
    a comparison with [NaN] is false. *)
Definition isFresh (now : Z) (cachedData : json) (duration : Z) : bool :=
  truthy cachedData
  && sub_lt now (ToNumber (get_field "timestamp" cachedData)) duration.

(** [requestWithRetry] (lines 138-158).  The number of retries still
    allowed decreases with every recursive call. *)
Equations? requestWithRetry (config : Config) (retryCount : Z) (w : World)
  : Settled Response * World
  by wf (Z.to_nat (API_CONFIG.retryAttempts - retryCount)) lt :=
  requestWithRetry config retryCount w with api config w => {
    | (Rejected error, w') with inspect (shouldRetry retryCount error) => {
        | exist _ true _ =>
            requestWithRetry config (retryCount + 1)
              (slept (retryDelayFor retryCount) w');
        | exist _ false _ => (Rejected error, w') };
    | settled => settled }.
Proof.
  unfold shouldRetry, API_CONFIG.retryAttempts in *.
  destruct (retryCount <? 3) eqn:Hlt; [| discriminate].
  apply Z.ltb_lt in Hlt. lia.
Qed.

(** [api.getWithCache] (lines 165-193) *)
Definition getWithCache (u : string) (config : Config) : M CacheResult :=
  let key := cacheKey u config in
  let duration := cacheDurationOf config in
  hit <- (if cacheEnabled config then
            cachedData <- read (storage_get key);;
            now <- read clock;;
            ret (if isFresh now cachedData duration
                 then Some cachedData else None)
          else ret None);;
  match hit with
  | Some cachedData => ret (Cached (get_field "data" cachedData))
  | None =>
      response <- requestWithRetry (spread GET u None config) 0;;
      (if cacheEnabled config && (res_status response =? HTTP_STATUS.OK)
       then
         now <- read clock;;
         exec (storage_set key
                 (Some (JObj [("data"%string, res_data response);
                              ("timestamp"%string, JNum now)])))
       else ret tt);;;
      ret (Fetched response)
  end.

(** [api.postOptimistic] (lines 196-219); the two callbacks act on the
    page's state. *)
Definition postOptimistic (u : string) (d : option json) (config : Config)
    (onOptimisticUpdate : option (option json -> World -> World))
    (onRollback : option (JsError -> World -> World)) : M Response :=
  (match onOptimisticUpdate with
   | Some f => exec (f d)
   | None => ret tt
   end);;;
  try_catch
    (requestWithRetry (spread POST u d config) 0)
    (fun error =>
       (match onRollback with
        | Some f => exec (f error)
        | None => ret tt
        end);;;
       throw error).

End Enhanced.
End Api.

(** [api.clearCache(pattern)] (lines 311-329): drop the cache entries whose
    key contains the pattern, or all of them without a pattern. *)
Definition includes (pattern key : string) : bool :=
  match String.index 0 pattern key with
  | Some _ => true
  | None => false
  end.

Definition clearCache (pattern : option string) (w : World) : World :=
  let doomed (key : string) : bool :=
    String.prefix "api_cache_" key
    && match pattern with
       | Some p => if String.eqb p "" then true else includes p key
       | None => true
       end in
  set_storage_area
    {| items := filter (fun kv => doomed (fst kv) = false)
                  (items (storage_area w));
       accepts := accepts (storage_area w) |}
    w.

(* ===================================================================== *)
(** * src/services/api.js, second part: adminService *)
(* ===================================================================== *)

Module adminService.

(** The [userData] argument: each property is a string or absent. *)
Record UserData := {
  name : option string;
  email : option string;
  password : option string;
  role : option string;
  status : option string
}.

(** [!s] for a string that may be [undefined]. *)
Definition blank (s : option string) : bool :=
  match s with
  | Some s => String.eqb s ""
  | None => true
  end.

Definition text (s : option string) : string := default ""%string s.

Definition message (m : string) : json := JArr [JStr m].

(** The [errors] object after the four checks (lines 466-484), properties
    in the order they are assigned. *)
Definition validate (userData : UserData) : list (string * json) :=
  let role := default USER_ROLES.USER (role userData) in
  (if blank (name userData)
      || (String.length (Str.trim (text (name userData))) <? 2)%nat
   then [("name"%string, message "Name must be at least 2 characters long")]
   else [])
  ++ (if blank (email userData)
      then [("email"%string, message "Email is required")]
      else if negb (isValidEmail (text (email userData)))
           then [("email"%string, message "Please enter a valid email address")]
           else [])
  ++ (if blank (password userData)
         || (String.length (text (password userData)) <? 8)%nat
      then [("password"%string,
             message "Password must be at least 8 characters long")]
      else [])
  ++ (if negb (bool_decide (role ∈ USER_ROLES.values))
      then [("role"%string, message "Invalid role selected")]
      else []).

(** [throw { response: { status: 422, data: { errors } } }] *)
Definition validationError (errors : list (string * json)) : JsError :=
  {| err_name := None;
     err_response :=
       Some {| res_status := 422;
               res_data := JObj [("errors"%string, JObj errors)];
               res_config := None; res_responseTime := None |};
     err_request := false; err_code := None; err_message := None;
     err_config := None; err_status := None; err_type := None;
     err_validationErrors := None |}.

(** The body posted to [/admin/users]. *)
Definition payload (userData : UserData) : json :=
  JObj [("name"%string, JStr (Str.trim (text (name userData))));
        ("email"%string,
         JStr (Str.trim (Str.toLowerCase (text (email userData)))));
        ("password"%string, JStr (text (password userData)));
        ("role"%string, JStr (default USER_ROLES.USER (role userData)));
        ("status"%string, JStr (default "active"%string (status userData)))].

Section WithApi.
Context (api : Config -> M Response).

(** [createUser] (lines 462-515) *)
Definition createUser (userData : UserData) : M ServiceResult :=
  let errors := validate userData in
  if (0 <? length errors)%nat then throw (validationError errors)
  else
    response <- api {| method := Some POST; url := Some "/admin/users"%string;
                       params := None; data := Some (payload userData);
                       headers := ∅; _retry := false; useCache := None;
                       cacheDuration := None; metadata := None |};;
    exec (clearCache (Some "admin/users"%string));;;
    ret {| success := true; sr_data := res_data response;
           sr_message := Some "User created successfully"%string |}.

End WithApi.
End adminService.

(* ===================================================================== *)
(** * src/utils/helpers.js: debounce *)
(* ===================================================================== *)

(** A debounced function owns one timer, [timeout]: [None] when idle, the
    arguments of the latest call while armed. *)
Module debounce.
Section Debounced.
Context {S A : Type} (func : A -> S -> S) (immediate : bool).

(** A call: [callNow = immediate && !timeout], the timer is re-armed. *)
Definition call (args : A) (timeout : option A) (st : S) : option A * S :=
  let callNow := immediate && negb (bool_decide (is_Some timeout)) in
  (Some args, if callNow then func args st else st).

(** The timer fires ([later]). *)
Definition fire (timeout : option A) (st : S) : option A * S :=
  match timeout with
  | Some args => (None, if immediate then st else func args st)
  | None => (None, st)
  end.

End Debounced.
End debounce.

(* ===================================================================== *)
(** * hooks/useApi: usePaginatedApi *)
(* ===================================================================== *)

Module usePaginatedApi.

Record Options := {
  initialPage : option Z;
  pageSize : option Z;
  searchDebounceMs : option Z;
  cachePages : option bool
}.

(** The state variables of the hook, and the timer of the debounced
    search setter. *)
Record State := {
  page : Z;
  totalPages : Z;
  totalItems : Z;
  searchTerm : string;
  filters : gmap string json;
  sortBy : option string;
  sortOrder : string;
  searchTimer : option string
}.

Definition setPage (f : Z -> Z) (st : State) : State :=
  {| page := f (page st); totalPages := totalPages st;
     totalItems := totalItems st; searchTerm := searchTerm st;
     filters := filters st; sortBy := sortBy st; sortOrder := sortOrder st;
     searchTimer := searchTimer st |}.

Definition setTotals (pages items : Z) (st : State) : State :=
  {| page := page st; totalPages := pages; totalItems := items;
     searchTerm := searchTerm st; filters := filters st;
     sortBy := sortBy st; sortOrder := sortOrder st;
     searchTimer := searchTimer st |}.

Definition setSearchTerm (term : string) (st : State) : State :=
  {| page := page st; totalPages := totalPages st;
     totalItems := totalItems st; searchTerm := term;
     filters := filters st; sortBy := sortBy st; sortOrder := sortOrder st;
     searchTimer := searchTimer st |}.

Definition setFilters (f : gmap string json -> gmap string json)
    (st : State) : State :=
  {| page := page st; totalPages := totalPages st;
     totalItems := totalItems st; searchTerm := searchTerm st;
     filters := f (filters st); sortBy := sortBy st;
     sortOrder := sortOrder st; searchTimer := searchTimer st |}.

Definition setSort (field : option string) (order : string) (st : State)
  : State :=
  {| page := page st; totalPages := totalPages st;
     totalItems := totalItems st; searchTerm := searchTerm st;
     filters := filters st; sortBy := field; sortOrder := order;
     searchTimer := searchTimer st |}.

Definition setSearchTimer (t : option string) (st : State) : State :=
  {| page := page st; totalPages := totalPages st;
     totalItems := totalItems st; searchTerm := searchTerm st;
     filters := filters st; sortBy := sortBy st; sortOrder := sortOrder st;
     searchTimer := t |}.

(** The [useState] initial values (lines 478-484). *)
Definition init (options : Options) : State :=
  {| page := default 1 (initialPage options); totalPages := 0;
     totalItems := 0; searchTerm := ""; filters := ∅; sortBy := None;
     sortOrder := "asc"; searchTimer := None |}.

(** The callbacks.  [seen] is the render a callback was created in: the
    guards read its [page] and [totalPages], the updates act on the
    state at the time they are applied. *)
Section Callbacks.
Context (seen : State).

Definition nextPage (st : State) : State :=
  if page seen <? totalPages seen
  then setPage (fun prev => prev + 1) st else st.

Definition prevPage (st : State) : State :=
  if 1 <? page seen
  then setPage (fun prev => prev - 1) st else st.

Definition goToPage (pageNumber : Z) (st : State) : State :=
  if (1 <=? pageNumber) && (pageNumber <=? totalPages seen)
  then setPage (fun _ => pageNumber) st else st.

End Callbacks.

(** [{ ...prev, ...newFilters }] *)
Definition updateFilters (newFilters : gmap string json) (st : State)
  : State :=
  setPage (fun _ => 1) (setFilters (fun prev => newFilters ∪ prev) st).

(** [updateSort(field, order = 'asc')] *)
Definition updateSort (field : option string) (order : option string)
    (st : State) : State :=
  setPage (fun _ => 1) (setSort field (default "asc"%string order) st).

Definition clearFilters (st : State) : State :=
  setPage (fun _ => 1)
    (setSort None "asc"
       (setSearchTerm "" (setFilters (fun _ => ∅) st))).

(** The function handed to [debounce] (lines 487-490). *)
Definition search (term : string) (st : State) : State :=
  setPage (fun _ => 1) (setSearchTerm term st).

(** [setSearchTerm: debouncedSearch]: a call arms the timer, the timer
    runs [search]. *)
Definition debouncedSearch (term : string) (st : State) : State :=
  let '(timer, st') := debounce.call search false term (searchTimer st) st in
  setSearchTimer timer st'.

Definition searchTimerFires (st : State) : State :=
  let '(timer, st') := debounce.fire search false (searchTimer st) st in
  setSearchTimer timer st'.

(** The effect on a new response (lines 518-523):
    [response.last_page || 0], [response.total || 0]; the two properties
    are numbers when the server sends them. *)
Definition number_or_0 (v : option json) : Z :=
  match v with
  | Some (JNum n) => n
  | _ => 0
  end.

Definition onResponse (response : json) (st : State) : State :=
  if truthy_opt (get_field "data" response)
  then setTotals (number_or_0 (get_field "last_page" response))
                 (number_or_0 (get_field "total" response)) st
  else st.

(** What the hook returns (lines 572-573). *)
Definition hasNextPage (st : State) : bool := page st <? totalPages st.
Definition hasPrevPage (st : State) : bool := 1 <? page st.

(** What a component can do with the hook between two renders.  Under
    "Navigation" the hook returns [nextPage], [prevPage], [goToPage] and the
    state setter [setPage] itself (line 579), which takes a value or an
    updater. *)
Inductive Action :=
| NextPage
| PrevPage
| GoToPage (pageNumber : Z)
| SetPage (f : Z -> Z)
| UpdateFilters (newFilters : gmap string json)
| UpdateSort (field : option string) (order : option string)
| ClearFilters
| Search (term : string)
| SearchTimerFires
| ResponseArrives (response : json).

(** One action on the current render: the callbacks are those of that
    render. *)
Definition step (a : Action) (st : State) : State :=
  match a with
  | NextPage => nextPage st st
  | PrevPage => prevPage st st
  | GoToPage n => goToPage st n st
  | SetPage f => setPage f st
  | UpdateFilters f => updateFilters f st
  | UpdateSort field order => updateSort field order st
  | ClearFilters => clearFilters st
  | Search term => debouncedSearch term st
  | SearchTimerFires => searchTimerFires st
  | ResponseArrives r => onResponse r st
  end.

Definition run (actions : list Action) (st : State) : State :=
  fold_left (fun st a => step a st) actions st.

(** The action that hands the page to the caller. *)
Definition raw (a : Action) : bool :=
  match a with
  | SetPage _ => true
  | _ => false
  end.

End usePaginatedApi.

(* ===================================================================== *)
(** * A JSON writer and reader *)
(* ===================================================================== *)

(** A writer and a reader for JSON texts without white space, used to show
    that the laws of [JsonRuntime] can be met and to run the code on
    concrete inputs.  Strings escape the quote, the backslash and the
    control characters. *)
Module JsonText.

Definition hex_digit (n : N) : ascii :=
  ascii_of_N (if (n <? 10)%N then 48 + n else 87 + n).

Definition hex_value (c : ascii) : option N :=
  let n := Str.code c in
  if ((48 <=? n) && (n <=? 57))%N then Some (n - 48)%N
  else if ((97 <=? n) && (n <=? 102))%N then Some (n - 87)%N
  else if ((65 <=? n) && (n <=? 70))%N then Some (n - 55)%N
  else None.

(** The double quote and the backslash. *)
Definition dquote : ascii := "034".
Definition backslash : ascii := "092".

Definition escape_char (c : ascii) : string :=
  if Ascii.eqb c dquote then String backslash (String dquote "")
  else if Ascii.eqb c backslash then String backslash (String backslash "")
  else if (Str.code c <? 32)%N
       then String backslash "u00"
            +:+ String (hex_digit (Str.code c / 16))
                  (String (hex_digit (Str.code c mod 16)) "")
       else String c "".

Fixpoint escape (s : string) : string :=
  match s with
  | EmptyString => EmptyString
  | String c rest => escape_char c +:+ escape rest
  end.

Definition quote (s : string) : string :=
  String dquote (escape s +:+ String dquote "").

(** The elements of an array after the opening bracket, and the members
    of an object after the opening brace. *)
Fixpoint elems_with (f : json -> string) (l : list json) : string :=
  match l with
  | [] => "]"
  | x :: rest =>
      f x +:+
      match rest with
      | [] => "]"
      | _ => "," +:+ elems_with f rest
      end
  end.

Fixpoint members_with (f : json -> string) (l : list (string * json))
  : string :=
  match l with
  | [] => "}"
  | (k, x) :: rest =>
      quote k +:+ ":" +:+ f x +:+
      match rest with
      | [] => "}"
      | _ => "," +:+ members_with f rest
      end
  end.

Fixpoint stringify (v : json) : string :=
  match v with
  | JNull => "null"
  | JBool true => "true"
  | JBool false => "false"
  | JNum n => string_of_Z n
  | JStr s => quote s
  | JArr items => "[" +:+ elems_with stringify items
  | JObj fields => "{" +:+ members_with stringify fields
  end.

(** Reading.  Every function returns what it read and the rest of the
    text. *)

(** The text after the prefix [p], if [s] starts with it. *)
Fixpoint strip (p s : string) : option string :=
  match p, s with
  | EmptyString, _ => Some s
  | String a p', String b s' => if Ascii.eqb a b then strip p' s' else None
  | String _ _, EmptyString => None
  end.

(** The characters of a string literal, up to the closing quote. *)
Fixpoint read_chars (s : string) : option (string * string) :=
  match s with
  | EmptyString => None
  | String c rest =>
      if Ascii.eqb c dquote then Some (EmptyString, rest)
      else if Ascii.eqb c backslash then
        match rest with
        | String e rest' =>
            if Ascii.eqb e dquote || Ascii.eqb e backslash then
              match read_chars rest' with
              | Some (str, rest'') => Some (String e str, rest'')
              | None => None
              end
            else if Ascii.eqb e "u" then
              match rest' with
              | String "0" (String "0" (String h (String l rest''))) =>
                  match hex_value h, hex_value l, read_chars rest'' with
                  | Some hv, Some lv, Some (str, rest3) =>
                      Some (String (ascii_of_N (16 * hv + lv)) str, rest3)
                  | _, _, _ => None
                  end
              | _ => None
              end
            else None
        | EmptyString => None
        end
      else if (Str.code c <? 32)%N then None
      else
        match read_chars rest with
        | Some (str, rest') => Some (String c str, rest')
        | None => None
        end
  end.

Definition is_numchar (c : ascii) : bool :=
  Str.is_digit c || Ascii.eqb c "-".

(** The longest prefix of number characters. *)
Fixpoint span_number (s : string) : string * string :=
  match s with
  | String c rest =>
      if is_numchar c
      then let '(num, rest') := span_number rest in (String c num, rest')
      else (EmptyString, s)
  | EmptyString => (EmptyString, EmptyString)
  end.

Definition read_number (s : string) : option (json * string) :=
  let '(num, rest) := span_number s in
  match NilZero.int_of_string num with
  | Some d => Some (JNum (Z.of_int d), rest)
  | None => None
  end.

Fixpoint read_value (fuel : nat) (s : string) : option (json * string) :=
  match fuel with
  | O => None
  | S fuel =>
      match s with
      | EmptyString => None
      | String c rest =>
          if Ascii.eqb c "n" then
            match strip "ull" rest with
            | Some rest' => Some (JNull, rest')
            | None => None
            end
          else if Ascii.eqb c "t" then
            match strip "rue" rest with
            | Some rest' => Some (JBool true, rest')
            | None => None
            end
          else if Ascii.eqb c "f" then
            match strip "alse" rest with
            | Some rest' => Some (JBool false, rest')
            | None => None
            end
          else if Ascii.eqb c dquote then
            match read_chars rest with
            | Some (str, rest') => Some (JStr str, rest')
            | None => None
            end
          else if Ascii.eqb c "[" then
            match strip "]" rest with
            | Some rest' => Some (JArr [], rest')
            | None =>
                match read_elems fuel rest with
                | Some (items, rest') => Some (JArr items, rest')
                | None => None
                end
            end
          else if Ascii.eqb c "{" then
            match strip "}" rest with
            | Some rest' => Some (JObj [], rest')
            | None =>
                match read_members fuel rest with
                | Some (fields, rest') => Some (JObj fields, rest')
                | None => None
                end
            end
          else read_number s
      end
  end

with read_elems (fuel : nat) (s : string) : option (list json * string) :=
  match fuel with
  | O => None
  | S fuel =>
      match read_value fuel s with
      | Some (x, String c rest) =>
          if Ascii.eqb c "]" then Some ([x], rest)
          else if Ascii.eqb c "," then
            match read_elems fuel rest with
            | Some (xs, rest') => Some (x :: xs, rest')
            | None => None
            end
          else None
      | _ => None
      end
  end

with read_members (fuel : nat) (s : string)
  : option (list (string * json) * string) :=
  match fuel with
  | O => None
  | S fuel =>
      match strip (String dquote "") s with
      | Some rest =>
          match read_chars rest with
          | Some (k, rest') =>
              match strip ":" rest' with
              | Some rest'' =>
                  match read_value fuel rest'' with
                  | Some (x, String c rest3) =>
                      if Ascii.eqb c "}" then Some ([(k, x)], rest3)
                      else if Ascii.eqb c "," then
                        match read_members fuel rest3 with
                        | Some (xs, rest4) => Some ((k, x) :: xs, rest4)
                        | None => None
                        end
                      else None
                  | _ => None
                  end
              | None => None
              end
          | None => None
          end
      | None => None
      end
  end.

(** [None] where [JSON.parse] throws. *)
Definition parse (s : string) : option json :=
  match read_value (S (String.length s)) s with
  | Some (v, EmptyString) => Some v
  | _ => None
  end.

(** How much fuel reading a value back takes. *)
Fixpoint weight (v : json) : nat :=
  match v with
  | JArr items => S (list_sum (map (fun x => S (weight x)) items))
  | JObj fields => S (list_sum (map (fun '(_, x) => S (weight x)) fields))
  | _ => 1%nat
  end.

(** ** What the proofs about the reader speak of *)

(** What may follow a number: not another number character. *)
Definition ends_number (rest : string) : Prop :=
  match rest with
  | String c _ => is_numchar c = false
  | EmptyString => True
  end.

Definition all_numchars (s : string) : Prop :=
  span_number s = (s, EmptyString).

Definition elems_weight (items : list json) : nat :=
  list_sum (map (fun x => S (weight x)) items).

Definition members_weight (fields : list (string * json)) : nat :=
  list_sum (map (fun '(_, x) => S (weight x)) fields).

Definition reads_back (v : json) : Prop :=
  forall fuel rest,
    (weight v <= fuel)%nat -> ends_number rest ->
    read_value fuel (stringify v +:+ rest) = Some (v, rest).

End JsonText.

(* ===================================================================== *)
(** * The words of the claims *)
(* ===================================================================== *)

(** The four reasons for which the claim says a user is turned down, in the
    words of the claim.  A property that is absent counts as missing; an
    absent role is the default role [user]. *)
Definition name_too_short (u : adminService.UserData) : Prop :=
  match adminService.name u with
  | Some n => (String.length (Str.trim n) < 2)%nat
  | None => True
  end.

Definition email_missing_or_malformed (u : adminService.UserData) : Prop :=
  match adminService.email u with
  | Some e => isValidEmail e = false
  | None => True
  end.

Definition password_missing_or_short (u : adminService.UserData) : Prop :=
  match adminService.password u with
  | Some p => (String.length p < 8)%nat
  | None => True
  end.

Definition role_unknown (u : adminService.UserData) : Prop :=
  let r := default USER_ROLES.USER (adminService.role u) in
  r <> "admin"%string /\ r <> "editor"%string /\ r <> "user"%string.

Definition turned_down (u : adminService.UserData) : Prop :=
  name_too_short u \/ email_missing_or_malformed u
  \/ password_missing_or_short u \/ role_unknown u.

(** The request [createUser] sends for a user that passes the checks. *)
Definition createUser_request (u : adminService.UserData) : Config :=
  {| method := Some POST; url := Some "/admin/users"%string; params := None;
     data := Some (adminService.payload u); headers := ∅; _retry := false;
     useCache := None; cacheDuration := None; metadata := None |}.

(** When the claim says a failed request is issued again: fewer than
    [retryAttempts] retries so far, a failure without response or with a
    status of 500 or more, and not the code of a timeout. *)
Definition retryable (retryCount : Z) (error : JsError) : Prop :=
  retryCount < API_CONFIG.retryAttempts
  /\ (err_response error = None
      \/ exists response,
           err_response error = Some response /\ 500 <= res_status response)
  /\ err_code error <> Some "ECONNABORTED"%string.

(** Requests that may be repeated without further effect (RFC 9110). *)
Definition idempotent (m : Method) : bool :=
  match m with
  | GET | PUT | DELETE => true
  | POST | PATCH => false
  end.

(** The state in which [logout] leaves the page. *)
Definition logged_out (w : World) : Prop :=
  localStorage.getItem STORAGE_KEYS.AUTH_TOKEN (storage_area w) = None
  /\ defaults_common w !! "Authorization"%string = None
  /\ user w = JNull
  /\ isAuthenticated w = false
  /\ loading w = false.

(** The [finally] block of [logout]. *)
Definition logout_cleanup (w : World) : World :=
  setLoading false
    (setUser JNull
       (delete_default_Authorization
          (storage_remove STORAGE_KEYS.AUTH_TOKEN w))).

(** The object [getWithCache] stores: [{ data, timestamp }]. *)
Definition cacheEntry (body : json) (timestamp : Z) : json :=
  JObj [("data"%string, body); ("timestamp"%string, JNum timestamp)].

(** What [getWithCache] does when it does not answer from the cache: the
    request goes through [requestWithRetry]; a response is handed back with
    [fromCache = false], after its body was stored with the time of arrival
    if the status is 200; a failure is rethrown. *)
Definition fetch_and_store `{JsonRuntime} (api : Config -> M Response)
    (u : string) (config : Config) (w : World) : Settled CacheResult * World :=
  match Api.requestWithRetry api (Api.spread GET u None config) 0 w with
  | (Resolved response, w') =>
      (Resolved (Fetched response),
       if res_status response =? 200
       then storage_set (Api.cacheKey u config)
              (Some (cacheEntry (res_data response) (clock w'))) w'
       else w')
  | (Rejected error, w') => (Rejected error, w')
  | (Pending, w') => (Pending, w')
  end.

(** The page after the api.js interceptor has dealt with a 401: the token
    and the default header are gone and the browser is sent to the login
    page. *)
Definition turned_away (w : World) : World :=
  set_location_href "/login"
    (delete_default_Authorization (storage_remove STORAGE_KEYS.AUTH_TOKEN w)).

(** An error object without [response] and without [code]: what
    [handleApiError] builds, and a [TypeError]. *)
Definition bare (e : JsError) : Prop :=
  err_response e = None /\ err_code e = None.

Section Chain.
Context `{JsonRuntime} (env : Env).

(** The chain of [api(config)] up to and including the interceptors of
    api.js. *)
Definition first_interceptors (config : Config) : M Response :=
  then_ (config <- axios.mergeConfig config;;
         config <- Api.requestInterceptor config;;
         axios.dispatchRequest env config)
        Api.responseInterceptor Api.responseErrorInterceptor.

(** The request as it goes on the wire: defaults merged in, bearer token
    and start time put on by the request interceptor. *)
Definition outgoing (config : Config) (w : World) : Config :=
  match (config <- axios.mergeConfig config;;
         Api.requestInterceptor config) w with
  | (Resolved c, _) => c
  | _ => config
  end.

End Chain.

(** The methods and the addresses of the requests on the wire, and the
    waits between them. *)
Definition sent_methods (events : list Event) : list (option Method) :=
  omap (fun e => match e with Sent c => Some (method c) | Slept _ => None end)
       events.

Definition sent_urls (events : list Event) : list (option string) :=
  omap (fun e => match e with Sent c => Some (url c) | Slept _ => None end)
       events.

Definition waits (events : list Event) : list Z :=
  omap (fun e => match e with Slept ms => Some ms | Sent _ => None end) events.

(* ===================================================================== *)
(** * Pages, browsers and servers to run the code on *)
(* ===================================================================== *)

(** The writer and the reader as a runtime. *)
Definition reference_runtime : JsonRuntime :=
  {| JSON_stringify := JsonText.stringify; JSON_parse := JsonText.parse |}.

(** A browser that takes every write, and one whose quota is used up. *)
Definition roomy (m : gmap string string) : LocalStorage :=
  {| items := m; accepts := fun _ _ _ => true |}.

Definition full (m : gmap string string) : LocalStorage :=
  {| items := m; accepts := fun _ _ _ => false |}.

(** A world with the given store and nothing else. *)
Definition world_with (ls : LocalStorage) : World :=
  {| storage_area := ls; defaults_common := ∅; location_href := None;
     clock := 0; user := JNull; loading := true; refreshing := false;
     auth_interceptor := None; wire := [] |}.

(** An options object without properties. *)
Definition no_options : Config :=
  {| method := None; url := None; params := None; data := None; headers := ∅;
     _retry := false; useCache := None; cacheDuration := None;
     metadata := None |}.

(** A page with a stored token and a user, and servers for it: one that
    accepts everything, one that is down, one that fails with 503. *)
Definition server_ok : Env :=
  {| server := fun _ _ => Answer 200 (JObj []) 20 |}.

Definition server_down : Env :=
  {| server := fun _ _ => NoAnswer NetworkError 20 |}.

Definition server_503 : Env :=
  {| server := fun _ _ => Answer 503 (JObj []) 20 |}.

Definition server_404 : Env :=
  {| server := fun _ _ => Answer 404 (JObj []) 20 |}.

(** A server that is not heard from before the timeout of the instance
    ([API_CONFIG.timeout], 30 seconds). *)
Definition server_timeout : Env :=
  {| server := fun _ _ => NoAnswer Timeout 30000 |}.

(** A server that never answers with a status from 200 to 299. *)
Definition never_2xx (env : Env) : Prop :=
  forall history request status body latency,
    server env history request = Answer status body latency ->
    ~ 200 <= status < 300.

(** A server on which the token [t0] has expired: it answers 401 unless the
    request bears the token [t1], which it hands out at [/auth/refresh]. *)
Definition server_expired : Env :=
  {| server := fun _ c =>
       if bool_decide (url c = Some "/auth/refresh"%string)
       then Answer 200 (JObj [("token"%string, JStr "t1")]) 20
       else if bool_decide (headers c !! "Authorization"%string
                            = Some "Bearer t1"%string)
            then Answer 200 (JObj [("data"%string, JArr [])]) 20
            else Answer 401 (JObj [("message"%string, JStr "Unauthenticated.")]) 20
  |}.

Definition token_store (token : string) : LocalStorage :=
  roomy {[STORAGE_KEYS.AUTH_TOKEN := JsonText.stringify (JStr token)]}.

Definition signed_in (token : string) : World :=
  {| storage_area := token_store token;
     defaults_common := {["Authorization"%string := "Bearer " +:+ token]};
     location_href := None; clock := 0;
     user := JObj [("email"%string, JStr "jane@insbu.bi")];
     loading := false; refreshing := false;
     auth_interceptor :=
       Some {| seen_isAuthenticated := true; seen_refreshing := false |};
     wire := [] |}.

(** A user with a one-letter name, and one that passes the checks. *)
Definition user_A : adminService.UserData :=
  {| adminService.name := Some " A "%string;
     adminService.email := Some "a@insbu.bi"%string;
     adminService.password := Some "longenough"%string;
     adminService.role := None; adminService.status := None |}.

Definition user_Jane : adminService.UserData :=
  {| adminService.name := Some " Jane "%string;
     adminService.email := Some "Jane@INSBU.bi"%string;
     adminService.password := Some "longenough"%string;
     adminService.role := Some "editor"%string;
     adminService.status := None |}.

(** The hook with [initialPage: 1], and a session of a component with it. *)
Definition default_paging : usePaginatedApi.Options :=
  {| usePaginatedApi.initialPage := Some 1;
     usePaginatedApi.pageSize := None;
     usePaginatedApi.searchDebounceMs := None;
     usePaginatedApi.cachePages := None |}.

Definition paging_session : list usePaginatedApi.Action :=
  [usePaginatedApi.ResponseArrives
     (JObj [("data"%string, JArr [JNum 7]); ("last_page"%string, JNum 3)]);
   usePaginatedApi.NextPage; usePaginatedApi.NextPage;
   usePaginatedApi.NextPage; usePaginatedApi.PrevPage;
   usePaginatedApi.PrevPage; usePaginatedApi.PrevPage;
   usePaginatedApi.GoToPage 0].

Definition news_page_1 : Config :=
  {| method := None; url := None;
     params := Some (JObj [("page"%string, JNum 1)]); data := None;
     headers := ∅; _retry := false; useCache := None;
     cacheDuration := Some (2 * 60 * 1000); metadata := None |}.




Definition news_key : string :=
  "api_cache_/news_" +:+ JsonText.stringify (JObj [("page"%string, JNum 1)]).

Definition news_cached_at (timestamp now : Z) : World :=
  set_clock now
    (world_with
       (roomy {[news_key
                := JsonText.stringify (cacheEntry (JArr [JNum 7]) timestamp)]})).

(* ===================================================================== *)
(** * More of the runtime: string positions, 32-bit integers *)
(* ===================================================================== *)

Module Text.

(** [s.substring(0, end)]: a negative [end] counts as 0, one beyond the
    length as the length. *)
Definition substring_to (e : Z) (s : string) : string :=
  String.substring 0 (Z.to_nat e) s.

Fixpoint drop (n : nat) (s : string) : string :=
  match n, s with
  | O, _ => s
  | S n, String _ rest => drop n rest
  | S _, EmptyString => EmptyString
  end.

(** [s.slice(start)]: a negative [start] counts from the end. *)
Definition slice_from (start : Z) (s : string) : string :=
  let len := Z.of_nat (String.length s) in
  let from := if start <? 0 then Z.max (len + start) 0 else Z.min start len in
  drop (Z.to_nat from) s.

(** [s.lastIndexOf(c)] for a search string of one character: the index of
    its last occurrence, or -1. *)
Fixpoint lastIndexOf (c : ascii) (s : string) : Z :=
  match s with
  | EmptyString => -1
  | String x rest =>
      let i := lastIndexOf c rest in
      if 0 <=? i then i + 1 else if Ascii.eqb x c then 0 else -1
  end.

(** [s.includes(c)] for one character. *)
Fixpoint has (c : ascii) (s : string) : bool :=
  match s with
  | EmptyString => false
  | String x rest => Ascii.eqb x c || has c rest
  end.

End Text.

Module Num.

Definition ToUint32 (x : Z) : Z := x mod 2 ^ 32.

Definition ToInt32 (x : Z) : Z :=
  let m := x mod 2 ^ 32 in
  if m <? 2 ^ 31 then m else m - 2 ^ 32.

(** [x >>> n] *)
Definition ushr (x n : Z) : Z :=
  Z.shiftr (ToUint32 x) (ToUint32 n mod 32).

(** [x << n] *)
Definition shl (x n : Z) : Z :=
  ToInt32 (Z.shiftl (ToInt32 x) (ToUint32 n mod 32)).

End Num.

(* ===================================================================== *)
(** * src/utils/helpers.js: strings and files *)
(* ===================================================================== *)

(** [truncateText(text, maxLength = 100, suffix = '...')] (lines 97-100) *)
Definition truncateText (text : string) (maxLength : option Z)
    (suffix : option string) : string :=
  let maxLength := default 100 maxLength in
  let suffix := default "..."%string suffix in
  if String.eqb text "" || (Z.of_nat (String.length text) <=? maxLength)
  then text
  else Str.trim (Text.substring_to maxLength text) +:+ suffix.

(** [getFileExtension] (lines 209-211):
    [filename.slice((filename.lastIndexOf('.') - 1 >>> 0) + 2)] *)
Definition getFileExtension (filename : string) : string :=
  Text.slice_from (Num.ushr (Text.lastIndexOf "." filename - 1) 0 + 2) filename.

(* ===================================================================== *)
(** * src/utils/helpers.js: slugs and phone numbers *)
(* ===================================================================== *)

(** [s.replace(/[class]{least,}/g, by)], for [least] of 1 or more: every
    maximal run of characters of the class that has [least] characters or
    more is replaced.  [run] is the run that has been read. *)
Section Replace.
Context (cls : ascii -> bool) (least : nat) (by_ : string).

Definition replaced (run : string) : string :=
  if String.eqb run "" then ""%string
  else if (least <=? String.length run)%nat then by_ else run.

Fixpoint replace_runs_from (run s : string) : string :=
  match s with
  | EmptyString => replaced run
  | String c rest =>
      if cls c then replace_runs_from (run +:+ String c "") rest
      else replaced run +:+ String c (replace_runs_from "" rest)
  end.

Definition replace_runs (s : string) : string := replace_runs_from "" s.

(** [s.replace(/^[class]+/, '')] *)
Fixpoint strip_start (s : string) : string :=
  match s with
  | String c rest => if cls c then strip_start rest else s
  | EmptyString => EmptyString
  end.

(** [s.replace(/[class]+$/, '')] *)
Fixpoint strip_end (s : string) : string :=
  match s with
  | EmptyString => EmptyString
  | String c rest =>
      match strip_end rest with
      | EmptyString => if cls c then EmptyString else String c EmptyString
      | kept => String c kept
      end
  end.

(** The characters of [s] outside the class. *)
Fixpoint without (s : string) : string :=
  match s with
  | EmptyString => EmptyString
  | String c rest => if cls c then without rest else String c (without rest)
  end.

End Replace.

(** [\w] *)
Definition is_word (c : ascii) : bool :=
  Str.is_letter c || Str.is_digit c || is_char "_" c.

(** [slugify] (lines 102-112) *)
Definition slugify (text : string) : string :=
  let s := Str.trim (Str.toLowerCase text) in
  let s := replace_runs Str.is_space 1 "-" s in
  let s := replace_runs (fun c => negb (is_word c || is_char "-" c)) 1 "" s in
  let s := replace_runs (is_char "-") 2 "-" s in
  let s := strip_start (is_char "-") s in
  strip_end (is_char "-") s.

(** [[A-Z]] *)
Definition is_upper (c : ascii) : bool :=
  let n := Str.code c in ((65 <=? n) && (n <=? 90))%N.

(** What a slug looks like: lower-case letters, digits, [_] and [-]; no
    [-] at either end and no two in a row. *)
Definition slug_char (c : ascii) : bool :=
  let n := Str.code c in
  ((97 <=? n) && (n <=? 122))%N || Str.is_digit c || is_char "_" c
  || is_char "-" c.

Fixpoint no_double (p : ascii -> bool) (s : string) : bool :=
  match s with
  | String a (String b _ as rest) => negb (p a && p b) && no_double p rest
  | _ => true
  end.

Definition first_char (s : string) : option ascii :=
  match s with
  | String c _ => Some c
  | EmptyString => None
  end.

Fixpoint last_char (s : string) : option ascii :=
  match s with
  | EmptyString => None
  | String c EmptyString => Some c
  | String _ rest => last_char rest
  end.

Definition is_slug (s : string) : Prop :=
  all_in slug_char s = true
  /\ no_double (is_char "-") s = true
  /\ first_char s <> Some "-"%char
  /\ last_char s <> Some "-"%char.

(** [[1-9]] *)
Definition is_1to9 (c : ascii) : bool :=
  let n := Str.code c in ((49 <=? n) && (n <=? 57))%N.

(** [r?] and [r{0,n}] *)
Definition Optional (r : RegExp.t) : RegExp.t := RegExp.Alt RegExp.Eps r.

Fixpoint UpTo (n : nat) (r : RegExp.t) : RegExp.t :=
  match n with
  | O => RegExp.Eps
  | S n => RegExp.Alt RegExp.Eps (RegExp.Cat r (UpTo n r))
  end.

(** [/^[\+]?[1-9][\d]{0,15}$/] *)
Definition phoneRegex : RegExp.t :=
  RegExp.Cat (Optional (RegExp.Class (is_char "+")))
    (RegExp.Cat (RegExp.Class is_1to9) (UpTo 15 (RegExp.Class Str.is_digit))).

(** [isValidPhone] (lines 147-150) *)
Definition isValidPhone (phone : string) : bool :=
  RegExp.test phoneRegex (replace_runs Str.is_space 1 "" phone).

(* ===================================================================== *)
(** * src/utils/helpers.js: arrays *)
(* ===================================================================== *)

Section Arrays.
Context {A : Type}.

(** [array.slice(start, end)]: negative positions count from the end,
    positions beyond the length are the length. *)
Definition slice (start stop : Z) (array : list A) : list A :=
  let len := Z.of_nat (length array) in
  let rel k := if k <? 0 then Z.max (len + k) 0 else Z.min k len in
  take (Z.to_nat (rel stop - rel start)) (drop (Z.to_nat (rel start)) array).

(** The loop of [chunk] (lines 274-280),
    [for (let i = 0; i < array.length; i += size)], run for at most [fuel]
    iterations; [None]: the loop is still running then. *)
Fixpoint chunk_loop (fuel : nat) (array : list A) (size i : Z)
    (chunks : list (list A)) : option (list (list A)) :=
  if i <? Z.of_nat (length array) then
    match fuel with
    | O => None
    | S fuel =>
        chunk_loop fuel array size (i + size)
          (chunks ++ [slice i (i + size) array])
    end
  else Some chunks.

Definition chunk (fuel : nat) (array : list A) (size : Z)
  : option (list (list A)) :=
  chunk_loop fuel array size 0 [].

(** A [Set] of primitive values, which it compares by value: the elements
    in the order they were first added. *)
Context `{EqDecision A}.

Definition Set_add (s : list A) (x : A) : list A :=
  if decide (x ∈ s) then s else s ++ [x].

Definition new_Set (array : list A) : list A := fold_left Set_add array [].

(** [unique] (lines 270-272): [[...new Set(array)]] *)
Definition unique (array : list A) : list A := new_Set array.

End Arrays.

(* ===================================================================== *)
(** * src/utils/helpers.js: throttle, memoize *)
(* ===================================================================== *)

(** A burst of calls of a debounced function, before its timer fires. *)
Definition debounce_calls {S A : Type} (func : A -> S -> S) (immediate : bool)
    (argss : list A) (timeout : option A) (st : S) : option A * S :=
  fold_left (fun ts args => debounce.call func immediate args (fst ts) (snd ts))
            argss (timeout, st).

(** A throttled function owns the flag [inThrottle], which its timer
    clears after [limit] milliseconds. *)
Module throttle.
Section Throttled.
Context {S A : Type} (func : A -> S -> S).

(** A call (lines 351-357) *)
Definition call (args : A) (inThrottle : bool) (st : S) : bool * S :=
  if negb inThrottle then (true, func args st) else (inThrottle, st).

(** The timer fires. *)
Definition fire (inThrottle : bool) (st : S) : bool * S := (false, st).

Definition calls (argss : list A) (inThrottle : bool) (st : S) : bool * S :=
  fold_left (fun ts args => call args (fst ts) (snd ts)) argss (inThrottle, st).

End Throttled.
End throttle.

(** A memoized function owns the map [cache]; [ran] lists the arguments
    [fn] was run on, oldest first. *)
Module memoize.
Section Memoized.
Context `{JsonRuntime} {B : Type} (fn : list json -> B).

Record State := {
  cache : gmap string B;
  ran : list (list json)
}.

Definition fresh : State := {| cache := ∅; ran := [] |}.

(** A call (lines 363-373); the key is [JSON.stringify(args)]. *)
Definition call (args : list json) (st : State) : B * State :=
  let key := JSON_stringify (JArr args) in
  match cache st !! key with
  | Some result => (result, st)
  | None =>
      let result := fn args in
      (result,
       {| cache := <[key := result]> (cache st); ran := ran st ++ [args] |})
  end.

Fixpoint calls (argss : list (list json)) (st : State) : list B * State :=
  match argss with
  | [] => ([], st)
  | args :: rest =>
      let '(result, st) := call args st in
      let '(results, st) := calls rest st in
      (result :: results, st)
  end.

End Memoized.
End memoize.

(* ===================================================================== *)
(** * src/utils/helpers.js: colours *)
(* ===================================================================== *)

Module Radix16.

(** The digits of [n], most significant first, in front of [acc]. *)
Fixpoint digits (fuel : nat) (n : N) (acc : string) : string :=
  match fuel with
  | O => acc
  | S fuel =>
      if (n =? 0)%N then acc
      else digits fuel (n / 16) (String (JsonText.hex_digit (n mod 16)) acc)
  end.

(** [n.toString(16)] for an integer [n]. *)
Definition toString (z : Z) : string :=
  if z =? 0 then "0"%string
  else
    let n := Z.to_N (Z.abs z) in
    (if z <? 0 then "-" else "")
    +:+ digits (S (N.to_nat (N.log2 n))) n "".

(** [parseInt(s, 16)] for a string without sign, prefix or leading white
    space: the value of its longest prefix of hexadecimal digits; [None],
    that is [NaN], when the string does not start with one. *)
Fixpoint parse_from (acc : option Z) (s : string) : option Z :=
  match s with
  | EmptyString => acc
  | String c rest =>
      match JsonText.hex_value c with
      | Some d => parse_from (Some (16 * default 0 acc + Z.of_N d)) rest
      | None => acc
      end
  end.

Definition parseInt (s : string) : option Z := parse_from None s.

End Radix16.

(** The object [{ r, g, b }]. *)
Record Rgb := {
  rgb_r : Z;
  rgb_g : Z;
  rgb_b : Z
}.

(** [[a-f\d]] under [i] *)
Definition is_hex (c : ascii) : bool :=
  match JsonText.hex_value c with
  | Some _ => true
  | None => false
  end.

(** [/^#?([a-f\d]{2})([a-f\d]{2})([a-f\d]{2})$/i] *)
Definition hexRegex : RegExp.t :=
  let group := RegExp.Cat (RegExp.Class is_hex) (RegExp.Class is_hex) in
  RegExp.Cat (Optional (RegExp.Class (is_char "#")))
    (RegExp.Cat group (RegExp.Cat group group)).

(** [hexToRgb] (lines 466-473).  The three groups are the six characters
    after the optional [#]; being hexadecimal digits, they parse. *)
Definition hexToRgb (hex : string) : option Rgb :=
  if RegExp.test hexRegex hex then
    let digits := match hex with
                  | String "#" rest => rest
                  | _ => hex
                  end in
    match Radix16.parseInt (String.substring 0 2 digits),
          Radix16.parseInt (String.substring 2 2 digits),
          Radix16.parseInt (String.substring 4 2 digits) with
    | Some r, Some g, Some b => Some {| rgb_r := r; rgb_g := g; rgb_b := b |}
    | _, _, _ => None
    end
  else None.

(** [rgbToHex] (lines 475-477):
    ["#" + ((1 << 24) + (r << 16) + (g << 8) + b).toString(16).slice(1)] *)
Definition rgbToHex (r g b : Z) : string :=
  "#" +:+ Text.slice_from 1
            (Radix16.toString (Num.shl 1 24 + Num.shl r 16 + Num.shl g 8 + b)).

(* ===================================================================== *)
(** * src/utils/helpers.js: storage.clear; src/services/api.js: tokens, health *)
(* ===================================================================== *)

(** [localStorage.clear()] and [storage.clear] (lines 42-50) *)
Definition localStorage_clear (ls : LocalStorage) : LocalStorage :=
  {| items := ∅; accepts := accepts ls |}.

Definition storage_clear (ls : LocalStorage) : bool * LocalStorage :=
  (true, localStorage_clear ls).

Section Tokens.
Context `{JsonRuntime}.

(** [api.setAuthToken] (lines 349-357) *)
Definition setAuthToken (token : option json) (w : World) : World :=
  if truthy_opt token
  then storage_set STORAGE_KEYS.AUTH_TOKEN token
         (set_default_Authorization ("Bearer " +:+ ToString_opt token) w)
  else storage_remove STORAGE_KEYS.AUTH_TOKEN (delete_default_Authorization w).

(** [api.getAuthToken] (lines 360-362) *)
Definition getAuthToken (w : World) : json :=
  storage_get STORAGE_KEYS.AUTH_TOKEN w.

End Tokens.

(** What [api.health] resolves with: [{ healthy: true, status, data }] or
    [{ healthy: false, error }]. *)
Record Health := {
  healthy : bool;
  health_status : option Z;
  health_data : option json;
  health_error : option json
}.

(** [api.health] (lines 332-346) *)
Definition health (api : Config -> M Response) : M Health :=
  try_catch
    (response <- api (request GET "/health");;
     ret {| healthy := true; health_status := Some (res_status response);
            health_data := Some (res_data response); health_error := None |})
    (fun error =>
       ret {| healthy := false; health_status := None; health_data := None;
              health_error := err_message error |}).

(** The server's answer to a request, as the instance sends it from the
    page [w], is a status from 200 to 299. *)
Definition answered_2xx `{JsonRuntime} (env : Env) (config : Config) (w : World)
  : Prop :=
  exists status body latency,
    server env (wire w) (outgoing config w) = Answer status body latency
    /\ 200 <= status < 300.

(* ===================================================================== *)
(** * src/services/authService.js and src/contexts/AuthContext.jsx: login *)
(* ===================================================================== *)

(** The messages of [VALIDATION_RULES] (constants.js, lines 178-207). *)
Module VALIDATION_RULES.
Definition email_required : string := "Email is required".
Definition email_pattern_message : string := "Please enter a valid email address".
Definition password_required : string := "Password is required".
Definition password_minLength_message : string :=
  "Password must be at least 8 characters".
Definition name_required : string := "Name is required".
Definition name_minLength_value : nat := 2.
Definition name_minLength_message : string :=
  "Name must be at least 2 characters".
End VALIDATION_RULES.

(** The [credentials] argument: each property is a string or absent. *)
Record Credentials := {
  cred_email : option string;
  cred_password : option string
}.

(** The [errors] object of [authService.login] (lines 18-28). *)
Definition login_errors (credentials : Credentials) : list (string * json) :=
  (if adminService.blank (cred_email credentials)
   then [("email"%string, JStr VALIDATION_RULES.email_required)]
   else if negb (isValidEmail (adminService.text (cred_email credentials)))
        then [("email"%string, JStr VALIDATION_RULES.email_pattern_message)]
        else [])
  ++ (if adminService.blank (cred_password credentials)
      then [("password"%string, JStr VALIDATION_RULES.password_required)]
      else []).

(** The request [authService.login] sends. *)
Definition login_request (credentials : Credentials) : Config :=
  {| method := Some POST; url := Some "/auth/login"%string; params := None;
     data :=
       Some (JObj [("email"%string,
                    JStr (Str.trim (Str.toLowerCase
                                      (adminService.text (cred_email credentials)))));
                   ("password"%string,
                    JStr (adminService.text (cred_password credentials)))]);
     headers := ∅; _retry := false; useCache := None; cacheDuration := None;
     metadata := None |}.

(** [throw { response: { status: 401, data: { message } } }] *)
Definition invalidCredentials : JsError :=
  {| err_name := None;
     err_response :=
       Some {| res_status := 401;
               res_data :=
                 JObj [("message"%string,
                        JStr "Invalid email or password. Please check your credentials and try again.")];
               res_config := None; res_responseTime := None |};
     err_request := false; err_code := None; err_message := None;
     err_config := None; err_status := None; err_type := None;
     err_validationErrors := None |}.

(** [authService.login] (lines 14-65) *)
Definition authService_login (api : Config -> M Response)
    (credentials : Credentials) : M ServiceResult :=
  let errors := login_errors credentials in
  if (0 <? length errors)%nat
  then throw (adminService.validationError errors)
  else
    try_catch
      (response <- api (login_request credentials);;
       ret {| success := true; sr_data := res_data response;
              sr_message := Some "Login successful"%string |})
      (fun error =>
         if AuthContext.is_401 error then throw invalidCredentials
         else throw error).

(** What [login] of the AuthProvider resolves with:
    [{ success: true, user, message }] or [{ success: false, error, status }]. *)
Record LoginResult := {
  login_success : bool;
  login_user : option json;
  login_error : option json;
  login_status : option Z
}.

(** [login] of the AuthProvider (lines 87-122).  [setUser(undefined)] is
    followed at once by the read of [userData.email], which throws. *)
Definition AuthContext_login `{JsonRuntime} (api : Config -> M Response)
    (credentials : Credentials) : M LoginResult :=
  try_catch
    (exec (setLoading true);;;
     response <- authService_login api credentials;;
     match sr_data response with
     | JNull => throw (TypeError "Cannot destructure property 'user' of 'response.data'")
     | body =>
         let userData := get_field "user" body in
         let token := get_field "token" body in
         exec (storage_set STORAGE_KEYS.AUTH_TOKEN token);;;
         exec (set_default_Authorization ("Bearer " +:+ ToString_opt token));;;
         exec (setUser (default JNull userData));;;
         (match userData with
          | None | Some JNull =>
              throw (TypeError "Cannot read properties of undefined (reading 'email')")
          | Some _ => ret tt
          end);;;
         exec (setLoading false);;;
         ret {| login_success := true; login_user := userData;
                login_error := None; login_status := None |}
     end)
    (fun error =>
       let processedError := handleApiError error in
       AuthContext.logout api;;;
       ret {| login_success := false; login_user := None;
              login_error := err_message processedError;
              login_status := err_status processedError |}).

(* ===================================================================== *)
(** * Roles and permissions: AuthContext.jsx and ProtectedRoute.jsx *)
(* ===================================================================== *)

(** What a synchronous function does: it returns or it throws. *)
Inductive Completion (A : Type) :=
| Returns (a : A)
| Throws (e : JsError).
Arguments Returns {A} a.
Arguments Throws {A} e.

Module Access.

(** The table [rolePermissions] of [hasPermission] (lines 246-259). *)
Definition rolePermissions : list (string * list string) :=
  [("admin", ["manage_users"; "manage_roles"; "create_news"; "edit_news";
              "delete_news"; "upload_documents"; "delete_documents";
              "view_analytics"; "manage_system"]);
   ("editor", ["create_news"; "edit_news"; "delete_news"; "upload_documents";
               "delete_documents"]);
   ("user", ["view_news"; "download_documents"; "view_dashboard"])]%string.

(** The table is an object literal: a key it does not have is looked up in
    [Object.prototype], whose properties are these. *)
Definition Object_prototype : list string :=
  ["constructor"; "__defineGetter__"; "__defineSetter__"; "hasOwnProperty";
   "__lookupGetter__"; "__lookupSetter__"; "isPrototypeOf";
   "propertyIsEnumerable"; "toString"; "valueOf"; "__proto__";
   "toLocaleString"]%string.

Fixpoint own (key : string) (table : list (string * list string))
  : option (list string) :=
  match table with
  | [] => None
  | (k, v) :: rest => if String.eqb key k then Some v else own key rest
  end.

(** [user.role], when [!user || !user.role] is false. *)
Definition role_of (user : json) : option json :=
  if truthy user then
    match get_field "role" user with
    | Some role => if truthy role then Some role else None
    | None => None
    end
  else None.

(** [value === role] for a string [role]. *)
Definition is_string (role : string) (value : json) : bool :=
  match value with
  | JStr s => String.eqb s role
  | _ => false
  end.

(** [hasRole(role)] (lines 226-234), for a role and for an array of roles *)
Definition hasRole (user : json) (role : string) : bool :=
  match role_of user with
  | Some value => is_string role value
  | None => false
  end.

Definition hasRoles (user : json) (roles : list string) : bool :=
  match role_of user with
  | Some value => existsb (fun role => is_string role value) roles
  | None => false
  end.

(** [hasPermission(permission)] for a string (lines 237-268).  A role that
    is a property of [Object.prototype] finds a value without [includes]. *)
Definition hasPermission (user : json) (permission : string)
  : Completion bool :=
  match role_of user with
  | None => Returns false
  | Some value =>
      if is_string USER_ROLES.ADMIN value then Returns true
      else
        let key := ToString value in
        match own key rolePermissions with
        | Some userPermissions =>
            Returns (bool_decide (permission ∈ userPermissions))
        | None =>
            if bool_decide (key ∈ Object_prototype)
            then Throws (TypeError "userPermissions.includes is not a function")
            else Returns false
        end
  end.

(** [isAdmin] and [canEdit] (lines 271-278) *)
Definition isAdmin (user : json) : bool := hasRole user USER_ROLES.ADMIN.
Definition canEdit (user : json) : bool :=
  hasRoles user [USER_ROLES.ADMIN; USER_ROLES.EDITOR].

(** [permissions.some(permission => hasPermission(permission))] *)
Fixpoint some_permission (user : json) (permissions : list string)
  : Completion bool :=
  match permissions with
  | [] => Returns false
  | permission :: rest =>
      match hasPermission user permission with
      | Returns true => Returns true
      | Returns false => some_permission user rest
      | Throws e => Throws e
      end
  end.

End Access.

(** What [ProtectedRoute] renders. *)
Inductive Rendered :=
| LoadingScreen
| Navigate (to : string)
| AccessDeniedScreen
| Children.

Record RouteProps := {
  requiredRoles : list string;
  requiredPermissions : list string;
  fallbackUrl : string;
  showAccessDenied : bool
}.

(** [ProtectedRoute] (ProtectedRoute.jsx, lines 9-68), given the [loading]
    and the [user] of the auth context. *)
Definition ProtectedRoute (props : RouteProps) (loading : bool) (user : json)
  : Completion Rendered :=
  let denied :=
    if showAccessDenied props then AccessDeniedScreen else Navigate "/dashboard" in
  if loading then Returns LoadingScreen
  else if negb (truthy user) then Returns (Navigate (fallbackUrl props))
  else if (0 <? length (requiredRoles props))%nat
          && negb (existsb (Access.hasRole user) (requiredRoles props))
  then Returns denied
  else if (0 <? length (requiredPermissions props))%nat then
    match Access.some_permission user (requiredPermissions props) with
    | Returns true => Returns Children
    | Returns false => Returns denied
    | Throws e => Throws e
    end
  else Returns Children.

(** The permissions the table gives to a role. *)
Definition permissions_of (role : string) : list string :=
  default [] (Access.own role Access.rolePermissions).

(** The first page of the news as [server_ok] answers it to an empty
    browser, and the page when the answer has arrived. *)
Definition news_request : Config :=
  outgoing (H := reference_runtime) (Api.spread GET "/news" None news_page_1)
    (world_with (roomy ∅)).

Definition news_response : Response :=
  {| res_status := 200; res_data := JObj []; res_config := Some news_request;
     res_responseTime := Some 20 |}.

Definition news_arrived : World :=
  record (Sent news_request) (set_clock 20 (world_with (roomy ∅))).

(* ===================================================================== *)
(** * hooks/useApi: useApi, useOptimisticUpdate, useInfiniteScroll *)
(* ===================================================================== *)

(** [useApi] (LoadingScreen.jsx, lines 306-460).  The function fetched
    with is a promise on the page.  The performance tracking is left out,
    and so is the [AbortController]: a request that was aborted shows as
    the error named [AbortError] that the function rejects with. *)
Module useApi.

Record Options := {
  retryAttempts : option Z;
  retryDelay : option Z;
  cacheKey : option string;
  cacheDuration : option Z;
  onSuccess : option (json -> World -> World);
  onError : option (JsError -> World -> World)
}.

(** The state variables and the [cacheRef] map of the hook; [attempts] is
    the history of the calls of [setAttempt], oldest first. *)
Record State := {
  data : json;
  loading : bool;
  error : option JsError;
  attempt : Z;
  cacheRef : gmap string (json * Z);
  attempts : list Z
}.

Definition setData (v : json) (st : State) : State :=
  {| data := v; loading := loading st; error := error st;
     attempt := attempt st; cacheRef := cacheRef st; attempts := attempts st |}.

Definition setLoading (b : bool) (st : State) : State :=
  {| data := data st; loading := b; error := error st;
     attempt := attempt st; cacheRef := cacheRef st; attempts := attempts st |}.

Definition setError (e : option JsError) (st : State) : State :=
  {| data := data st; loading := loading st; error := e;
     attempt := attempt st; cacheRef := cacheRef st; attempts := attempts st |}.

Definition setAttempt (i : Z) (st : State) : State :=
  {| data := data st; loading := loading st; error := error st;
     attempt := i; cacheRef := cacheRef st; attempts := attempts st ++ [i] |}.

(** [useState(null)], [useState(immediate)], [useRef(new Map())] *)
Definition init (immediate : bool) : State :=
  {| data := JNull; loading := immediate; error := None; attempt := 0;
     cacheRef := ∅; attempts := [] |}.

(** [options = {}] *)
Definition defaults : Options :=
  {| retryAttempts := None; retryDelay := None; cacheKey := None;
     cacheDuration := None; onSuccess := None; onError := None |}.

(** [{ cacheKey: 'news' }] *)
Definition keyed : Options :=
  {| retryAttempts := None; retryDelay := None; cacheKey := Some "news"%string;
     cacheDuration := None; onSuccess := None; onError := None |}.

(** [err.name === 'AbortError'] *)
Definition aborted (err : JsError) : bool :=
  match err_name err with
  | Some name => String.eqb name "AbortError"
  | None => false
  end.


Section Hook.
Context (apiFunction : M json) (options : Options).


Definition retries : Z := default 3 (retryAttempts options).
Definition delay : Z := default 1000 (retryDelay options).
Definition duration : Z := default (5 * 60 * 1000) (cacheDuration options).

(** [if (cacheKey)] *)
Definition key : option string :=
  match cacheKey options with
  | Some k => if String.eqb k "" then None else Some k
  | None => None
  end.

(** [getCachedData] (lines 327-333); [JNull] is [null]. *)
Definition getCachedData (k : string) (st : State) (now : Z) : json :=
  match cacheRef st !! k with
  | Some (cached, timestamp) =>
      if now - timestamp <? duration then cached else JNull
  | None => JNull
  end.

(** [setCachedData] (lines 335-340) *)
Definition setCachedData (k : string) (v : json) (now : Z) (st : State) : State :=
  {| data := data st; loading := loading st; error := error st;
     attempt := attempt st; cacheRef := <[k := (v, now)]> (cacheRef st);
     attempts := attempts st |}.

(** A fulfilled attempt (lines 378-393) *)
Definition succeeded (result : json) (st : State) (w : World)
  : Settled json * State * World :=
  let st := setAttempt 0 (setError None (setLoading false (setData result st))) in
  let st := match key with
            | Some k => setCachedData k result (clock w) st
            | None => st
            end in
  let w := match onSuccess options with
           | Some f => f result w
           | None => w
           end in
  (Resolved result, st, w).

(** After the loop (lines 413-424); [handleApiError(null)] throws. *)
Definition failed (lastError : option JsError) (st : State) (w : World)
  : Settled json * State * World :=
  match lastError with
  | None =>
      (Rejected (TypeError "Cannot read properties of null (reading 'response')"),
       st, w)
  | Some lastError =>
      let processedError := handleApiError lastError in
      let st := setAttempt 0 (setLoading false (setError (Some processedError) st)) in
      let w := match onError options with
               | Some f => f processedError w
               | None => w
               end in
      (Rejected processedError, st, w)
  end.

(** The loop [for (let i = 0; i <= retryAttempts; i++)] (lines 367-411),
    from [i] on, with [n] iterations to go.  An [AbortError] breaks out of
    it (lines 397-400), to the code after the loop. *)
Fixpoint loop (n : nat) (i : nat) (lastError : option JsError) (st : State)
    (w : World) : Settled json * State * World :=
  match n with
  | O => failed lastError st w
  | S n =>
      let st := setAttempt (Z.of_nat i) st in
      match apiFunction w with
      | (Resolved result, w) => succeeded result st w
      | (Rejected err, w) =>
          if aborted err then failed (Some err) st w
          else
            let w := if Z.of_nat i <? retries
                     then slept (delay * 2 ^ Z.of_nat i) w else w in
            loop n (S i) (Some err) st w
      | (Pending, w) => (Pending, st, w)
      end
  end.

(** What the cache of the hook has for the call (lines 352-353): [null]
    without a [cacheKey]. *)
Definition cachedData (st : State) (now : Z) : json :=
  match key with
  | Some k => getCachedData k st now
  | None => JNull
  end.

(** [fetchData] (lines 343-425) *)
Definition fetchData (st : State) (w : World) : Settled json * State * World :=
  let cachedData := cachedData st (clock w) in
  if truthy cachedData
  then (Resolved cachedData,
        setError None (setLoading false (setData cachedData st)), w)
  else loop (Z.to_nat (retries + 1)) 0 None
            (setError None (setLoading true st)) w.

End Hook.

(** What a service function is fulfilled with, as a value. *)
Definition value (r : ServiceResult) : json :=
  JObj ([("success"%string, JBool (success r));
         ("data"%string, sr_data r)]
        ++ match sr_message r with
           | Some m => [("message"%string, JStr m)]
           | None => []
           end).



End useApi.

(** [useInfiniteScroll] (LoadingScreen.jsx, lines 609-710).  What the
    function is fulfilled with is an object whose [data] is an array or is
    missing; the [IntersectionObserver] is the caller of [loadMore] and is
    not modelled. *)
Module useInfiniteScroll.

Record Options := {
  pageSize : option Z;
  enabled : option bool
}.

Definition defaults : Options := {| pageSize := None; enabled := None |}.

(** [{ pageSize: 2 }] *)
Definition pairs : Options := {| pageSize := Some 2; enabled := None |}.

Record Fetched := { data : option (list json) }.

Record State := {
  items : list json;
  page : Z;
  hasMore : bool;
  loading : bool;
  error : option JsError;
  loadingRef : bool
}.

Definition init : State :=
  {| items := []; page := 1; hasMore := true; loading := false;
     error := None; loadingRef := false |}.

Section Hook.
Context (apiFunction : Z -> Z -> M Fetched) (options : Options).

Definition size : Z := default 10 (pageSize options).
Definition on : bool := default true (enabled options).

(** The [finally] block *)
Definition settle (st : State) : State :=
  {| items := items st; page := page st; hasMore := hasMore st;
     loading := false; error := error st; loadingRef := false |}.

(** [loadMore] (lines 625-653), called in the render whose state is
    [st]. *)
Definition loadMore (st : State) (w : World) : Settled unit * State * World :=
  if loadingRef st || negb (hasMore st) || negb on then (Resolved tt, st, w)
  else
    let st := {| items := items st; page := page st; hasMore := hasMore st;
                 loading := true; error := None; loadingRef := true |} in
    match apiFunction (page st) size w with
    | (Resolved response, w) =>
        let newItems := default [] (data response) in
        let short := (Z.of_nat (length newItems) =? 0)
                     || (Z.of_nat (length newItems) <? size) in
        (Resolved tt,
         settle {| items := items st ++ newItems; page := page st + 1;
                   hasMore := if short then false else hasMore st;
                   loading := loading st; error := error st;
                   loadingRef := loadingRef st |},
         w)
    | (Rejected err, w) =>
        (Resolved tt,
         settle {| items := items st; page := page st; hasMore := hasMore st;
                   loading := loading st; error := Some (handleApiError err);
                   loadingRef := loadingRef st |},
         w)
    | (Pending, w) => (Pending, st, w)
    end.

(** [loadMore] called [n] times, each time in the render that follows the
    call before. *)
Fixpoint loads (n : nat) (st : State) (w : World)
  : Settled unit * State * World :=
  match n with
  | O => (Resolved tt, st, w)
  | S n =>
      match loadMore st w with
      | (Resolved _, st, w) => loads n st w
      | other => other
      end
  end.

End Hook.

(** A server that holds the list [all] and answers with page [page] of
    it. *)
Definition page_of (all : list json) (page per_page : Z) : list json :=
  take (Z.to_nat per_page) (drop (Z.to_nat ((page - 1) * per_page)) all).

Definition serves (all : list json) (apiFunction : Z -> Z -> M Fetched) : Prop :=
  forall (page per_page : Z) (w : World),
    exists w', apiFunction page per_page w
               = (Resolved {| data := Some (page_of all page per_page) |}, w').

(** The state after [k] pages of [all] were asked for. *)
Definition scrolled (options : Options) (all : list json) (k : nat)
    (st : State) : Prop :=
  loading st = false
  /\ loadingRef st = false
  /\ error st = None
  /\ items st = take (k * Z.to_nat (size options)) all
  /\ hasMore st = bool_decide (k * Z.to_nat (size options) <= length all)%nat
  /\ (hasMore st = true -> page st = Z.of_nat k + 1).

(** The server as a function of the page. *)
Definition paged (all : list json) (page per_page : Z) : M Fetched :=
  ret {| data := Some (page_of all page per_page) |}.

End useInfiniteScroll.

(** [useOptimisticUpdate] (LoadingScreen.jsx, lines 720-778); the two
    callbacks act on the page's state. *)
Module useOptimisticUpdate.

Record Options := {
  onSuccess : option (json -> World -> World);
  onError : option (JsError -> World -> World);
  rollbackOnError : option bool
}.

Definition defaults : Options :=
  {| onSuccess := None; onError := None; rollbackOnError := None |}.

Record State := {
  data : json;
  loading : bool;
  error : option JsError;
  previousDataRef : json
}.

Definition init : State :=
  {| data := JNull; loading := false; error := None; previousDataRef := JNull |}.

Section Hook.
Context {A : Type} (apiFunction : A -> M json) (options : Options).

Definition rollback : bool := default true (rollbackOnError options).

(** [mutate] (lines 733-769), called in the render whose state is [st]. *)
Definition mutate (optimisticData : json) (actualUpdateFn : A) (st : State)
    (w : World) : Settled unit * State * World :=
  let st := {| data := optimisticData; loading := true; error := None;
               previousDataRef := data st |} in
  match apiFunction actualUpdateFn w with
  | (Resolved result, w) =>
      (Resolved tt,
       {| data := result; loading := false; error := error st;
          previousDataRef := previousDataRef st |},
       match onSuccess options with
       | Some f => f result w
       | None => w
       end)
  | (Rejected err, w) =>
      let processedError := handleApiError err in
      (Rejected processedError,
       {| data := if rollback then previousDataRef st else data st;
          loading := false; error := Some processedError;
          previousDataRef := previousDataRef st |},
       match onError options with
       | Some f => f processedError w
       | None => w
       end)
  | (Pending, w) => (Pending, st, w)
  end.

(** One [mutate] after the other, each in the render that follows the
    settling of the one before; it ends at a call that never settles. *)
Fixpoint mutations (calls : list (json * A)) (st : State) (w : World)
  : State * World :=
  match calls with
  | [] => (st, w)
  | (optimisticData, actualUpdateFn) :: calls =>
      match mutate optimisticData actualUpdateFn st w with
      | (Pending, st, w) => (st, w)
      | (_, st, w) => mutations calls st w
      end
  end.

End Hook.
End useOptimisticUpdate.


(* ===================================================================== *)
(** * Properties of the JSON writer and reader *)
(* ===================================================================== *)

(** Concatenation of strings. *)
Module StrFacts.

Lemma append_cons (x : ascii) (a b : string) :
  String x a +:+ b = String x (a +:+ b).
Proof. reflexivity. Qed.

Lemma append_nil (b : string) : "" +:+ b = b.
Proof. reflexivity. Qed.

Lemma append_nil_r (a : string) : a +:+ "" = a.
Proof.
  induction a as [| x a IH]; [reflexivity |].
  by rewrite append_cons, IH.
Qed.

Lemma append_assoc (a b c : string) : (a +:+ b) +:+ c = a +:+ (b +:+ c).
Proof.
  induction a as [| x a IH]; [reflexivity |].
  by rewrite !append_cons, IH.
Qed.

Lemma length_append (a b : string) :
  String.length (a +:+ b) = (String.length a + String.length b)%nat.
Proof.
  induction a as [| x a IH]; [reflexivity |].
  rewrite append_cons. cbn. by rewrite IH.
Qed.

End StrFacts.

Module JsonTextFacts.
Import JsonText StrFacts.

(** ** String literals *)

Lemma read_chars_escape_char (c : ascii) (tail : string) :
  read_chars (escape_char c +:+ tail) =
  match read_chars tail with
  | Some (str, rest) => Some (String c str, rest)
  | None => None
  end.
Proof. destruct c as [[] [] [] [] [] [] [] []]; reflexivity. Qed.

Lemma read_chars_escape (s rest : string) :
  read_chars (escape s +:+ String dquote rest) = Some (s, rest).
Proof.
  induction s as [| c s IH]; [reflexivity |].
  cbn [escape]. rewrite append_assoc, read_chars_escape_char, IH.
  reflexivity.
Qed.

Lemma read_chars_quote (s rest : string) :
  exists tail, quote s +:+ rest = String dquote tail
               /\ read_chars tail = Some (s, rest).
Proof.
  exists (escape s +:+ String dquote rest). split.
  - unfold quote. rewrite append_cons, append_assoc. reflexivity.
  - apply read_chars_escape.
Qed.

(** ** Numbers *)

Lemma span_number_app (num rest : string) :
  all_numchars num -> ends_number rest ->
  span_number (num +:+ rest) = (num, rest).
Proof.
  unfold all_numchars. revert rest.
  induction num as [| c num IH]; intros rest Hnum Hrest.
  - rewrite append_nil.
    destruct rest as [| c rest]; [reflexivity |]. cbn in *. by rewrite Hrest.
  - rewrite append_cons. cbn. cbn in Hnum.
    destruct (is_numchar c); [| discriminate].
    destruct (span_number num) as [n r] eqn:E.
    injection Hnum as -> ->. by rewrite (IH rest eq_refl Hrest).
Qed.

Lemma uint_all_numchars (d : Decimal.uint) :
  all_numchars (NilEmpty.string_of_uint d).
Proof.
  unfold all_numchars.
  induction d; cbn; try reflexivity; rewrite IHd; reflexivity.
Qed.

Lemma string_of_Z_numchars (n : Z) : all_numchars (string_of_Z n).
Proof.
  unfold string_of_Z, NilZero.string_of_int, NilZero.string_of_uint.
  destruct (Z.to_int n) as [d | d]; destruct d;
    try apply uint_all_numchars; try reflexivity;
    unfold all_numchars; cbn;
    match goal with
    | |- context [NilEmpty.string_of_uint ?d] =>
        pose proof (uint_all_numchars d) as Hd; unfold all_numchars in Hd;
        rewrite Hd
    end; reflexivity.
Qed.

Lemma int_of_string_of_Z (n : Z) :
  NilZero.int_of_string (string_of_Z n) = Some (Z.to_int n).
Proof.
  unfold string_of_Z. apply NilZero.isi.
  - destruct n; cbn; try discriminate.
    intros [= E]. by apply DecimalPos.Unsigned.to_uint_nonnil in E.
  - destruct n; cbn; try discriminate.
    intros [= E]. by apply DecimalPos.Unsigned.to_uint_nonnil in E.
Qed.

Lemma read_number_text (n : Z) (rest : string) :
  ends_number rest ->
  read_number (string_of_Z n +:+ rest) = Some (JNum n, rest).
Proof.
  intros Hrest. unfold read_number.
  rewrite span_number_app by (apply string_of_Z_numchars || done).
  by rewrite int_of_string_of_Z, DecimalZ.of_to.
Qed.

Lemma string_of_Z_head (n : Z) :
  exists c tail, string_of_Z n = String c tail /\ is_numchar c = true.
Proof.
  pose proof (string_of_Z_numchars n) as Hall.
  pose proof (int_of_string_of_Z n) as Hint.
  destruct (string_of_Z n) as [| c tail]; [discriminate |].
  exists c, tail. split; [reflexivity |].
  unfold all_numchars in Hall. cbn in Hall.
  destruct (is_numchar c); [reflexivity | discriminate].
Qed.

Lemma read_value_number (fuel : nat) (c : ascii) (tail : string) :
  is_numchar c = true ->
  read_value (S fuel) (String c tail) = read_number (String c tail).
Proof.
  destruct c as [[] [] [] [] [] [] [] []]; intros Hc;
    try discriminate Hc; reflexivity.
Qed.

Lemma numchar_not_closing (c : ascii) :
  is_numchar c = true -> Ascii.eqb "]" c = false /\ Ascii.eqb "}" c = false.
Proof.
  destruct c as [[] [] [] [] [] [] [] []]; intros Hc;
    try discriminate Hc; split; reflexivity.
Qed.

(** ** Values *)

(** The first character of a text tells what follows and is no closing
    bracket. *)
Lemma stringify_head (v : json) :
  exists c tail, stringify v = String c tail
                 /\ Ascii.eqb "]" c = false /\ Ascii.eqb "}" c = false.
Proof.
  destruct v as [| [] | n | s | items | fields];
    try (eexists _, _; split; [reflexivity | split; reflexivity]).
  destruct (string_of_Z_head n) as (c & tail & E & Hc).
  exists c, tail. split; [exact E | by apply numchar_not_closing].
Qed.

Lemma read_value_array (fuel : nat) (c : ascii) (tail : string) :
  Ascii.eqb "]" c = false ->
  read_value (S fuel) (String "[" (String c tail)) =
  match read_elems fuel (String c tail) with
  | Some (items, rest) => Some (JArr items, rest)
  | None => None
  end.
Proof.
  destruct c as [[] [] [] [] [] [] [] []]; intros Hc;
    try discriminate Hc; reflexivity.
Qed.

Lemma read_value_object (fuel : nat) (tail : string) :
  read_value (S fuel) (String "{" (String dquote tail)) =
  match read_members fuel (String dquote tail) with
  | Some (fields, rest) => Some (JObj fields, rest)
  | None => None
  end.
Proof. reflexivity. Qed.

Lemma read_elems_text (items : list json) :
  Forall reads_back items -> items <> [] ->
  forall fuel rest,
    (elems_weight items <= fuel)%nat ->
    read_elems fuel (elems_with stringify items +:+ rest) = Some (items, rest).
Proof.
  induction 1 as [| x items Hx _ IH]; [done |]. intros _ fuel rest Hfuel.
  unfold elems_weight in Hfuel. cbn in Hfuel.
  destruct fuel as [| fuel]; [lia |].
  cbn [elems_with]. rewrite append_assoc.
  destruct items as [| y items].
  - cbn [read_elems]. rewrite Hx; [reflexivity | lia | reflexivity].
  - cbn [read_elems]. rewrite append_assoc, append_cons, append_nil.
    rewrite Hx; [| lia | reflexivity].
    cbn -[read_elems]. rewrite IH; [reflexivity | done |].
    unfold elems_weight. cbn in *. lia.
Qed.

Lemma read_members_text (fields : list (string * json)) :
  Forall (fun kv => reads_back (snd kv)) fields -> fields <> [] ->
  forall fuel rest,
    (members_weight fields <= fuel)%nat ->
    read_members fuel (members_with stringify fields +:+ rest)
    = Some (fields, rest).
Proof.
  induction 1 as [| [k x] fields Hx _ IH]; [done |]. intros _ fuel rest Hfuel.
  unfold members_weight in Hfuel. cbn in Hfuel, Hx.
  destruct fuel as [| fuel]; [lia |].
  cbn [members_with]. rewrite !append_assoc.
  destruct (read_chars_quote k
              (":" +:+ stringify x +:+
               match fields with [] => "}" | _ :: _ => "," +:+ members_with stringify fields end +:+ rest))
    as (tail & -> & Hk).
  cbn [read_members strip]. cbn -[read_members read_value]. rewrite Hk.
  rewrite append_cons, append_nil. cbn [strip]. cbn -[read_members read_value].
  destruct fields as [| y fields].
  - rewrite Hx; [reflexivity | lia | reflexivity].
  - rewrite append_assoc, append_cons, append_nil.
    rewrite Hx; [| lia | reflexivity].
    cbn -[read_members]. rewrite IH; [reflexivity | done |].
    unfold members_weight. cbn in *. lia.
Qed.

Lemma read_value_stringify (v : json) : reads_back v.
Proof.
  induction v as [| b | n | s | items IH | fields IH] using json_induction;
    intros fuel rest Hfuel Hrest; cbn in Hfuel;
    (destruct fuel as [| fuel]; [lia |]).
  - reflexivity.
  - destruct b; reflexivity.
  - cbn [stringify].
    destruct (string_of_Z_head n) as (c & tail & E & Hc).
    pose proof (read_number_text n rest Hrest) as Hn.
    rewrite E, append_cons in *. by rewrite read_value_number.
  - cbn [stringify].
    destruct (read_chars_quote s rest) as (tail & -> & Hs).
    cbn. by rewrite Hs.
  - cbn [stringify]. rewrite append_assoc, append_cons, append_nil.
    destruct items as [| x items]; [reflexivity |].
    destruct (stringify_head x) as (c & tail & E & Hc & _).
    assert (exists tail', elems_with stringify (x :: items) +:+ rest
                          = String c tail') as [tail' E'].
    { cbn [elems_with]. rewrite E, !append_cons. eauto. }
    rewrite E', (read_value_array _ _ _ Hc), <- E'.
    rewrite read_elems_text; [reflexivity | done | done |].
    unfold elems_weight. lia.
  - cbn [stringify]. rewrite append_assoc, append_cons, append_nil.
    destruct fields as [| [k x] fields]; [reflexivity |].
    assert (exists tail', members_with stringify ((k, x) :: fields) +:+ rest
                          = String dquote tail') as [tail' E'].
    { cbn [members_with]. unfold quote at 1. rewrite !append_cons. eauto. }
    rewrite E', read_value_object, <- E'.
    rewrite read_members_text; [reflexivity | done | done |].
    unfold members_weight. lia.
Qed.

Lemma weight_le_length (v : json) :
  (weight v <= String.length (stringify v))%nat.
Proof.
  induction v as [| b | n | s | items IH | fields IH] using json_induction.
  - cbn. lia.
  - destruct b; cbn; lia.
  - destruct (string_of_Z_head n) as (c & tail & E & _).
    cbn [stringify weight]. rewrite E. cbn. lia.
  - cbn. lia.
  - cbn [stringify weight]. rewrite append_cons, append_nil. cbn [String.length].
    apply le_n_S.
    induction IH as [| x items Hx _ IHitems]; [cbn; lia |].
    cbn [elems_with map list_sum]. rewrite length_append.
    destruct items as [| y items]; [cbn; lia |].
    rewrite append_cons, append_nil. cbn [String.length].
    unfold list_sum in *. cbn [map fold_right] in *. lia.
  - cbn [stringify weight]. rewrite append_cons, append_nil. cbn [String.length].
    apply le_n_S.
    induction IH as [| [k x] fields Hx _ IHfields]; [cbn; lia |].
    cbn [members_with map list_sum]. rewrite !length_append.
    cbn [snd] in Hx. destruct fields as [| y fields]; [cbn; lia |].
    rewrite append_cons, append_nil. cbn [String.length].
    unfold list_sum in *. cbn [map fold_right] in *. lia.
Qed.

Lemma parse_stringify (v : json) : parse (stringify v) = Some v.
Proof.
  unfold parse.
  rewrite <- (append_nil_r (stringify v)) at 2.
  rewrite read_value_stringify; [reflexivity | | exact I].
  pose proof (weight_le_length v). lia.
Qed.

Lemma parse_empty : parse "" = None.
Proof. reflexivity. Qed.

End JsonTextFacts.

(** The writer and the reader meet the laws of the runtime. *)
Lemma reference_lawful : JsonLaws reference_runtime.
Proof.
  split.
  - exact JsonTextFacts.parse_stringify.
  - exact JsonTextFacts.parse_empty.
Qed.

(* ===================================================================== *)
(** * The storage wrapper *)
(* ===================================================================== *)

Section StorageFacts.
Context {J : JsonRuntime} {laws : JsonLaws J}.

Lemma JSON_stringify_nonempty (v : json) : JSON_stringify v <> ""%string.
Proof.
  intros E. pose proof (JSON_parse_stringify v) as Hv.
  rewrite E, JSON_parse_empty in Hv. discriminate.
Qed.

Lemma JSON_stringify_inj (v1 v2 : json) :
  JSON_stringify v1 = JSON_stringify v2 -> v1 = v2.
Proof.
  intros E. pose proof (JSON_parse_stringify v1) as H1.
  rewrite E, JSON_parse_stringify in H1. congruence.
Qed.

Lemma storage_get_stored (k : string) (v : json) (ls : LocalStorage) :
  localStorage.getItem k ls = Some (JSON_stringify v) -> storage.get k ls = v.
Proof.
  intros E. unfold storage.get. rewrite E.
  destruct (String.eqb_spec (JSON_stringify v) "") as [E0 | _].
  - by apply JSON_stringify_nonempty in E0.
  - by rewrite JSON_parse_stringify.
Qed.

Lemma storage_get_missing (k : string) (ls : LocalStorage) :
  localStorage.getItem k ls = None -> storage.get k ls = JNull.
Proof. intros E. unfold storage.get. by rewrite E. Qed.

Lemma storage_get_unparsable (k item : string) (ls : LocalStorage) :
  localStorage.getItem k ls = Some item -> JSON_parse item = None ->
  storage.get k ls = JNull.
Proof.
  intros E Hp. unfold storage.get. rewrite E, Hp.
  by destruct (String.eqb item "").
Qed.

Lemma storage_get_removed (k : string) (ls : LocalStorage) :
  storage.get k (snd (storage.remove k ls)) = JNull.
Proof.
  apply storage_get_missing. unfold localStorage.getItem. cbn.
  apply lookup_delete_eq.
Qed.

Lemma storage_set_true (k : string) (v : option json) (ls ls' : LocalStorage) :
  storage.set k v ls = (true, ls') ->
  localStorage.getItem k ls' = Some (JSON_stringify_arg v).
Proof.
  unfold storage.set, localStorage.setItem, localStorage.getItem.
  destruct (accepts ls (items ls) k (JSON_stringify_arg v)); intros [= <-].
  cbn. apply lookup_insert_eq.
Qed.

Lemma storage_set_false (k : string) (v : option json) (ls ls' : LocalStorage) :
  storage.set k v ls = (false, ls') -> ls' = ls.
Proof.
  unfold storage.set.
  destruct (localStorage.setItem k (JSON_stringify_arg v) ls); by intros [= <-].
Qed.

(** [storage.set] answers what the browser decided about the write. *)
Lemma storage_set_accepted (k : string) (v : option json) (ls : LocalStorage) :
  accepts ls (items ls) k (JSON_stringify_arg v) = true ->
  storage.set k v ls
  = (true, {| items := <[k := JSON_stringify_arg v]> (items ls);
              accepts := accepts ls |}).
Proof.
  intros Hok. unfold storage.set, localStorage.setItem. by rewrite Hok.
Qed.

Lemma storage_set_refused (k : string) (v : option json) (ls : LocalStorage) :
  accepts ls (items ls) k (JSON_stringify_arg v) = false ->
  storage.set k v ls = (false, ls).
Proof.
  intros Hno. unfold storage.set, localStorage.setItem. by rewrite Hno.
Qed.

End StorageFacts.

(** C10, as amended.  The storage wrapper never throws (its three functions
    are total) and round-trips JSON values through a write that the browser
    took.  When the browser takes the write, [storage.set(k, v)] returns
    [true], the store holds the text of [v] under [k], and [storage.get(k)]
    returns [v]; whenever [storage.set(k, v)] returns [true],
    [storage.get(k)] returns [v].  When the browser refuses the write (the
    quota is used up), [storage.set] returns [false] and the store is as it
    was; whenever it returns [false] the store is as it was.  [storage.get]
    returns [null] for a missing key and for an entry that does not parse,
    and [storage.get(k)] after [storage.remove(k)] returns [null]. *)
Theorem storage_round_trip {J : JsonRuntime} {laws : JsonLaws J} :
  (forall k v ls,
      accepts ls (items ls) k (JSON_stringify v) = true ->
      exists ls',
        storage.set k (Some v) ls = (true, ls')
        /\ localStorage.getItem k ls' = Some (JSON_stringify v)
        /\ storage.get k ls' = v)
  /\ (forall k v ls ls',
        storage.set k (Some v) ls = (true, ls') -> storage.get k ls' = v)
  /\ (forall k v ls,
        accepts ls (items ls) k (JSON_stringify_arg v) = false ->
        storage.set k v ls = (false, ls))
  /\ (forall k v ls ls', storage.set k v ls = (false, ls') -> ls' = ls)
  /\ (forall k ls,
        localStorage.getItem k ls = None -> storage.get k ls = JNull)
  /\ (forall k item ls,
        localStorage.getItem k ls = Some item -> JSON_parse item = None ->
        storage.get k ls = JNull)
  /\ (forall k ls, storage.get k (snd (storage.remove k ls)) = JNull).
Proof.
  split; [| split; [| split; [| split; [| split; [| split]]]]].
  - intros k v ls Hok. eexists. split.
    + apply (storage_set_accepted k (Some v) ls Hok).
    + assert (localStorage.getItem k
                {| items := <[k := JSON_stringify_arg (Some v)]> (items ls);
                   accepts := accepts ls |}
              = Some (JSON_stringify v)) as Hstored.
      { unfold localStorage.getItem. cbn. apply lookup_insert_eq. }
      split; [exact Hstored | by apply storage_get_stored].
  - intros k v ls ls' Hset. apply storage_get_stored.
    by apply storage_set_true in Hset.
  - apply storage_set_refused.
  - apply storage_set_false.
  - apply storage_get_missing.
  - apply storage_get_unparsable.
  - apply storage_get_removed.
Qed.

(** The round trip on a store that takes the write, the refused write, the
    missing key and the entry "undefined", which is no JSON text. *)
Lemma storage_round_trip_witness :
  (exists ls',
      storage.set (H := reference_runtime) "k"
        (Some (JObj [("a"%string, JNum 1)])) (roomy ∅) = (true, ls')
      /\ localStorage.getItem "k" ls'
         = Some (JsonText.stringify (JObj [("a"%string, JNum 1)]))
      /\ storage.get (H := reference_runtime) "k" ls'
         = JObj [("a"%string, JNum 1)])
  /\ storage.set (H := reference_runtime) "k" (Some JNull) (full ∅)
     = (false, full ∅)
  /\ storage.get (H := reference_runtime) "k" (roomy ∅) = JNull
  /\ storage.get (H := reference_runtime) "k"
       (roomy {["k"%string := "undefined"%string]}) = JNull.
Proof.
  destruct (storage_round_trip (laws := reference_lawful))
    as (Haccepted & _ & Hrefused & _ & Hmissing & Hunparsable & _).
  split; [| split; [| split]].
  - apply (Haccepted "k"%string (JObj [("a"%string, JNum 1)]) (roomy ∅)).
    reflexivity.
  - apply (Hrefused "k"%string (Some JNull) (full ∅)). reflexivity.
  - apply Hmissing. reflexivity.
  - apply (Hunparsable "k"%string "undefined"%string); reflexivity.
Defined.

(** C10 as stated fails: a write that the browser refuses (the quota is
    used up) makes [storage.set] return [false], and [storage.get] then
    returns [null], not the value. *)
Lemma storage_round_trip_refused_write :
  ~ (forall (J : JsonRuntime) (laws : JsonLaws J) (k : string) (v : json)
            (ls : LocalStorage),
        storage.get k (snd (storage.set k (Some v) ls)) = v).
Proof.
  intros Hclaim.
  specialize (Hclaim reference_runtime reference_lawful "k"%string (JNum 1)
                (full ∅)).
  vm_compute in Hclaim. discriminate.
Qed.

(* ===================================================================== *)
(** * The request interceptor *)
(* ===================================================================== *)

(** C4.  When a token (a non-empty string) is stored under
    [insbu_auth_token], the request interceptor sets the [Authorization]
    header to ["Bearer "] followed by the token; when nothing is stored
    under that key the interceptor leaves the headers of the request as
    they are, so that an unset [Authorization] stays unset.  It never
    rejects and changes nothing else in the page. *)
Theorem requestInterceptor_bearer {J : JsonRuntime} {laws : JsonLaws J}
    (config : Config) (w : World) :
  (forall token : string,
      token <> ""%string ->
      localStorage.getItem STORAGE_KEYS.AUTH_TOKEN (storage_area w)
      = Some (JSON_stringify (JStr token)) ->
      exists config',
        Api.requestInterceptor config w = (Resolved config', w)
        /\ headers config' !! "Authorization"%string
           = Some ("Bearer " +:+ token))
  /\ (localStorage.getItem STORAGE_KEYS.AUTH_TOKEN (storage_area w) = None ->
      exists config',
        Api.requestInterceptor config w = (Resolved config', w)
        /\ headers config' = headers config).
Proof.
  split.
  - intros token Hne Hstored.
    unfold Api.requestInterceptor, bind, read, ret, storage_get.
    rewrite (storage_get_stored _ _ _ Hstored). cbn [truthy].
    destruct (String.eqb_spec token "") as [-> | _]; [done |]. cbn.
    eexists. split; [reflexivity |]. cbn. apply lookup_insert_eq.
  - intros Hnone.
    unfold Api.requestInterceptor, bind, read, ret, storage_get.
    rewrite (storage_get_missing _ _ Hnone). cbn.
    eexists. split; reflexivity.
Qed.

Lemma requestInterceptor_bearer_witness :
  (exists config',
      Api.requestInterceptor (H := reference_runtime) (request GET "/news")
        (world_with (roomy {["insbu_auth_token"%string := JsonText.stringify (JStr "abc")]}))
      = (Resolved config',
         world_with (roomy {["insbu_auth_token"%string := JsonText.stringify (JStr "abc")]}))
      /\ headers config' !! "Authorization"%string = Some "Bearer abc"%string)
  /\ (exists config',
        Api.requestInterceptor (H := reference_runtime) (request GET "/news")
          (world_with (roomy ∅))
        = (Resolved config', world_with (roomy ∅))
        /\ headers config' = ∅).
Proof.
  split.
  - apply (proj1 (requestInterceptor_bearer (laws := reference_lawful)
                    (request GET "/news")
                    (world_with (roomy {["insbu_auth_token"%string
                                         := JsonText.stringify (JStr "abc")]})))
             "abc"%string); [discriminate | reflexivity].
  - apply (proj2 (requestInterceptor_bearer (laws := reference_lawful)
                    (request GET "/news") (world_with (roomy ∅)))).
    reflexivity.
Defined.

(* ===================================================================== *)
(** * Regular expressions and the e-mail pattern *)
(* ===================================================================== *)

Section RegExpFacts.
Import RegExp StrFacts.

Lemma append_eq_nil (a b : string) : a +:+ b = ""%string -> a = ""%string /\ b = ""%string.
Proof.
  destruct a; [rewrite append_nil; by intros -> | rewrite append_cons; discriminate].
Qed.

Lemma nullable_Matches (r : t) : nullable r = true <-> Matches r "".
Proof.
  split.
  - induction r; cbn; intros Hn; try discriminate.
    + constructor.
    + apply andb_true_iff in Hn as [H1 H2].
      change ""%string with ("" +:+ "")%string. constructor; auto.
    + apply orb_true_iff in Hn as [H1 | H2]; [apply MAltL | apply MAltR]; auto.
    + constructor.
  - remember ""%string as s eqn:Es. induction 1; cbn; try done.
    + apply append_eq_nil in Es as [-> ->]. rewrite IHMatches1, IHMatches2; done.
    + by rewrite IHMatches.
    + rewrite IHMatches; [by rewrite orb_true_r | done].
Qed.

(** A match of [Star r] against a non-empty string starts with a non-empty
    match of [r]. *)
Lemma Matches_Star_cons (r : t) (c : ascii) (s : string) :
  Matches (Star r) (String c s) ->
  exists s1 s2, s = (s1 +:+ s2)%string
                /\ Matches r (String c s1) /\ Matches (Star r) s2.
Proof.
  remember (Star r) as r' eqn:Er. remember (String c s) as s' eqn:Es.
  intros Hm. revert r c s Er Es.
  induction Hm; intros r0 c0 s0 Er Es; try discriminate.
  injection Er as ->.
  destruct s1 as [| c1 s1].
  - rewrite append_nil in Es. by apply IHHm2.
  - rewrite append_cons in Es. injection Es as -> <-. eauto.
Qed.

Lemma deriv_Matches (r : t) (c : ascii) (s : string) :
  Matches (deriv c r) s <-> Matches r (String c s).
Proof.
  revert s. induction r as [| | p | r1 IH1 r2 IH2 | r1 IH1 r2 IH2 | r IH];
    intros s; cbn.
  - split; inversion 1.
  - split; inversion 1.
  - destruct (p c) eqn:Hp; split; inversion 1; subst.
    + by constructor.
    + constructor.
    + congruence.
  - assert (Matches (Cat (deriv c r1) r2) s <->
            exists s1 s2, s = (s1 +:+ s2)%string
                          /\ Matches r1 (String c s1) /\ Matches r2 s2) as Hcat.
    { split.
      - inversion 1 as [| | ? ? s1 s2 H1 H2 | | | |]; subst.
        apply IH1 in H1. eauto.
      - intros (s1 & s2 & -> & H1 & H2). constructor; [by apply IH1 | done]. }
    assert (Matches (Cat r1 r2) (String c s) <->
            (exists s1 s2, s = (s1 +:+ s2)%string
                           /\ Matches r1 (String c s1) /\ Matches r2 s2)
            \/ (Matches r1 "" /\ Matches r2 (String c s))) as Hsplit.
    { split.
      - inversion 1 as [| | ? ? s1 s2 H1 H2 | | | |]; subst.
        destruct s1 as [| c1 s1].
        + rewrite append_nil in *. subst. by right.
        + rewrite append_cons in *.
          match goal with E : String _ _ = String _ _ |- _ => injection E as -> <- end.
          left. eauto.
      - intros [(s1 & s2 & -> & H1 & H2) | [H1 H2]].
        + rewrite <- append_cons. by constructor.
        + rewrite <- (append_nil (String c s)). by constructor. }
    rewrite Hsplit.
    destruct (nullable r1) eqn:Hn.
    + split.
      * inversion 1 as [| | | ? ? ? H1 | ? ? ? H2 | |]; subst.
        -- left. by apply Hcat.
        -- right. split; [by apply nullable_Matches | by apply IH2].
      * intros [H | [H1 H2]].
        -- apply MAltL. by apply Hcat.
        -- apply MAltR. by apply IH2.
    + rewrite Hcat. split; [by left |].
      intros [H | [H1 _]]; [done |].
      apply nullable_Matches in H1. congruence.
  - split.
    + inversion 1; subst; [apply MAltL; by apply IH1 | apply MAltR; by apply IH2].
    + inversion 1; subst; [apply MAltL; by apply IH1 | apply MAltR; by apply IH2].
  - split.
    + inversion 1 as [| | ? ? s1 s2 H1 H2 | | | |]; subst.
      rewrite <- append_cons. constructor; [by apply IH | done].
    + intros Hm. apply Matches_Star_cons in Hm as (s1 & s2 & -> & H1 & H2).
      constructor; [by apply IH | done].
Qed.

(** [test] decides the match of the whole string. *)
Lemma test_Matches (r : t) (s : string) : test r s = true <-> Matches r s.
Proof.
  revert r. induction s as [| c s IH]; intros r; cbn.
  - apply nullable_Matches.
  - rewrite IH. apply deriv_Matches.
Qed.

End RegExpFacts.

Section EmailFacts.
Import RegExp StrFacts.

Lemma Matches_Class (p : ascii -> bool) (s : string) :
  Matches (Class p) s <-> exists c, s = String c "" /\ p c = true.
Proof.
  split.
  - inversion 1; subst. eauto.
  - intros (c & -> & Hc). by constructor.
Qed.

Lemma Matches_Cat (r1 r2 : t) (s : string) :
  Matches (Cat r1 r2) s
  <-> exists s1 s2, s = (s1 +:+ s2)%string /\ Matches r1 s1 /\ Matches r2 s2.
Proof.
  split.
  - inversion 1; subst. eauto.
  - intros (s1 & s2 & -> & H1 & H2). by constructor.
Qed.

Lemma Matches_Star_Class (p : ascii -> bool) (s : string) :
  Matches (Star (Class p)) s <-> all_in p s = true.
Proof.
  split.
  - remember (Star (Class p)) as r eqn:Er. induction 1; try discriminate.
    + reflexivity.
    + injection Er as ->. apply Matches_Class in H as (c & -> & Hc).
      rewrite append_cons, append_nil. cbn. rewrite Hc. by apply IHMatches2.
  - induction s as [| c s IH]; cbn; [constructor |].
    intros [Hc Hs]%andb_true_iff.
    change (String c s) with (String c "" +:+ s)%string.
    constructor; [by constructor | by apply IH].
Qed.

Lemma Matches_Plus_Class (p : ascii -> bool) (s : string) :
  Matches (Plus (Class p)) s <-> s <> ""%string /\ all_in p s = true.
Proof.
  unfold Plus. rewrite Matches_Cat. split.
  - intros (s1 & s2 & -> & (c & -> & Hc)%Matches_Class & H2%Matches_Star_Class).
    rewrite append_cons, append_nil. cbn. by rewrite Hc.
  - destruct s as [| c s]; [by intros [? _] |]. cbn.
    intros [_ [Hc Hs]%andb_true_iff].
    exists (String c ""), s. split; [reflexivity |].
    split; [by constructor | by apply Matches_Star_Class].
Qed.

Lemma Matches_AtLeast2_Class (p : ascii -> bool) (s : string) :
  Matches (AtLeast2 (Class p)) s
  <-> (2 <= String.length s)%nat /\ all_in p s = true.
Proof.
  unfold AtLeast2. rewrite Matches_Cat. split.
  - intros (s1 & s2 & -> & (c & -> & Hc)%Matches_Class &
            (s3 & s4 & -> & (c' & -> & Hc')%Matches_Class
               & H4%Matches_Star_Class)%Matches_Cat).
    rewrite !append_cons, !append_nil. cbn. rewrite Hc, Hc'. split; [lia | done].
  - destruct s as [| c [| c' s]]; cbn; [intros [? _]; lia | intros [? _]; lia |].
    intros [_ [Hc [Hc' Hs]%andb_true_iff]%andb_true_iff].
    exists (String c ""), (String c' s). split; [reflexivity |].
    split; [by constructor |]. apply Matches_Cat.
    exists (String c' ""), s. split; [reflexivity |].
    split; [by constructor | by apply Matches_Star_Class].
Qed.

(** The e-mail pattern, read out: a non-empty local part, an [@], a
    non-empty domain, a dot, and at least two letters. *)
Lemma isValidEmail_spec (email : string) :
  isValidEmail email = true
  <-> exists loc domain tld,
        email = (loc +:+ "@" +:+ domain +:+ "." +:+ tld)%string
        /\ loc <> ""%string /\ all_in local_char loc = true
        /\ domain <> ""%string /\ all_in domain_char domain = true
        /\ (2 <= String.length tld)%nat /\ all_in Str.is_letter tld = true.
Proof.
  unfold isValidEmail, emailRegex. rewrite test_Matches. split.
  - intros (loc & s1 & -> & [Hl1 Hl2]%Matches_Plus_Class
            & (at_ & s2 & -> & (c & -> & Hc)%Matches_Class
               & (domain & s3 & -> & [Hd1 Hd2]%Matches_Plus_Class
                  & (dot & tld & -> & (c' & -> & Hc')%Matches_Class
                     & [Ht1 Ht2]%Matches_AtLeast2_Class)%Matches_Cat
                 )%Matches_Cat)%Matches_Cat)%Matches_Cat.
    apply Ascii.eqb_eq in Hc, Hc'. subst c c'.
    exists loc, domain, tld. repeat split; done.
  - intros (loc & domain & tld & -> & Hl1 & Hl2 & Hd1 & Hd2 & Ht1 & Ht2).
    apply Matches_Cat. exists loc, ("@" +:+ domain +:+ "." +:+ tld)%string.
    split; [reflexivity |]. split; [by apply Matches_Plus_Class |].
    apply Matches_Cat. exists "@"%string, (domain +:+ "." +:+ tld)%string.
    split; [reflexivity |]. split; [by constructor |].
    apply Matches_Cat. exists domain, ("." +:+ tld)%string.
    split; [reflexivity |]. split; [by apply Matches_Plus_Class |].
    apply Matches_Cat. exists "."%string, tld.
    split; [reflexivity |]. split; [by constructor |].
    by apply Matches_AtLeast2_Class.
Qed.

End EmailFacts.

(* ===================================================================== *)
(** * adminService.createUser *)
(* ===================================================================== *)

Section CreateUserFacts.
Import adminService.

Lemma trim_empty : Str.trim "" = ""%string.
Proof. reflexivity. Qed.

Lemma isValidEmail_empty : isValidEmail "" = false.
Proof. reflexivity. Qed.

Lemma name_check (u : UserData) :
  blank (name u) || (String.length (Str.trim (text (name u))) <? 2)%nat = true
  <-> name_too_short u.
Proof.
  unfold name_too_short, blank, text.
  destruct (name u) as [n |]; cbn -[Nat.ltb Str.trim]; [| done].
  destruct (String.eqb_spec n "") as [-> | _]; cbn -[Nat.ltb Str.trim].
  - split; [intros _; cbn; lia | done].
  - apply Nat.ltb_lt.
Qed.

Lemma email_check (u : UserData) :
  (if blank (email u) then true else negb (isValidEmail (text (email u)))) = true
  <-> email_missing_or_malformed u.
Proof.
  unfold email_missing_or_malformed, blank, text.
  destruct (email u) as [e |]; cbn -[isValidEmail]; [| done].
  destruct (String.eqb_spec e "") as [-> | _]; [done |].
  by destruct (isValidEmail e).
Qed.

Lemma password_check (u : UserData) :
  blank (password u) || (String.length (text (password u)) <? 8)%nat = true
  <-> password_missing_or_short u.
Proof.
  unfold password_missing_or_short, blank, text.
  destruct (password u) as [p |]; cbn -[Nat.ltb]; [| done].
  destruct (String.eqb_spec p "") as [-> | _]; cbn -[Nat.ltb].
  - split; [intros _; cbn; lia | done].
  - apply Nat.ltb_lt.
Qed.

Lemma role_check (u : UserData) :
  negb (bool_decide (default USER_ROLES.USER (role u) ∈ USER_ROLES.values)) = true
  <-> role_unknown u.
Proof.
  unfold role_unknown, USER_ROLES.values, USER_ROLES.ADMIN, USER_ROLES.EDITOR.
  generalize (default USER_ROLES.USER (role u)). intros r. unfold USER_ROLES.USER.
  rewrite negb_true_iff, bool_decide_eq_false.
  rewrite !elem_of_cons, elem_of_nil. tauto.
Qed.

(** The [errors] object is empty exactly for a user that is not turned
    down. *)
Lemma validate_nil (u : UserData) : validate u = [] <-> ~ turned_down u.
Proof.
  unfold validate, turned_down.
  rewrite <- name_check, <- email_check, <- password_check, <- role_check.
  destruct (blank (name u) || _); destruct (blank (email u));
    try destruct (negb (isValidEmail _));
    destruct (blank (password u) || _);
    destruct (negb (bool_decide _)); cbn;
    split; (discriminate || tauto || intuition congruence || idtac).
Qed.

End CreateUserFacts.

(** C8.  [createUser] throws, without calling the server and without
    touching the page, an error shaped like a 422 response with a non-empty
    [errors] object exactly when the user is turned down: the trimmed name
    has fewer than 2 characters, the email is missing or does not match the
    pattern, the password is missing or has fewer than 8 characters, or the
    role is none of admin, editor, user.  Otherwise its first step is the
    POST to [/admin/users] with the trimmed name and the lower-cased,
    trimmed email. *)
Theorem createUser_validation (api : Config -> M Response)
    (u : adminService.UserData) (w : World) :
  (turned_down u ->
     exists errors,
       errors <> []
       /\ adminService.createUser api u w
          = (Rejected (adminService.validationError errors), w)
       /\ (err_response (adminService.validationError errors)
             ≫= fun r => Some (res_status r)) = Some 422
       /\ (err_response (adminService.validationError errors)
             ≫= fun r => get_field "errors" (res_data r))
          = Some (JObj errors))
  /\ (~ turned_down u ->
        adminService.createUser api u
        = (response <- api (createUser_request u);;
           exec (clearCache (Some "admin/users"%string));;;
           ret {| success := true; sr_data := res_data response;
                  sr_message := Some "User created successfully"%string |})%promise
        /\ (data (createUser_request u) ≫= get_field "name")
           = Some (JStr (Str.trim (default ""%string (adminService.name u))))
        /\ (data (createUser_request u) ≫= get_field "email")
           = Some (JStr (Str.trim (Str.toLowerCase
                                     (default ""%string (adminService.email u)))))).
Proof.
  split.
  - intros Hdown. exists (adminService.validate u).
    assert (adminService.validate u <> []) as Hne.
    { intros E. by apply validate_nil in E. }
    split; [exact Hne |]. split; [| split; reflexivity].
    unfold adminService.createUser.
    destruct (adminService.validate u); [done | reflexivity].
  - intros Hok. apply validate_nil in Hok.
    split; [| split; reflexivity].
    unfold adminService.createUser. rewrite Hok. reflexivity.
Qed.

Lemma createUser_validation_witness :
  (exists errors,
      errors <> []
      /\ adminService.createUser (fun _ => never) user_A (world_with (roomy ∅))
         = (Rejected (adminService.validationError errors),
            world_with (roomy ∅))
      /\ (err_response (adminService.validationError errors)
            ≫= fun r => Some (res_status r)) = Some 422
      /\ (err_response (adminService.validationError errors)
            ≫= fun r => get_field "errors" (res_data r))
         = Some (JObj errors))
  /\ (data (createUser_request user_Jane) ≫= get_field "name")
     = Some (JStr "Jane")
  /\ (data (createUser_request user_Jane) ≫= get_field "email")
     = Some (JStr "jane@insbu.bi").
Proof.
  split.
  - apply (proj1 (createUser_validation (fun _ => never) user_A
                    (world_with (roomy ∅)))).
    left. vm_compute. lia.
  - apply (proj2 (createUser_validation (fun _ => never) user_Jane
                    (world_with (roomy ∅)))).
    intros [Hn | [He | [Hp | (_ & Hr & _)]]].
    + vm_compute in Hn. lia.
    + vm_compute in He. discriminate.
    + vm_compute in Hp. lia.
    + by apply Hr.
Defined.

(* ===================================================================== *)
(** * usePaginatedApi *)
(* ===================================================================== *)

Section Paging.
Import usePaginatedApi.

(** The page is at least 1, and stays so under every action but the raw
    setter. *)
Lemma step_page_ge_1 (a : Action) (st : State) :
  raw a = false -> 1 <= page st -> 1 <= page (step a st).
Proof.
  intros Hraw Hge. destruct a; cbn; try discriminate Hraw.
  - unfold nextPage. destruct (page st <? totalPages st); cbn; lia.
  - unfold prevPage. destruct (1 <? page st) eqn:E; cbn; [| lia].
    apply Z.ltb_lt in E. lia.
  - unfold goToPage.
    destruct (1 <=? pageNumber) eqn:E1; cbn; [| lia].
    destruct (pageNumber <=? totalPages st); cbn; [| lia].
    by apply Z.leb_le in E1.
  - lia.
  - lia.
  - lia.
  - exact Hge.
  - unfold searchTimerFires, debounce.fire.
    destruct (searchTimer st); cbn; lia.
  - unfold onResponse. by destruct (truthy_opt _).
Qed.

Lemma run_page_ge_1 (actions : list Action) (st : State) :
  Forall (fun a => raw a = false) actions ->
  1 <= page st -> 1 <= page (run actions st).
Proof.
  intros Hactions. revert st.
  induction Hactions as [| a actions Ha _ IH]; intros st Hge; [done |].
  cbn. apply IH. by apply step_page_ge_1.
Qed.

End Paging.

(** C5, as amended.  Started with [initialPage = 1] (given, or by default),
    the page is at least 1 after any sequence of actions on the hook that
    does not use the raw [setPage], when the component has rendered again
    between any two of them, so that every callback is the one of the
    current render and reads the current page ([run] gives every action
    the state the one before has left).  In
    every state, [nextPage] adds one to the page when [page < totalPages]
    and does nothing otherwise; [prevPage] subtracts one when [page > 1]
    and does nothing otherwise; [goToPage(n)] makes [n] the page when
    [1 <= n <= totalPages] and does nothing otherwise; [hasNextPage] is
    [page < totalPages] and [hasPrevPage] is [page > 1]. *)
Theorem pagination_bounds :
  (forall options actions,
      usePaginatedApi.initialPage options = Some 1
      \/ usePaginatedApi.initialPage options = None ->
      Forall (fun a => usePaginatedApi.raw a = false) actions ->
      1 <= usePaginatedApi.page
             (usePaginatedApi.run actions (usePaginatedApi.init options)))
  /\ (forall st,
        usePaginatedApi.nextPage st st
        = if decide (usePaginatedApi.page st < usePaginatedApi.totalPages st)
          then usePaginatedApi.setPage (fun _ => usePaginatedApi.page st + 1) st
          else st)
  /\ (forall st,
        usePaginatedApi.prevPage st st
        = if decide (1 < usePaginatedApi.page st)
          then usePaginatedApi.setPage (fun _ => usePaginatedApi.page st - 1) st
          else st)
  /\ (forall st n,
        usePaginatedApi.goToPage st n st
        = if decide (1 <= n <= usePaginatedApi.totalPages st)
          then usePaginatedApi.setPage (fun _ => n) st
          else st)
  /\ (forall st,
        (usePaginatedApi.hasNextPage st = true
         <-> usePaginatedApi.page st < usePaginatedApi.totalPages st)
        /\ (usePaginatedApi.hasPrevPage st = true
            <-> 1 < usePaginatedApi.page st)).
Proof.
  split; [| split; [| split; [| split]]].
  - intros options actions Hinit Hactions. apply run_page_ge_1; [done |]. cbn.
    destruct Hinit as [-> | ->]; cbn; lia.
  - intros st. unfold usePaginatedApi.nextPage.
    destruct (Z.ltb_spec (usePaginatedApi.page st) (usePaginatedApi.totalPages st));
      case_decide; (reflexivity || lia).
  - intros st. unfold usePaginatedApi.prevPage.
    destruct (Z.ltb_spec 1 (usePaginatedApi.page st));
      case_decide; (reflexivity || lia).
  - intros st n. unfold usePaginatedApi.goToPage.
    destruct (Z.leb_spec 1 n);
      destruct (Z.leb_spec n (usePaginatedApi.totalPages st));
      case_decide; cbn; (reflexivity || lia).
  - intros st. unfold usePaginatedApi.hasNextPage, usePaginatedApi.hasPrevPage.
    split; apply Z.ltb_lt.
Qed.

Lemma pagination_bounds_witness :
  1 <= usePaginatedApi.page
         (usePaginatedApi.run paging_session
            (usePaginatedApi.init default_paging)).
Proof.
  apply (proj1 pagination_bounds).
  - left. reflexivity.
  - unfold paging_session. repeat constructor.
Defined.

(** C5 as stated fails: the page is not always at least 1.  The hook
    returns the raw [setPage] among its navigation functions, and
    [setPage(0)] makes the page 0. *)
Lemma raw_setPage_leaves_the_bounds :
  ~ (1 <= usePaginatedApi.page
            (usePaginatedApi.run [usePaginatedApi.SetPage (fun _ => 0)]
               (usePaginatedApi.init default_paging))).
Proof. cbn. lia. Qed.

(** The guards read the page of the render a callback was made in: called
    twice from the render that shows page 2, before the component has
    rendered again, [prevPage] subtracts two and the page is 0. *)
Example prevPage_twice_in_one_render :
  let st := usePaginatedApi.setPage (fun _ => 2)
              (usePaginatedApi.init default_paging) in
  usePaginatedApi.page
    (usePaginatedApi.prevPage st (usePaginatedApi.prevPage st st)) = 0.
Proof. reflexivity. Qed.

(** C6.  Every change of the query puts the page back to 1: the firing of
    the debounced search setter (which also makes the pending term the
    search term), [updateFilters], [updateSort] and [clearFilters].
    [updateFilters] merges the new filters over the old ones: a key of the
    new filters gets its new value, every other key keeps its value.
    [clearFilters] also empties the filters and the search term and puts
    the sort back to [sortBy = null], [sortOrder = 'asc']. *)
Theorem query_change_resets_page (st : usePaginatedApi.State) :
  (forall term,
      usePaginatedApi.searchTimer st = Some term ->
      usePaginatedApi.page (usePaginatedApi.searchTimerFires st) = 1
      /\ usePaginatedApi.searchTerm (usePaginatedApi.searchTimerFires st) = term)
  /\ (forall newFilters,
        usePaginatedApi.page (usePaginatedApi.updateFilters newFilters st) = 1
        /\ forall k,
            usePaginatedApi.filters
              (usePaginatedApi.updateFilters newFilters st) !! k
            = match newFilters !! k with
              | Some v => Some v
              | None => usePaginatedApi.filters st !! k
              end)
  /\ (forall field order,
        usePaginatedApi.page (usePaginatedApi.updateSort field order st) = 1
        /\ usePaginatedApi.sortBy (usePaginatedApi.updateSort field order st)
           = field
        /\ usePaginatedApi.sortOrder (usePaginatedApi.updateSort field order st)
           = default "asc"%string order)
  /\ (usePaginatedApi.page (usePaginatedApi.clearFilters st) = 1
      /\ usePaginatedApi.filters (usePaginatedApi.clearFilters st) = ∅
      /\ usePaginatedApi.searchTerm (usePaginatedApi.clearFilters st) = ""%string
      /\ usePaginatedApi.sortBy (usePaginatedApi.clearFilters st) = None
      /\ usePaginatedApi.sortOrder (usePaginatedApi.clearFilters st)
         = "asc"%string).
Proof.
  split; [| split; [| split]].
  - intros term Hterm.
    unfold usePaginatedApi.searchTimerFires, debounce.fire. rewrite Hterm.
    split; reflexivity.
  - intros newFilters. split; [reflexivity |]. intros k. cbn.
    rewrite lookup_union.
    destruct (newFilters !! k), (usePaginatedApi.filters st !! k); reflexivity.
  - intros field order. repeat split.
  - repeat split.
Qed.

Lemma query_change_resets_page_witness :
  let st :=
    usePaginatedApi.debouncedSearch "census"
      (usePaginatedApi.setPage (fun _ => 4)
         (usePaginatedApi.init
            {| usePaginatedApi.initialPage := None;
               usePaginatedApi.pageSize := None;
               usePaginatedApi.searchDebounceMs := None;
               usePaginatedApi.cachePages := None |})) in
  usePaginatedApi.page st = 4
  /\ usePaginatedApi.page (usePaginatedApi.searchTimerFires st) = 1
  /\ usePaginatedApi.searchTerm (usePaginatedApi.searchTimerFires st)
     = "census"%string.
Proof.
  intros st. split; [reflexivity |].
  apply (proj1 (query_change_resets_page st) "census"%string). reflexivity.
Defined.

(* ===================================================================== *)
(** * The axios instance *)
(* ===================================================================== *)

Section ApiFacts.
Context `{JsonRuntime} (env : Env).

Lemma handleApiError_bare (error : JsError) : bare (handleApiError error).
Proof.
  unfold handleApiError.
  destruct (err_response error); [done |].
  destruct (err_request error); done.
Qed.

(** The error side of the api.js interceptor always rejects, and with a
    bare object. *)
Lemma responseErrorInterceptor_rejects (error : JsError) (w : World) :
  exists e w',
    Api.responseErrorInterceptor error w = (Rejected e, w') /\ bare e.
Proof.
  unfold Api.responseErrorInterceptor, bind, throw, ret, exec.
  destruct (err_response error) as [response |]; cbn;
    [| eexists _, _; split; [reflexivity | apply handleApiError_bare]].
  destruct (res_status response =? HTTP_STATUS.UNPROCESSABLE_ENTITY);
    destruct (res_data response); cbn;
    destruct (res_status response =? HTTP_STATUS.UNAUTHORIZED); cbn;
    destruct (err_config error) as [c |]; cbn;
    try destruct (_retry c); cbn;
    eexists _, _;
    (split; [reflexivity | first [apply handleApiError_bare | done]]).
Qed.

Lemma responseInterceptor_settles (response : Response) (w : World) :
  (exists r, Api.responseInterceptor response w = (Resolved r, w))
  \/ (exists e, Api.responseInterceptor response w = (Rejected e, w)
                /\ bare e).
Proof.
  unfold Api.responseInterceptor, bind, read, ret, throw.
  destruct (res_config response ≫= metadata); [left | right]; eauto.
  eexists. split; [reflexivity | done].
Qed.

Lemma dispatchRequest_settles (config : Config) (w : World) :
  fst (axios.dispatchRequest env config w) <> Pending.
Proof.
  unfold axios.dispatchRequest.
  destruct (server env (wire w) config) as [status body latency | why latency];
    [destruct (axios.validateStatus status) |]; discriminate.
Qed.

Lemma request_chain_settles (config : Config) (w : World) :
  fst ((config <- axios.mergeConfig config;;
        config <- Api.requestInterceptor config;;
        axios.dispatchRequest env config) w) <> Pending.
Proof.
  unfold bind, axios.mergeConfig, Api.requestInterceptor, read, ret.
  apply dispatchRequest_settles.
Qed.

(** What the first interceptors hand on is a response, or a rejection with
    a bare object. *)
Lemma first_interceptors_settle (config : Config) (w : World) :
  (exists r w', first_interceptors env config w = (Resolved r, w'))
  \/ (exists e w', first_interceptors env config w = (Rejected e, w') /\ bare e).
Proof.
  unfold first_interceptors, then_.
  destruct ((config0 <- axios.mergeConfig config;;
             config1 <- Api.requestInterceptor config0;;
             axios.dispatchRequest env config1) w) as [[r | e |] w'] eqn:E.
  - destruct (responseInterceptor_settles r w') as [[r' ->] | [e [-> He]]]; eauto.
  - destruct (responseErrorInterceptor_rejects e w') as (e' & w'' & -> & He).
    right. eauto.
  - exfalso. apply (request_chain_settles config w). by rewrite E.
Qed.

(** The interceptor of the AuthProvider never gets to see a response
    status: whatever its closures would call back is never reached. *)
Lemma api_with_back (back : Config -> M Response) (config : Config) (w : World) :
  Api.api_with env back config w = first_interceptors env config w.
Proof.
  unfold Api.api_with. fold (first_interceptors env config).
  destruct (auth_interceptor w) as [seen |]; [| reflexivity].
  unfold then_.
  destruct (first_interceptors_settle config w)
    as [(r & w' & ->) | (e & w' & -> & He & _)]; [reflexivity |].
  unfold AuthContext.responseErrorInterceptor, AuthContext.is_401.
  by rewrite He.
Qed.

(** [api] is the function that calls back into itself. *)
Lemma api_unfold : Api.api env = Api.api_with env (Api.api env).
Proof.
  apply functional_extensionality. intros config.
  apply functional_extensionality. intros w.
  unfold Api.api. by rewrite !api_with_back.
Qed.

Lemma api_first (config : Config) (w : World) :
  Api.api env config w = first_interceptors env config w.
Proof. apply api_with_back. Qed.

(** Every request settles. *)
Lemma api_settles (config : Config) (w : World) :
  fst (Api.api env config w) <> Pending.
Proof.
  rewrite api_first.
  destruct (first_interceptors_settle config w)
    as [(r & w' & ->) | (e & w' & -> & _)]; discriminate.
Qed.

(** Every rejection of [api] is a bare object. *)
Lemma api_rejection (config : Config) (w w' : World) (e : JsError) :
  Api.api env config w = (Rejected e, w') -> bare e.
Proof.
  rewrite api_first. intros E.
  destruct (first_interceptors_settle config w)
    as [(r & w'' & E') | (e' & w'' & E' & He)]; congruence.
Qed.

End ApiFacts.

(* ===================================================================== *)
(** * AuthContext: logout *)
(* ===================================================================== *)

Section LogoutFacts.
Context `{JsonRuntime}.

Lemma logout_cleanup_logged_out (w : World) : logged_out (logout_cleanup w).
Proof.
  unfold logged_out, logout_cleanup, localStorage.getItem. cbn.
  repeat split; apply lookup_delete_eq.
Qed.

(** Whatever the instance answers, short of never answering, [logout]
    resolves after its clean-up. *)
Lemma logout_with (api : Config -> M Response) (w : World) :
  (forall config w0, fst (api config w0) <> Pending) ->
  exists w1, AuthContext.logout api w = (Resolved tt, logout_cleanup w1).
Proof.
  intros Hsettles.
  unfold AuthContext.logout, try_finally, try_catch, bind, read, ret.
  fold logout_cleanup.
  destruct (truthy (storage_get STORAGE_KEYS.AUTH_TOKEN w)); [| eauto].
  unfold authService.logout, try_catch, bind, ret.
  specialize (Hsettles (request POST "/auth/logout") w).
  destruct (api (request POST "/auth/logout") w) as [[r | e |] w1]; cbn;
    [eauto | eauto | done].
Qed.

End LogoutFacts.

(** C9.  On the client of api.js, [logout] always completes, and when it
    has, whatever the server did with the logout call and whether or not a
    token was stored: nothing is stored under [insbu_auth_token], the
    default [Authorization] header is gone, the user is [null], so that
    [isAuthenticated] is false, and [loading] is false. *)
Theorem logout_always_logs_out `{JsonRuntime} (env : Env) (w : World) :
  exists w',
    AuthContext.logout (Api.api env) w = (Resolved tt, w') /\ logged_out w'.
Proof.
  destruct (logout_with (Api.api env) w (api_settles env)) as [w1 E].
  exists (logout_cleanup w1). split; [exact E |].
  apply logout_cleanup_logged_out.
Qed.

Lemma logout_always_logs_out_witness :
  (exists w',
      AuthContext.logout (H := reference_runtime)
        (Api.api (H := reference_runtime) server_ok) (signed_in "t0") = (Resolved tt, w') /\ logged_out w')
  /\ (exists w',
        AuthContext.logout (H := reference_runtime)
          (Api.api (H := reference_runtime) server_down) (signed_in "t0") = (Resolved tt, w') /\ logged_out w')
  /\ (exists w',
        AuthContext.logout (H := reference_runtime)
          (Api.api (H := reference_runtime) server_ok) (world_with (roomy ∅)) = (Resolved tt, w') /\ logged_out w').
Proof.
  split; [| split]; apply (logout_always_logs_out (H := reference_runtime)).
Defined.

(* ===================================================================== *)
(** * requestWithRetry *)
(* ===================================================================== *)

Section RetryFacts.
Context (api : Config -> M Response).

Lemma shouldRetry_retryable (retryCount : Z) (error : JsError) :
  Api.shouldRetry retryCount error = true <-> retryable retryCount error.
Proof.
  unfold Api.shouldRetry, retryable.
  rewrite !andb_true_iff, negb_true_iff, Z.ltb_lt.
  assert (match err_response error with
          | Some response => 500 <=? res_status response
          | None => true
          end = true
          <-> (err_response error = None
               \/ exists response,
                    err_response error = Some response
                    /\ 500 <= res_status response)) as ->.
  { destruct (err_response error) as [r |]; [| intuition].
    rewrite Z.leb_le. split.
    - intros Hr. right. eauto.
    - intros [? | (r' & [= <-] & Hr)]; done. }
  assert (match err_code error with
          | Some code => String.eqb code "ECONNABORTED"
          | None => false
          end = false
          <-> err_code error <> Some "ECONNABORTED"%string) as ->.
  { destruct (err_code error) as [c |]; [| done].
    destruct (String.eqb_spec c "ECONNABORTED"); split; congruence. }
  tauto.
Qed.

Lemma requestWithRetry_unfold (config : Config) (retryCount : Z) (w : World) :
  Api.requestWithRetry api config retryCount w
  = match api config w with
    | (Rejected error, w') =>
        if Api.shouldRetry retryCount error
        then Api.requestWithRetry api config (retryCount + 1)
               (slept (Api.retryDelayFor retryCount) w')
        else (Rejected error, w')
    | settled => settled
    end.
Proof.
  funelim (Api.requestWithRetry api config retryCount w);
    match goal with
    | E : api _ _ = (_, _) |- _ => rewrite E
    end;
    try match goal with
        | E : Api.shouldRetry _ _ = _ |- _ => rewrite E
        end;
    reflexivity.
Qed.

End RetryFacts.

(** The rule of [requestWithRetry], for any instance and in terms of the
    error the instance rejects with.  [requestWithRetry] treats every
    request alike, whatever its method.  When the instance resolves, so
    does it.  When the
    instance rejects with an error that has no response or a response status
    of 500 or more, whose code is not [ECONNABORTED], and fewer than 3
    retries were made, it waits [retryDelay * 2^retryCount] milliseconds
    (1000, 2000, 4000) and issues the request again; otherwise it rethrows
    the error at once, in particular an error with a 4xx response, an error
    with the code [ECONNABORTED], and any error after the third retry. *)
Theorem requestWithRetry_rule (api : Config -> M Response) (config : Config)
    (retryCount : Z) (w : World) :
  (forall response w',
      api config w = (Resolved response, w') ->
      Api.requestWithRetry api config retryCount w = (Resolved response, w'))
  /\ (forall error w',
        api config w = (Rejected error, w') ->
        retryable retryCount error ->
        Api.requestWithRetry api config retryCount w
        = Api.requestWithRetry api config (retryCount + 1)
            (slept (API_CONFIG.retryDelay * 2 ^ retryCount) w'))
  /\ (forall error w',
        api config w = (Rejected error, w') ->
        ~ retryable retryCount error ->
        Api.requestWithRetry api config retryCount w = (Rejected error, w'))
  /\ (API_CONFIG.retryDelay * 2 ^ 0 = 1000
      /\ API_CONFIG.retryDelay * 2 ^ 1 = 2000
      /\ API_CONFIG.retryDelay * 2 ^ 2 = 4000)
  /\ (forall error,
        (3 <= retryCount
         \/ (exists response,
               err_response error = Some response
               /\ 400 <= res_status response < 500)
         \/ err_code error = Some "ECONNABORTED"%string) ->
        ~ retryable retryCount error).
Proof.
  split; [| split; [| split; [| split]]].
  - intros response w' E. by rewrite requestWithRetry_unfold, E.
  - intros error w' E Hretry. apply shouldRetry_retryable in Hretry.
    by rewrite requestWithRetry_unfold, E, Hretry.
  - intros error w' E Hretry.
    rewrite requestWithRetry_unfold, E.
    destruct (Api.shouldRetry retryCount error) eqn:Hs; [| reflexivity].
    by apply shouldRetry_retryable in Hs.
  - repeat split.
  - intros error Hwhy (Hcount & Hresponse & Hcode).
    unfold API_CONFIG.retryAttempts in Hcount.
    destruct Hwhy as [Hge | [(r & Hr & Hstatus) | Hto]]; [lia | | done].
    destruct Hresponse as [Hnone | (r' & Hr' & Hstatus')]; [congruence |].
    assert (r' = r) as -> by congruence. lia.
Qed.

(** On the bare transport: a 503 is retried after one second, a 404 is
    rethrown. *)
Lemma requestWithRetry_rule_witness :
  (exists error w',
      axios.dispatchRequest server_503 (request GET "/news") (world_with (roomy ∅))
      = (Rejected error, w')
      /\ Api.requestWithRetry (axios.dispatchRequest server_503)
           (request GET "/news") 0 (world_with (roomy ∅))
         = Api.requestWithRetry (axios.dispatchRequest server_503)
             (request GET "/news") 1 (slept 1000 w'))
  /\ (exists error w',
        Api.requestWithRetry (axios.dispatchRequest server_404)
          (request GET "/news") 0 (world_with (roomy ∅))
        = (Rejected error, w')
        /\ waits (wire w') = []
        /\ sent_methods (wire w') = [Some GET]).
Proof.
  split.
  - eexists _, _. split; [reflexivity |].
    apply (proj1 (proj2 (requestWithRetry_rule
                           (axios.dispatchRequest server_503)
                           (request GET "/news") 0 (world_with (roomy ∅))))
             _ _ eq_refl).
    split; [reflexivity |]. split; [| discriminate].
    right. eexists. split; [reflexivity |]. cbn. lia.
  - eexists _, _. split.
    + apply (proj1 (proj2 (proj2 (requestWithRetry_rule
                                    (axios.dispatchRequest server_404)
                                    (request GET "/news") 0
                                    (world_with (roomy ∅)))))
               _ _ eq_refl).
      intros (_ & [Hnone | (r & [= <-] & Hr)] & _); [discriminate |].
      cbn in Hr. lia.
    + split; reflexivity.
Defined.

(** Retries are not kept to idempotent requests: [postOptimistic] hands
    its POST to [requestWithRetry]; against a server that answers 503 the
    POST goes out four times, after waits of one, two and four seconds. *)
Lemma postOptimistic_repeats_a_POST :
  idempotent POST = false
  /\ (let w' :=
        snd (Api.postOptimistic (Api.api (H := reference_runtime) server_503)
               "/news" (Some (JObj [("title"%string, JStr "Census")]))
               no_options None None (signed_in "t0")) in
      sent_methods (wire w') = [Some POST; Some POST; Some POST; Some POST]
      /\ waits (wire w') = [1000; 2000; 4000]).
Proof. split; [reflexivity |]. vm_compute. split; reflexivity. Qed.

(** Behind the interceptors of api.js every failure reaches
    [requestWithRetry] as a bare object, which the retry rule takes for a
    failure without response: a 404 is retried like a 503. *)
Lemma api_rejections_are_retried `{JsonRuntime} (env : Env) (config : Config)
    (w w' : World) (error : JsError) (retryCount : Z) :
  Api.api env config w = (Rejected error, w') ->
  retryCount < 3 ->
  Api.requestWithRetry (Api.api env) config retryCount w
  = Api.requestWithRetry (Api.api env) config (retryCount + 1)
      (slept (Api.retryDelayFor retryCount) w').
Proof.
  intros E Hcount. rewrite requestWithRetry_unfold, E.
  destruct (api_rejection env config w w' error E) as [Hr Hc].
  unfold Api.shouldRetry. rewrite Hr, Hc.
  destruct (Z.ltb_spec retryCount API_CONFIG.retryAttempts) as [_ | Hge];
    [reflexivity |].
  unfold API_CONFIG.retryAttempts in Hge. lia.
Qed.

Example a_404_is_retried_behind_the_interceptors :
  let w' :=
    snd (Api.requestWithRetry (Api.api (H := reference_runtime) server_404)
           (request GET "/news/1") 0 (world_with (roomy ∅))) in
  sent_methods (wire w') = [Some GET; Some GET; Some GET; Some GET]
  /\ waits (wire w') = [1000; 2000; 4000].
Proof. vm_compute. split; reflexivity. Qed.

(* ===================================================================== *)
(** * getWithCache *)
(* ===================================================================== *)

Section CacheFacts.
Context {J : JsonRuntime} {laws : JsonLaws J} (api : Config -> M Response).

Lemma isFresh_cacheEntry (now : Z) (body : json) (timestamp duration : Z) :
  Api.isFresh now (cacheEntry body timestamp) duration
  = (now - timestamp <? duration).
Proof. unfold Api.isFresh. cbn. by rewrite Z.mul_1_r. Qed.

Lemma getWithCache_hit (u : string) (config : Config) (w : World) :
  Api.cacheEnabled config = true ->
  Api.isFresh (clock w) (storage_get (Api.cacheKey u config) w)
    (Api.cacheDurationOf config) = true ->
  Api.getWithCache api u config w
  = (Resolved
       (Cached (get_field "data" (storage_get (Api.cacheKey u config) w))),
     w).
Proof.
  intros Hon Hfresh. unfold Api.getWithCache, bind, read, ret.
  by rewrite Hon, Hfresh.
Qed.

Lemma getWithCache_miss (u : string) (config : Config) (w : World) :
  Api.cacheEnabled config = true ->
  Api.isFresh (clock w) (storage_get (Api.cacheKey u config) w)
    (Api.cacheDurationOf config) = false ->
  Api.getWithCache api u config w = fetch_and_store api u config w.
Proof.
  intros Hon Hstale. unfold Api.getWithCache, fetch_and_store, bind, read, ret.
  rewrite Hon, Hstale. cbn.
  destruct (Api.requestWithRetry api (Api.spread GET u None config) 0 w)
    as [[response | error |] w']; [| reflexivity | reflexivity].
  unfold HTTP_STATUS.OK, exec.
  by destruct (res_status response =? 200).
Qed.


End CacheFacts.

(** A first call fetches and stores, a second one within the duration is
    answered from the store and sends nothing. *)
Example getWithCache_twice :
  let api := Api.api (H := reference_runtime) server_ok in
  let '(first, w1) :=
    Api.getWithCache (H := reference_runtime) api "/news" news_page_1
      (world_with (roomy ∅)) in
  let '(second, w2) :=
    Api.getWithCache (H := reference_runtime) api "/news" news_page_1 w1 in
  (fromCache <$> match first with Resolved r => Some r | _ => None end)
  = Some false
  /\ second = Resolved (Cached (Some (JObj [])))
  /\ w2 = w1
  /\ sent_methods (wire w2) = [Some GET].
Proof. vm_compute. repeat split. Qed.

(* ===================================================================== *)
(** * The 401 interceptors *)
(* ===================================================================== *)

Section UnauthorizedFacts.
Context `{JsonRuntime} (env : Env).

(** What [api] does with a 401, whatever the AuthProvider has registered:
    the request goes out once, the api.js interceptor clears the token and
    redirects, and the rejection carries the status only.  No refresh is
    requested and the request is not issued again. *)
Lemma api_on_401 (config : Config) (w : World) (body : json) (latency : Z) :
  _retry config = false ->
  server env (wire w) (outgoing config w) = Answer 401 body latency ->
  exists message,
    Api.api env config w
    = (Rejected (api_error 401 message "api_error"),
       turned_away
         (record (Sent (outgoing config w))
            (set_clock (clock w + latency) w))).
Proof.
  intros Hretry Hanswer. rewrite api_first.
  unfold outgoing in Hanswer.
  unfold first_interceptors, then_, bind, axios.mergeConfig,
    Api.requestInterceptor, read, ret in *.
  cbn in Hanswer.
  unfold axios.dispatchRequest. cbn. rewrite Hanswer. cbn.
  unfold Api.responseErrorInterceptor, bind, ret, exec, throw. cbn.
  assert (_retry
            (if truthy (storage_get STORAGE_KEYS.AUTH_TOKEN w)
             then set_headers
                    (<["Authorization"%string
                       := "Bearer " +:+ ToString (storage_get STORAGE_KEYS.AUTH_TOKEN w)]>
                       (headers config ∪ defaults_common w))
                    (set_headers (headers config ∪ defaults_common w) config)
             else set_headers (headers config ∪ defaults_common w) config)
          = false) as Hsame.
  { by destruct (truthy _). }
  rewrite Hsame. cbn. eexists. reflexivity.
Qed.

End UnauthorizedFacts.

(** C1 does not hold of the code.  A signed-in user with an expired token
    requests [/news] and the server answers 401.  The request goes out
    once; nothing is sent to [/auth/refresh] and the request is not issued
    again, although the server would hand out a new token: the rejection
    handler of api.js, which runs first, has removed the token, sent the
    browser to the login page and replaced the error by an object without
    [response], in which the handler of the AuthProvider finds no status. *)
Theorem expired_token_is_not_refreshed :
  let '(settled, w') :=
    Api.api (H := reference_runtime) server_expired (request GET "/news")
      (signed_in "t0") in
  settled
  = Rejected (api_error 401 (Some (JStr "Unauthenticated.")) "api_error")
  /\ sent_urls (wire w') = [Some "/news"%string]
  /\ localStorage.getItem STORAGE_KEYS.AUTH_TOKEN (storage_area w') = None
  /\ location_href w' = Some "/login"%string
  /\ isAuthenticated w' = true.
Proof. vm_compute. repeat split. Qed.

(** The handler of the AuthProvider on its own, over the bare transport,
    does what C1 says: given the 401 of the transport it marks the request,
    refreshes once and issues the request again with the new token. *)
Example auth_interceptor_alone :
  let transport := axios.dispatchRequest server_expired in
  let '(failed, w1) := transport (request GET "/news") (signed_in "t0") in
  match failed with
  | Rejected error =>
      let '(settled, w2) :=
        AuthContext.responseErrorInterceptor (H := reference_runtime) transport
          {| seen_isAuthenticated := true; seen_refreshing := false |}
          error w1 in
      (res_status <$> match settled with Resolved r => Some r | _ => None end)
      = Some 200
      /\ sent_urls (wire w2)
         = [Some "/news"; Some "/auth/refresh"; Some "/news"]%string
      /\ storage_get (H := reference_runtime) STORAGE_KEYS.AUTH_TOKEN w2
         = JStr "t1"
  | _ => False
  end.
Proof. vm_compute. repeat split. Qed.

(* ===================================================================== *)
(** * AuthContext: token refresh *)
(* ===================================================================== *)

Section RefreshFacts.
Context `{JsonRuntime} (api : Config -> M Response).

(** The guard of [refreshToken]: a closure that saw [refreshing = true]
    returns [false], sends nothing and changes nothing. *)
Lemma refreshToken_guard (w : World) :
  AuthContext.refreshToken api true w = (Resolved false, w).
Proof. reflexivity. Qed.

(** A refresh that the server grants stores the new token, makes it the
    default bearer, and leaves [refreshing] false. *)
Lemma refreshToken_success (w w1 : World) (response : Response) (token : string) :
  api (request POST "/auth/refresh") (setRefreshing true w)
  = (Resolved response, w1) ->
  res_data response = JObj [("token"%string, JStr token)] ->
  AuthContext.refreshToken api false w
  = (Resolved true,
     setRefreshing false
       (set_default_Authorization ("Bearer " +:+ token)
          (storage_set STORAGE_KEYS.AUTH_TOKEN (Some (JStr token)) w1))).
Proof.
  intros Hpost Hbody.
  unfold AuthContext.refreshToken, try_finally, try_catch, bind, exec, ret,
    authService.refreshToken, bind, ret.
  cbn. rewrite Hpost. cbn. rewrite Hbody. reflexivity.
Qed.

(** The interval exists exactly while the user is authenticated, and its
    period is 15 minutes. *)
Lemma refreshEffect_schedule (authenticated : bool) :
  AuthContext.refreshEffect authenticated
  = if authenticated then Some 900000 else None.
Proof. by destruct authenticated. Qed.

(** A tick of the interval without a stored token does nothing. *)
Lemma refreshTick_without_token (refreshing : bool) (w : World) :
  localStorage.getItem STORAGE_KEYS.AUTH_TOKEN (storage_area w) = None ->
  AuthContext.refreshTick api refreshing w = (Resolved tt, w).
Proof.
  intros Hnone. unfold AuthContext.refreshTick, bind, read, ret, storage_get.
  by rewrite (storage_get_missing _ _ Hnone).
Qed.

End RefreshFacts.

(** A tick on a signed-in page whose server grants the refresh: one request
    to [/auth/refresh], and the new token in the store. *)
Example refreshTick_replaces_token :
  let '(settled, w') :=
    AuthContext.refreshTick (H := reference_runtime)
      (Api.api (H := reference_runtime) server_expired) false (signed_in "t0") in
  settled = Resolved tt
  /\ sent_urls (wire w') = [Some "/auth/refresh"%string]
  /\ storage_get (H := reference_runtime) STORAGE_KEYS.AUTH_TOKEN w' = JStr "t1"
  /\ defaults_common w' !! "Authorization"%string = Some "Bearer t1"%string
  /\ refreshing w' = false.
Proof. vm_compute. repeat split. Qed.

(* ===================================================================== *)
(** * helpers.js: strings and files *)
(* ===================================================================== *)

Section TextFacts.

Lemma length_substring_0 (n : nat) (s : string) :
  (String.length (String.substring 0 n s) <= n)%nat.
Proof.
  revert s. induction n as [| n IH]; intros [| c s]; cbn; try lia.
  specialize (IH s). lia.
Qed.

Lemma length_trimEnd (s : string) :
  (String.length (Str.trimEnd s) <= String.length s)%nat.
Proof.
  induction s as [| c s IH]; cbn; [lia |].
  destruct (Str.trimEnd s); [destruct (Str.is_space c) |]; cbn in *; lia.
Qed.

Lemma length_trimStart (s : string) :
  (String.length (Str.trimStart s) <= String.length s)%nat.
Proof.
  induction s as [| c s IH]; cbn; [lia |].
  destruct (Str.is_space c); cbn; lia.
Qed.

Lemma length_trim (s : string) :
  (String.length (Str.trim s) <= String.length s)%nat.
Proof.
  unfold Str.trim.
  pose proof (length_trimEnd (Str.trimStart s)).
  pose proof (length_trimStart s). lia.
Qed.

Lemma drop_length_append (a b : string) :
  Text.drop (String.length a) (a +:+ b) = b.
Proof. induction a as [| c a IH]; [reflexivity | exact IH]. Qed.

Lemma drop_all (n : nat) (s : string) :
  (String.length s <= n)%nat -> Text.drop n s = ""%string.
Proof.
  revert s. induction n as [| n IH]; intros [| c s]; cbn; try lia; try done.
  intros Hn. apply IH. lia.
Qed.

Lemma lastIndexOf_lt (c : ascii) (s : string) :
  -1 <= Text.lastIndexOf c s < Z.of_nat (String.length s).
Proof.
  induction s as [| x s IH]; cbn -[Z.of_nat]; [lia |].
  destruct (Z.leb_spec 0 (Text.lastIndexOf c s));
    [| destruct (Ascii.eqb x c)]; lia.
Qed.

Lemma lastIndexOf_absent (c : ascii) (s : string) :
  Text.has c s = false -> Text.lastIndexOf c s = -1.
Proof.
  induction s as [| x s IH]; cbn; [done |].
  intros [Hx Hs]%orb_false_iff. by rewrite (IH Hs), Hx.
Qed.

Lemma lastIndexOf_last (c : ascii) (a b : string) :
  Text.has c b = false ->
  Text.lastIndexOf c (a +:+ String c b) = Z.of_nat (String.length a).
Proof.
  intros Hb. induction a as [| x a IH].
  - rewrite StrFacts.append_nil. cbn.
    by rewrite (lastIndexOf_absent _ _ Hb), Ascii.eqb_refl.
  - rewrite StrFacts.append_cons. cbn -[Z.of_nat]. rewrite IH.
    destruct (Z.leb_spec 0 (Z.of_nat (String.length a))); lia.
Qed.

End TextFacts.

(** [truncateText]: an empty text, or one of at most [maxLength]
    characters, comes back unchanged; a longer one is cut to its first
    [maxLength] characters, trimmed, and followed by the suffix.  What is
    kept of the text has at most [maxLength] characters, and none when
    [maxLength] is zero or negative: the result is then the suffix alone,
    so that the result has at most [max(0, maxLength)] characters plus the
    suffix, and at most [maxLength] plus the suffix only when [maxLength]
    is not negative. *)
Theorem truncateText_bounds (text : string) (maxLength : Z) (suffix : string) :
  (text = ""%string \/ Z.of_nat (String.length text) <= maxLength ->
   truncateText text (Some maxLength) (Some suffix) = text)
  /\ (text <> ""%string -> maxLength < Z.of_nat (String.length text) ->
      exists kept,
        truncateText text (Some maxLength) (Some suffix) = kept +:+ suffix
        /\ kept = Str.trim (Text.substring_to maxLength text)
        /\ Z.of_nat (String.length kept) <= Z.max 0 maxLength
        /\ Z.of_nat (String.length (kept +:+ suffix))
           <= Z.max 0 maxLength + Z.of_nat (String.length suffix)
        /\ (0 <= maxLength ->
            Z.of_nat (String.length (kept +:+ suffix))
            <= maxLength + Z.of_nat (String.length suffix))
        /\ (maxLength <= 0 ->
            truncateText text (Some maxLength) (Some suffix) = suffix)).
Proof.
  cbv [truncateText default from_option id]. split.
  - intros [-> | Hshort]; [reflexivity |].
    apply Z.leb_le in Hshort. rewrite Hshort. by rewrite orb_true_r.
  - intros Hne Hlong. apply Z.leb_gt in Hlong. rewrite Hlong.
    destruct (String.eqb_spec text "") as [-> | _]; [done |].
    cbn. eexists. split; [reflexivity |]. split; [reflexivity |].
    pose proof (length_trim (Text.substring_to maxLength text)) as Htrim.
    pose proof (length_substring_0 (Z.to_nat maxLength) text) as Hcut.
    rewrite StrFacts.length_append.
    unfold Text.substring_to in *.
    split; [lia |]. split; [lia |]. split; [lia |].
    intros Hneg.
    destruct (Str.trim (substring 0 (Z.to_nat maxLength) text)) as [| c rest];
      [reflexivity | cbn in Htrim; lia].
Qed.

(** The defaults: 100 characters and three dots. *)
Lemma truncateText_defaults (text : string) :
  truncateText text None None = truncateText text (Some 100) (Some "..."%string).
Proof. reflexivity. Qed.

Section FileExtensionFacts.

Lemma ushr_0 (x : Z) : Num.ushr x 0 = x mod 2 ^ 32.
Proof. unfold Num.ushr, Num.ToUint32. by rewrite Z.shiftr_0_r. Qed.

Lemma slice_from_beyond (start : Z) (s : string) :
  Z.of_nat (String.length s) <= start -> Text.slice_from start s = ""%string.
Proof.
  intros Hge. unfold Text.slice_from.
  destruct (Z.ltb_spec start 0); [lia |].
  apply drop_all. lia.
Qed.

End FileExtensionFacts.

(** [getFileExtension], for a name of fewer than 2^32 characters: the text
    after the last dot, and the empty string when the name has no dot or
    its only dot comes first (a dot file).  The unsigned shift turns the
    -2 and -1 of those two cases into positions beyond the end. *)
Theorem getFileExtension_spec (filename : string) :
  Z.of_nat (String.length filename) < 2 ^ 32 ->
  (Text.has "." filename = false -> getFileExtension filename = ""%string)
  /\ (forall rest,
        filename = String "." rest -> Text.has "." rest = false ->
        getFileExtension filename = ""%string)
  /\ (forall base ext,
        filename = base +:+ String "." ext -> base <> ""%string ->
        Text.has "." ext = false ->
        getFileExtension filename = ext).
Proof.
  intros Hlen. unfold getFileExtension. rewrite ushr_0.
  change (2 ^ 32) with 4294967296 in *.
  split; [| split].
  - intros Hno. rewrite (lastIndexOf_absent _ _ Hno).
    apply slice_from_beyond. change ((-1 - 1) mod 4294967296) with 4294967294.
    lia.
  - intros rest -> Hno.
    pose proof (lastIndexOf_last "." "" rest Hno) as Hi.
    rewrite StrFacts.append_nil in Hi. rewrite Hi.
    apply slice_from_beyond. change ((Z.of_nat (String.length "") - 1) mod 4294967296) with 4294967295.
    lia.
  - intros base ext -> Hbase Hno.
    rewrite (lastIndexOf_last "." base ext Hno).
    rewrite StrFacts.length_append in Hlen. cbn [String.length] in Hlen.
    assert (1 <= Z.of_nat (String.length base)) as Hpos.
    { destruct base; [done | cbn; lia]. }
    rewrite Z.mod_small by lia.
    unfold Text.slice_from.
    destruct (Z.ltb_spec (Z.of_nat (String.length base) - 1 + 2) 0); [lia |].
    rewrite StrFacts.length_append. cbn [String.length].
    rewrite Z.min_l by lia.
    replace (Z.to_nat (Z.of_nat (String.length base) - 1 + 2))
      with (String.length (base +:+ ".")) by (rewrite StrFacts.length_append; cbn; lia).
    replace (base +:+ String "." ext) with ((base +:+ ".") +:+ ext)
      by (by rewrite StrFacts.append_assoc).
    apply drop_length_append.
Qed.

Lemma getFileExtension_spec_witness :
  getFileExtension "census.2024.pdf" = "pdf"%string
  /\ getFileExtension ".gitignore" = ""%string
  /\ getFileExtension "README" = ""%string.
Proof.
  split; [| split].
  - apply (proj2 (proj2 (getFileExtension_spec "census.2024.pdf"
                           ltac:(by vm_compute)))
             "census.2024"%string "pdf"%string); by vm_compute.
  - apply (proj1 (proj2 (getFileExtension_spec ".gitignore"
                           ltac:(by vm_compute)))
             "gitignore"%string); by vm_compute.
  - apply (proj1 (getFileExtension_spec "README" ltac:(by vm_compute))).
    by vm_compute.
Defined.

(* ===================================================================== *)
(** * helpers.js: arrays *)
(* ===================================================================== *)

Section UniqueFacts.
Context {A : Type} `{EqDecision A}.

Lemma Set_add_nil (x : A) : Set_add [] x = [x].
Proof.
  unfold Set_add. case_decide as Hin; [| done]. by apply elem_of_nil in Hin.
Qed.

Lemma new_Set_from (array acc : list A) :
  fold_left Set_add array acc
  = acc ++ filter (fun y => y ∉ acc) (fold_left Set_add array []).
Proof.
  revert acc. induction array as [| x array IH]; intros acc.
  { cbn. by rewrite app_nil_r. }
  cbn [fold_left]. rewrite (IH (Set_add acc x)), (IH (Set_add [] x)).
  rewrite Set_add_nil. cbn [app]. unfold Set_add.
  destruct (decide (x ∈ acc)) as [Hin | Hout].
  - f_equal. rewrite filter_cons_False by (intros Hx; by apply Hx).
    rewrite list_filter_filter. apply list_filter_iff.
    intros y. rewrite not_elem_of_cons, elem_of_nil. split; [| tauto].
    intros Hy. split; [done |]. split; [| tauto].
    intros ->. done.
  - rewrite <- app_assoc. f_equal. cbn [app].
    rewrite filter_cons_True by done. f_equal.
    rewrite list_filter_filter. apply list_filter_iff.
    intros y. rewrite !not_elem_of_app, !not_elem_of_cons, !elem_of_nil. tauto.
Qed.

Lemma unique_cons (x : A) (array : list A) :
  unique (x :: array) = x :: filter (fun y => y <> x) (unique array).
Proof.
  unfold unique, new_Set. cbn [fold_left]. rewrite new_Set_from.
  rewrite Set_add_nil. cbn [app]. f_equal. apply list_filter_iff.
  intros y. rewrite not_elem_of_cons, elem_of_nil. tauto.
Qed.

Lemma elem_of_unique (x : A) (array : list A) : x ∈ unique array <-> x ∈ array.
Proof.
  induction array as [| y array IH]; [done |].
  rewrite unique_cons, !elem_of_cons, list_elem_of_filter, IH.
  destruct (decide (x = y)); tauto.
Qed.

Lemma NoDup_unique (array : list A) : NoDup (unique array).
Proof.
  induction array as [| y array IH]; [constructor |].
  rewrite unique_cons. constructor.
  - rewrite list_elem_of_filter. tauto.
  - by apply NoDup_filter.
Qed.

Lemma filter_all (P : A -> Prop) `{!forall x, Decision (P x)} (l : list A) :
  (forall x, x ∈ l -> P x) -> filter P l = l.
Proof.
  induction l as [| x l IH]; intros Hall; [done |].
  rewrite filter_cons_True by (apply Hall; left).
  f_equal. apply IH. intros y Hy. apply Hall. by right.
Qed.

Lemma unique_NoDup (array : list A) : NoDup array -> unique array = array.
Proof.
  induction 1 as [| x array Hx _ IH]; [done |].
  rewrite unique_cons, IH. f_equal.
  apply filter_all. intros y Hy ->. done.
Qed.

Lemma sublist_unique (array : list A) : unique array `sublist_of` array.
Proof.
  induction array as [| x array IH]; [done |].
  rewrite unique_cons. apply sublist_skip.
  etrans; [apply sublist_filter | exact IH].
Qed.

End UniqueFacts.

(** [unique], on an array of primitive values: the result has every
    element of the array and no other, each one once, in the order of their
    first occurrences (the head of the array comes first, and the rest is
    [unique] of the tail without it); an array without repetitions comes
    back as it is, so that [unique] twice is [unique] once. *)
Theorem unique_first_occurrences {A : Type} `{EqDecision A} (array : list A) :
  NoDup (unique array)
  /\ (forall x, x ∈ unique array <-> x ∈ array)
  /\ unique array `sublist_of` array
  /\ (forall x rest,
        array = x :: rest ->
        unique array = x :: filter (fun y => y <> x) (unique rest))
  /\ (NoDup array -> unique array = array)
  /\ unique (unique array) = unique array.
Proof.
  split; [apply NoDup_unique |].
  split; [intros x; apply elem_of_unique |].
  split; [apply sublist_unique |].
  split; [intros x rest ->; apply unique_cons |].
  split; [apply unique_NoDup |].
  apply unique_NoDup, NoDup_unique.
Qed.

Section ChunkFacts.
Context {A : Type}.

Lemma slice_forward (i size : Z) (array : list A) :
  0 <= i -> 0 <= size ->
  slice i (i + size) array
  = take (Z.to_nat size) (drop (Z.to_nat i) array).
Proof.
  intros Hi Hsize. unfold slice.
  destruct (Z.ltb_spec (i + size) 0); [lia |].
  destruct (Z.ltb_spec i 0); [lia |].
  set (len := Z.of_nat (length array)).
  destruct (Z.le_gt_cases len i) as [Hout | Hin].
  - rewrite (Z.min_r i len) by lia.
    rewrite !drop_ge by lia. by rewrite !take_nil.
  - rewrite (Z.min_l i len) by lia.
    destruct (Z.le_gt_cases (i + size) len).
    + rewrite Z.min_l by lia. f_equal. lia.
    + rewrite Z.min_r by lia.
      rewrite !take_ge; [done | |]; rewrite length_drop; lia.
Qed.

Lemma chunk_loop_runs (array : list A) (size : Z) (fuel : nat) :
  1 <= size ->
  forall i acc,
    0 <= i ->
    (length array - Z.to_nat i <= fuel)%nat ->
    exists rest,
      chunk_loop fuel array size i acc = Some (acc ++ rest)
      /\ concat rest = drop (Z.to_nat i) array
      /\ Forall (fun c => 1 <= Z.of_nat (length c) <= size) rest
      /\ (forall j c, rest !! j = Some c -> (S j < length rest)%nat ->
                      Z.of_nat (length c) = size).
Proof.
  intros Hsize. induction fuel as [| fuel IH]; intros i acc Hi Hfuel.
  - exists []. cbn.
    destruct (Z.ltb_spec i (Z.of_nat (length array))); [lia |].
    rewrite app_nil_r, drop_ge by lia. repeat split; [constructor |].
    intros j c Hj. by rewrite lookup_nil in Hj.
  - cbn [chunk_loop].
    destruct (Z.ltb_spec i (Z.of_nat (length array))) as [Hin | Hout].
    2:{ exists []. rewrite app_nil_r, drop_ge by lia.
        repeat split; [constructor |].
        intros j c Hj. by rewrite lookup_nil in Hj. }
    destruct (IH (i + size) (acc ++ [slice i (i + size) array]))
      as (rest & Hrun & Hconcat & Hsizes & Hfull); [lia | lia |].
    rewrite slice_forward in * by lia.
    set (c := take (Z.to_nat size) (drop (Z.to_nat i) array)) in *.
    assert (Z.of_nat (length c)
            = Z.min size (Z.of_nat (length array) - i)) as Hc.
    { unfold c. rewrite length_take, length_drop. lia. }
    exists (c :: rest). rewrite Hrun, <- app_assoc. split; [done |].
    split; [| split].
    + cbn [concat]. rewrite Hconcat. unfold c.
      replace (Z.to_nat (i + size)) with (Z.to_nat i + Z.to_nat size)%nat by lia.
      rewrite <- drop_drop. apply take_drop.
    + constructor; [lia | done].
    + intros [| j] c' Hj Hlen; cbn in Hj, Hlen.
      * injection Hj as <-. rewrite Hc.
        destruct rest as [| c1 rest]; [cbn in Hlen; lia |].
        apply Forall_cons in Hsizes as [Hc1 _].
        assert (length (concat (c1 :: rest)) <> 0%nat) as Hsome.
        { cbn [concat]. rewrite length_app. lia. }
        rewrite Hconcat, length_drop in Hsome. lia.
      * apply (Hfull j c' Hj). lia.
Qed.

Lemma chunk_loop_spins (array : list A) (size : Z) (fuel : nat) :
  size <= 0 -> array <> [] ->
  forall i acc, i <= 0 -> chunk_loop fuel array size i acc = None.
Proof.
  intros Hsize Harray.
  assert (0 < Z.of_nat (length array)) as Hlen.
  { destruct array; [done | cbn; lia]. }
  induction fuel as [| fuel IH]; intros i acc Hi; cbn [chunk_loop];
    destruct (Z.ltb_spec i (Z.of_nat (length array))); try lia; [done |].
  apply IH. lia.
Qed.

End ChunkFacts.

(** [chunk] with a size of 1 or more: the loop ends within [array.length]
    iterations, and the chunks, put one after the other, are the array;
    every chunk has between 1 and [size] elements, and every chunk but the
    last has exactly [size]. *)
Theorem chunk_partitions {A : Type} (array : list A) (size : Z) (fuel : nat) :
  1 <= size ->
  (length array <= fuel)%nat ->
  exists chunks,
    chunk fuel array size = Some chunks
    /\ concat chunks = array
    /\ Forall (fun c => 1 <= Z.of_nat (length c) <= size) chunks
    /\ (forall j c, chunks !! j = Some c -> (S j < length chunks)%nat ->
                    Z.of_nat (length c) = size).
Proof.
  intros Hsize Hfuel.
  destruct (chunk_loop_runs array size fuel Hsize 0 []) as (rest & E & H1 & H2 & H3);
    [lia | lia |].
  exists rest. unfold chunk. rewrite E. repeat split; done.
Qed.

Lemma chunk_partitions_witness :
  exists chunks,
    chunk 5 [1; 2; 3; 4; 5] 2 = Some chunks
    /\ concat chunks = [1; 2; 3; 4; 5]
    /\ Forall (fun c => 1 <= Z.of_nat (length c) <= 2) chunks
    /\ (forall j c, chunks !! j = Some c -> (S j < length chunks)%nat ->
                    Z.of_nat (length c) = 2).
Proof.
  apply (chunk_partitions [1; 2; 3; 4; 5] 2 5); [lia | cbn; lia].
Defined.

(** [chunk] with a size of 0 or less, on an array that is not empty: the
    loop never ends, since [i] never reaches the length. *)
Theorem chunk_needs_a_positive_size {A : Type} (array : list A) (size : Z) :
  size <= 0 -> array <> [] ->
  forall fuel, chunk fuel array size = None.
Proof.
  intros Hsize Harray fuel. by apply chunk_loop_spins.
Qed.

Lemma chunk_needs_a_positive_size_witness :
  chunk 1000 [1; 2; 3] 0 = None /\ chunk 1000 [1; 2; 3] (-2) = None.
Proof.
  split.
  - apply (chunk_needs_a_positive_size [1; 2; 3] 0); [lia | done].
  - apply (chunk_needs_a_positive_size [1; 2; 3] (-2)); [lia | done].
Defined.

(* ===================================================================== *)
(** * helpers.js: debounce, throttle, memoize *)
(* ===================================================================== *)

Section DebounceFacts.
Context {S A : Type} (func : A -> S -> S).

Lemma last_cons_default (b a : A) (rest : list A) :
  List.last (b :: rest) a = List.last rest b.
Proof.
  revert a b. induction rest as [| c rest IH]; intros a b; [done |].
  change (List.last (b :: c :: rest) a) with (List.last (c :: rest) a).
  by rewrite (IH a c), (IH b c).
Qed.

Lemma debounce_calls_trailing (argss : list A) (timeout : option A) (st : S) :
  debounce_calls func false argss timeout st
  = (match argss with [] => timeout | a :: rest => Some (List.last rest a) end,
     st).
Proof.
  revert timeout. induction argss as [| a rest IH]; intros timeout; [done |].
  unfold debounce_calls in *. cbn [fold_left]. unfold debounce.call at 2.
  cbn [fst snd andb]. rewrite IH.
  destruct rest as [| b rest]; [done |]. f_equal. f_equal.
  symmetry. apply last_cons_default.
Qed.

Lemma debounce_calls_armed (argss : list A) (armed : A) (st : S) :
  debounce_calls func true argss (Some armed) st
  = (Some (List.last argss armed), st).
Proof.
  revert armed. induction argss as [| a rest IH]; intros armed; [done |].
  unfold debounce_calls in *. cbn [fold_left]. unfold debounce.call at 2.
  cbn [fst snd]. rewrite bool_decide_eq_true_2 by done. cbn [negb andb].
  rewrite IH. by rewrite last_cons_default.
Qed.

Lemma throttle_calls_throttled (argss : list A) (st : S) :
  throttle.calls func argss true st = (true, st).
Proof.
  induction argss as [| a rest IH]; [done |].
  unfold throttle.calls in *. cbn [fold_left]. exact IH.
Qed.

End DebounceFacts.

(** [debounce]: of a burst of calls made before the timer fires, only one
    reaches the function.  Without [immediate] nothing runs during the burst
    and the firing timer runs the function once, on the arguments of the
    last call; with [immediate] the first call runs the function at once, on
    its own arguments, the others are dropped and the timer runs nothing.
    Either way the timer leaves the debounced function idle. *)
Theorem debounce_runs_once {S A : Type} (func : A -> S -> S)
    (first : A) (more : list A) (st : S) :
  (let '(timeout, st') := debounce_calls func false (first :: more) None st in
   st' = st
   /\ debounce.fire func false timeout st'
      = (None, func (List.last more first) st))
  /\ (let '(timeout, st') := debounce_calls func true (first :: more) None st in
      st' = func first st
      /\ debounce.fire func true timeout st' = (None, func first st)).
Proof.
  split.
  - rewrite debounce_calls_trailing. by split.
  - unfold debounce_calls. cbn [fold_left]. unfold debounce.call at 2.
    cbn [fst snd]. rewrite bool_decide_eq_false_2 by (by intros [? ?]).
    cbn [negb andb].
    pose proof (debounce_calls_armed func more first (func first st)) as E.
    unfold debounce_calls in E. rewrite E. by split.
Qed.

(** [throttle]: the first call of a burst runs the function, on its own
    arguments; every further call is dropped until the timer has fired,
    after which the next call runs again. *)
Theorem throttle_runs_first {S A : Type} (func : A -> S -> S)
    (first next : A) (more : list A) (st : S) :
  throttle.calls func (first :: more) false st = (true, func first st)
  /\ (let '(inThrottle, st') := throttle.fire true (func first st) in
      throttle.calls func [next] inThrottle st'
      = (true, func next (func first st))).
Proof.
  split; [| reflexivity].
  unfold throttle.calls. cbn [fold_left]. unfold throttle.call at 2.
  cbn [fst snd negb]. apply throttle_calls_throttled.
Qed.

Section MemoizeFacts.
Context {J : JsonRuntime} {laws : JsonLaws J} {B : Type} (fn : list json -> B).

Lemma memoize_calls_inv (argss : list (list json)) (st : memoize.State) :
  (forall key r,
      memoize.cache st !! key = Some r ->
      exists args,
        args ∈ memoize.ran st /\ key = JSON_stringify (JArr args)
        /\ r = fn args) ->
  (forall args,
      args ∈ memoize.ran st ->
      memoize.cache st !! JSON_stringify (JArr args) = Some (fn args)) ->
  NoDup (memoize.ran st) ->
  fst (memoize.calls fn argss st) = map fn argss
  /\ NoDup (memoize.ran (snd (memoize.calls fn argss st)))
  /\ (forall args,
        args ∈ memoize.ran (snd (memoize.calls fn argss st))
        <-> args ∈ memoize.ran st \/ args ∈ argss).
Proof.
  revert st. induction argss as [| args rest IH]; intros st Hcache Hran Hnodup.
  { cbn. repeat split; [done | tauto |]. intros [? | Hin]; [done |].
    by apply elem_of_nil in Hin. }
  cbn [memoize.calls]. unfold memoize.call.
  destruct (memoize.cache st !! JSON_stringify (JArr args)) as [r |] eqn:Hkey.
  - destruct (Hcache _ _ Hkey) as (args' & Hin & Hsame & ->).
    apply JSON_stringify_inj in Hsame. injection Hsame as <-.
    specialize (IH st Hcache Hran Hnodup).
    destruct (memoize.calls fn rest st) as [results st'].
    cbn [fst snd map] in *. destruct IH as (-> & Hnd & Hmem).
    split; [done |]. split; [done |].
    intros a. rewrite Hmem, elem_of_cons.
    split; [tauto |]. intros [? | [-> | ?]]; tauto.
  - assert (args ∉ memoize.ran st) as Hnew.
    { intros Hin. specialize (Hran _ Hin). congruence. }
    set (st1 := {| memoize.cache :=
                     <[JSON_stringify (JArr args) := fn args]> (memoize.cache st);
                   memoize.ran := memoize.ran st ++ [args] |}).
    specialize (IH st1).
    destruct (memoize.calls fn rest st1) as [results st'].
    cbn [fst snd map] in *.
    destruct IH as (-> & Hnd & Hmem).
    + intros key r. cbn. intros Hlook.
      destruct (decide (key = JSON_stringify (JArr args))) as [-> | Hne].
      * rewrite lookup_insert_eq in Hlook. injection Hlook as <-.
        exists args. rewrite elem_of_app, list_elem_of_singleton. tauto.
      * rewrite lookup_insert_ne in Hlook by done.
        destruct (Hcache _ _ Hlook) as (a & Ha & -> & ->).
        exists a. rewrite elem_of_app. tauto.
    + intros a. cbn. rewrite elem_of_app, list_elem_of_singleton.
      intros [Ha | ->]; [| apply lookup_insert_eq].
      rewrite lookup_insert_ne; [by apply Hran |].
      intros Hsame. apply JSON_stringify_inj in Hsame.
      injection Hsame as ->. done.
    + cbn. apply NoDup_app. split; [done |]. split; [| apply NoDup_singleton].
      intros a Ha ->%list_elem_of_singleton. done.
    + split; [done |]. split; [done |].
      intros a. rewrite Hmem. cbn.
      rewrite elem_of_app, list_elem_of_singleton, elem_of_cons. tauto.
Qed.

End MemoizeFacts.

(** [memoize], for a function that depends on its arguments only: every
    call of the memoized function returns what the function returns on the
    same arguments, and the function itself is run once for every list of
    arguments that occurs, at its first occurrence, and on nothing else. *)
Theorem memoize_runs_once {J : JsonRuntime} {laws : JsonLaws J} {B : Type}
    (fn : list json -> B) (argss : list (list json)) :
  let '(results, st) := memoize.calls fn argss memoize.fresh in
  results = map fn argss
  /\ NoDup (memoize.ran st)
  /\ (forall args, args ∈ memoize.ran st <-> args ∈ argss).
Proof.
  pose proof (memoize_calls_inv fn argss memoize.fresh) as Hinv.
  destruct (memoize.calls fn argss memoize.fresh) as [results st].
  cbn [fst snd] in Hinv.
  destruct Hinv as (-> & Hnd & Hmem).
  - intros key r. cbn. by rewrite lookup_empty.
  - intros args Hin. by apply elem_of_nil in Hin.
  - constructor.
  - split; [done |]. split; [done |].
    intros args. rewrite Hmem. cbn. rewrite elem_of_nil. tauto.
Qed.

Lemma memoize_runs_once_witness :
  let square (args : list json) : Z :=
    match args with [JNum n] => n * n | _ => 0 end in
  let '(results, st) :=
    memoize.calls (H := reference_runtime) square
      [[JNum 3]; [JNum 4]; [JNum 3]] memoize.fresh in
  results = [9; 16; 9]
  /\ NoDup (memoize.ran st)
  /\ (forall args,
        args ∈ memoize.ran st <-> args ∈ [[JNum 3]; [JNum 4]; [JNum 3]]).
Proof.
  intros square.
  exact (memoize_runs_once (laws := reference_lawful) square
           [[JNum 3]; [JNum 4]; [JNum 3]]).
Defined.

(* ===================================================================== *)
(** * helpers.js: colours *)
(* ===================================================================== *)

Section ColourFacts.

Lemma hex_value_hex_digit (d : N) :
  (d < 16)%N -> JsonText.hex_value (JsonText.hex_digit d) = Some d.
Proof.
  intros Hd.
  assert (d ∈ (N.of_nat <$> seq 0 16)) as Hin.
  { apply list_elem_of_fmap. exists (N.to_nat d). split; [lia |].
    apply elem_of_seq. lia. }
  cbn in Hin. repeat (apply elem_of_cons in Hin as [-> | Hin]; [reflexivity |]).
  by apply elem_of_nil in Hin.
Qed.

Lemma digits_step (fuel : nat) (q d : N) (acc : string) :
  (d < 16)%N -> (0 < 16 * q + d)%N ->
  Radix16.digits (S fuel) (16 * q + d) acc
  = Radix16.digits fuel q (String (JsonText.hex_digit d) acc).
Proof.
  intros Hd Hpos. cbn [Radix16.digits].
  destruct (N.eqb_spec (16 * q + d) 0); [lia |].
  replace ((16 * q + d) / 16)%N with q
    by (apply (N.div_unique _ 16 q d); lia).
  replace ((16 * q + d) mod 16)%N with d
    by (apply (N.mod_unique _ 16 q d); lia).
  done.
Qed.

Lemma digits_0 (fuel : nat) (acc : string) : Radix16.digits fuel 0 acc = acc.
Proof. by destruct fuel. Qed.

Lemma ToInt32_small (x : Z) : 0 <= x < 2 ^ 31 -> Num.ToInt32 x = x.
Proof.
  intros Hx. unfold Num.ToInt32. change (2 ^ 32) with 4294967296.
  change (2 ^ 31) with 2147483648 in *.
  rewrite Z.mod_small by lia.
  destruct (Z.ltb_spec x 2147483648); lia.
Qed.

Lemma shl_small (x n : Z) :
  0 <= n < 32 -> 0 <= x -> x * 2 ^ n < 2 ^ 31 -> Num.shl x n = x * 2 ^ n.
Proof.
  intros Hn Hx Hfit. unfold Num.shl, Num.ToUint32.
  change (2 ^ 32) with 4294967296.
  rewrite (Z.mod_small n 4294967296) by lia.
  rewrite (Z.mod_small n 32) by lia.
  assert (0 < 2 ^ n) by (apply Z.pow_pos_nonneg; lia).
  rewrite (ToInt32_small x) by nia.
  rewrite Z.shiftl_mul_pow2 by lia.
  apply ToInt32_small. nia.
Qed.

(** The seven digits of [2^24 + 65536 r + 256 g + b]. *)
Lemma toString_packed (r g b : Z) :
  0 <= r <= 255 -> 0 <= g <= 255 -> 0 <= b <= 255 ->
  Radix16.toString (16777216 + r * 65536 + g * 256 + b)
  = String "1"
      (String (JsonText.hex_digit (Z.to_N (r / 16)))
      (String (JsonText.hex_digit (Z.to_N (r mod 16)))
      (String (JsonText.hex_digit (Z.to_N (g / 16)))
      (String (JsonText.hex_digit (Z.to_N (g mod 16)))
      (String (JsonText.hex_digit (Z.to_N (b / 16)))
      (String (JsonText.hex_digit (Z.to_N (b mod 16))) "")))))).
Proof.
  intros Hr Hg Hb. unfold Radix16.toString.
  set (v := 16777216 + r * 65536 + g * 256 + b).
  assert (16777216 <= v < 33554432) as Hv by (unfold v; lia).
  destruct (Z.eqb_spec v 0); [lia |].
  destruct (Z.ltb_spec v 0); [lia |].
  rewrite StrFacts.append_nil, Z.abs_eq by lia.
  assert (16777216 <= Z.to_N v < 33554432)%N as HvN by lia.
  assert (N.log2 (Z.to_N v) = 24%N) as ->.
  { apply N.log2_unique; [lia |]. exact HvN. }
  change (S (N.to_nat 24)) with 25%nat.
  set (r1 := Z.to_N (r / 16)). set (r0 := Z.to_N (r mod 16)).
  set (g1 := Z.to_N (g / 16)). set (g0 := Z.to_N (g mod 16)).
  set (b1 := Z.to_N (b / 16)). set (b0 := Z.to_N (b mod 16)).
  pose proof (Z.div_mod r 16 ltac:(lia)) as Er.
  pose proof (Z.div_mod g 16 ltac:(lia)) as Eg.
  pose proof (Z.div_mod b 16 ltac:(lia)) as Eb.
  pose proof (Z.mod_pos_bound r 16 ltac:(lia)).
  pose proof (Z.mod_pos_bound g 16 ltac:(lia)).
  pose proof (Z.mod_pos_bound b 16 ltac:(lia)).
  assert (0 <= r / 16 < 16) by (split; [apply Z.div_pos | apply Z.div_lt_upper_bound]; lia).
  assert (0 <= g / 16 < 16) by (split; [apply Z.div_pos | apply Z.div_lt_upper_bound]; lia).
  assert (0 <= b / 16 < 16) by (split; [apply Z.div_pos | apply Z.div_lt_upper_bound]; lia).
  replace (Z.to_N v)
    with (16 * (16 * (16 * (16 * (16 * (16 * 1 + r1) + r0) + g1) + g0) + b1) + b0)%N
    by (unfold v, r1, r0, g1, g0, b1, b0; lia).
  rewrite !digits_step by (unfold r1, r0, g1, g0, b1, b0; lia).
  replace 1%N with (16 * 0 + 1)%N by lia.
  rewrite digits_step by lia.
  by rewrite digits_0.
Qed.

End ColourFacts.

Section ColourRoundTrip.

Lemma is_hex_hex_digit (d : N) : (d < 16)%N -> is_hex (JsonText.hex_digit d) = true.
Proof. intros Hd. unfold is_hex. by rewrite hex_value_hex_digit. Qed.

Lemma Matches_hex_group (c1 c2 : ascii) :
  is_hex c1 = true -> is_hex c2 = true ->
  Matches (RegExp.Cat (RegExp.Class is_hex) (RegExp.Class is_hex))
          (String c1 (String c2 "")).
Proof.
  intros H1 H2. change (String c1 (String c2 "")) with (String c1 "" +:+ String c2 "").
  constructor; by constructor.
Qed.

Lemma Matches_hexRegex (c1 c2 c3 c4 c5 c6 : ascii) :
  is_hex c1 = true -> is_hex c2 = true -> is_hex c3 = true ->
  is_hex c4 = true -> is_hex c5 = true -> is_hex c6 = true ->
  Matches hexRegex
    (String "#" (String c1 (String c2 (String c3 (String c4 (String c5 (String c6 ""))))))).
Proof.
  intros H1 H2 H3 H4 H5 H6. unfold hexRegex.
  change (String "#" (String c1 (String c2 (String c3 (String c4 (String c5 (String c6 "")))))))
    with ("#" +:+ (String c1 (String c2 "")
                   +:+ (String c3 (String c4 "") +:+ String c5 (String c6 "")))).
  constructor.
  - apply MAltR. by constructor.
  - constructor; [by apply Matches_hex_group |].
    constructor; by apply Matches_hex_group.
Qed.

Lemma parseInt_two (d1 d0 : N) :
  (d1 < 16)%N -> (d0 < 16)%N ->
  Radix16.parseInt
    (String (JsonText.hex_digit d1) (String (JsonText.hex_digit d0) ""))
  = Some (16 * Z.of_N d1 + Z.of_N d0).
Proof.
  intros H1 H0. unfold Radix16.parseInt. cbn [Radix16.parse_from].
  rewrite !hex_value_hex_digit by done. cbn [default from_option id].
  f_equal; lia.
Qed.

End ColourRoundTrip.

(** Colours survive the round trip: for channels between 0 and 255,
    [rgbToHex] gives a [#] and six hexadecimal digits, and [hexToRgb] reads
    the three channels back from them. *)
Theorem rgbToHex_hexToRgb (r g b : Z) :
  0 <= r <= 255 -> 0 <= g <= 255 -> 0 <= b <= 255 ->
  hexToRgb (rgbToHex r g b) = Some {| rgb_r := r; rgb_g := g; rgb_b := b |}
  /\ String.length (rgbToHex r g b) = 7%nat
  /\ RegExp.test hexRegex (rgbToHex r g b) = true.
Proof.
  intros Hr Hg Hb. unfold rgbToHex.
  rewrite !shl_small by (change (2 ^ 31) with 2147483648; lia).
  change (1 * 2 ^ 24) with 16777216. change (2 ^ 16) with 65536.
  change (2 ^ 8) with 256.
  rewrite toString_packed by done.
  change (Text.slice_from 1 (String "1" ?s)) with s.
  pose proof (Z.mod_pos_bound r 16 ltac:(lia)).
  pose proof (Z.mod_pos_bound g 16 ltac:(lia)).
  pose proof (Z.mod_pos_bound b 16 ltac:(lia)).
  assert (0 <= r / 16 < 16) by (split; [apply Z.div_pos | apply Z.div_lt_upper_bound]; lia).
  assert (0 <= g / 16 < 16) by (split; [apply Z.div_pos | apply Z.div_lt_upper_bound]; lia).
  assert (0 <= b / 16 < 16) by (split; [apply Z.div_pos | apply Z.div_lt_upper_bound]; lia).
  set (r1 := Z.to_N (r / 16)). set (r0 := Z.to_N (r mod 16)).
  set (g1 := Z.to_N (g / 16)). set (g0 := Z.to_N (g mod 16)).
  set (b1 := Z.to_N (b / 16)). set (b0 := Z.to_N (b mod 16)).
  assert (r1 < 16 /\ r0 < 16 /\ g1 < 16 /\ g0 < 16 /\ b1 < 16 /\ b0 < 16)%N
    as (? & ? & ? & ? & ? & ?) by (unfold r1, r0, g1, g0, b1, b0; lia).
  rewrite StrFacts.append_cons, StrFacts.append_nil.
  assert (RegExp.test hexRegex
            (String "#"
               (String (JsonText.hex_digit r1) (String (JsonText.hex_digit r0)
               (String (JsonText.hex_digit g1) (String (JsonText.hex_digit g0)
               (String (JsonText.hex_digit b1) (String (JsonText.hex_digit b0) "")))))))
          = true) as Htest.
  { apply test_Matches. apply Matches_hexRegex; by apply is_hex_hex_digit. }
  split; [| split; [reflexivity | exact Htest]].
  unfold hexToRgb. rewrite Htest.
  cbn [String.substring].
  rewrite !parseInt_two by done. f_equal.
  pose proof (Z.div_mod r 16 ltac:(lia)).
  pose proof (Z.div_mod g 16 ltac:(lia)).
  pose proof (Z.div_mod b 16 ltac:(lia)).
  unfold r1, r0, g1, g0, b1, b0. f_equal; lia.
Qed.

Lemma rgbToHex_hexToRgb_witness :
  hexToRgb (rgbToHex 25 118 210)
  = Some {| rgb_r := 25; rgb_g := 118; rgb_b := 210 |}
  /\ String.length (rgbToHex 25 118 210) = 7%nat
  /\ RegExp.test hexRegex (rgbToHex 25 118 210) = true.
Proof. apply (rgbToHex_hexToRgb 25 118 210); lia. Defined.

(* ===================================================================== *)
(** * helpers.js: phone numbers and slugs *)
(* ===================================================================== *)

Section ReplaceFacts.
Context (cls : ascii -> bool).

Lemma all_in_app (p : ascii -> bool) (a b : string) :
  all_in p (a +:+ b) = all_in p a && all_in p b.
Proof.
  induction a as [| c a IH]; [reflexivity |].
  rewrite StrFacts.append_cons. cbn. by rewrite IH, andb_assoc.
Qed.

(** Removing the runs of a class removes its characters. *)
Lemma replace_runs_from_without (run s : string) :
  replace_runs_from cls 1 "" run s = without cls s.
Proof.
  revert run. induction s as [| c s IH]; intros run; cbn.
  - unfold replaced. destruct (String.eqb run ""); [done |].
    by destruct (1 <=? String.length run)%nat eqn:E;
      [| apply Nat.leb_gt in E; destruct run; cbn in E; [| lia]].
  - destruct (cls c); [apply IH |].
    rewrite IH. unfold replaced.
    destruct (String.eqb_spec run "") as [-> | Hne]; [done |].
    destruct run as [| x run]; [done |]. reflexivity.
Qed.

Lemma replace_runs_without (s : string) :
  replace_runs cls 1 "" s = without cls s.
Proof. apply replace_runs_from_without. Qed.

End ReplaceFacts.

Section PhoneFacts.

Lemma Matches_Eps (s : string) : Matches RegExp.Eps s <-> s = ""%string.
Proof. split; [by inversion 1 | intros ->; constructor]. Qed.

Lemma Matches_Alt (r1 r2 : RegExp.t) (s : string) :
  Matches (RegExp.Alt r1 r2) s <-> Matches r1 s \/ Matches r2 s.
Proof.
  split.
  - inversion 1; subst; tauto.
  - intros [? | ?]; [by apply MAltL | by apply MAltR].
Qed.

Lemma Matches_UpTo_Class (p : ascii -> bool) (n : nat) (s : string) :
  Matches (UpTo n (RegExp.Class p)) s
  <-> all_in p s = true /\ (String.length s <= n)%nat.
Proof.
  revert s. induction n as [| n IH]; intros s; cbn [UpTo].
  - rewrite Matches_Eps. split; [by intros -> |].
    intros [_ Hlen]. destruct s; [done | cbn in Hlen; lia].
  - rewrite Matches_Alt, Matches_Eps, Matches_Cat. split.
    + intros [-> | (s1 & s2 & -> & (c & -> & Hc)%Matches_Class & H2%IH)].
      * cbn. split; [done | lia].
      * rewrite StrFacts.append_cons, StrFacts.append_nil. cbn.
        rewrite Hc. destruct H2. split; [done | lia].
    + destruct s as [| c s]; [by left |]. cbn.
      intros [[Hc Hs]%andb_true_iff Hlen]. right.
      exists (String c ""), s. split; [reflexivity |].
      split; [by apply Matches_Class; eauto |]. apply IH. split; [done | lia].
Qed.

End PhoneFacts.

(** [isValidPhone]: a phone number is accepted exactly when, with its
    white space taken out, it is an optional [+], a digit from 1 to 9, and
    at most 15 more digits. *)
Theorem isValidPhone_spec (phone : string) :
  isValidPhone phone = true
  <-> exists sign first more,
        without Str.is_space phone = (sign +:+ String first more)%string
        /\ (sign = ""%string \/ sign = "+"%string)
        /\ is_1to9 first = true
        /\ all_in Str.is_digit more = true
        /\ (String.length more <= 15)%nat.
Proof.
  unfold isValidPhone, phoneRegex, Optional.
  rewrite replace_runs_without, test_Matches, Matches_Cat. split.
  - intros (s1 & s2 & -> & Hsign%Matches_Alt
            & (s3 & s4 & -> & (c & -> & Hc)%Matches_Class
               & [Hd Hlen]%Matches_UpTo_Class)%Matches_Cat).
    exists s1, c, s4. rewrite StrFacts.append_cons, StrFacts.append_nil.
    split; [done |]. split; [| done].
    destruct Hsign as [->%Matches_Eps | (plus & -> & Hplus)%Matches_Class];
      [by left | right].
    unfold is_char in Hplus. apply Ascii.eqb_eq in Hplus. by subst.
  - intros (sign & first & more & -> & Hsign & Hfirst & Hmore & Hlen).
    exists sign, (String first more). split; [done |]. split.
    + apply Matches_Alt. destruct Hsign as [-> | ->]; [left | right].
      * constructor.
      * by apply Matches_Class; eauto.
    + apply Matches_Cat. exists (String first ""), more.
      split; [reflexivity |]. split; [by apply Matches_Class; eauto |].
      by apply Matches_UpTo_Class.
Qed.

Section SlugFacts.

Ltac by_cases_on c :=
  destruct c as [[] [] [] [] [] [] [] []];
  vm_compute; intros; first [reflexivity | discriminate | congruence].

(** Characters. *)
Lemma lower_not_upper (c : ascii) : negb (is_upper (Str.lower c)) = true.
Proof. by_cases_on c. Qed.

Lemma word_not_upper_is_slug_char (c : ascii) :
  negb (is_upper c) = true ->
  negb (negb (is_word c || is_char "-" c)) = true ->
  slug_char c = true.
Proof. revert c. intros c. by_cases_on c. Qed.

Lemma slug_char_lower (c : ascii) : slug_char c = true -> Str.lower c = c.
Proof. by_cases_on c. Qed.

Lemma slug_char_no_space (c : ascii) :
  slug_char c = true -> negb (Str.is_space c) = true.
Proof. by_cases_on c. Qed.

Lemma slug_char_word (c : ascii) :
  slug_char c = true -> negb (negb (is_word c || is_char "-" c)) = true.
Proof. by_cases_on c. Qed.

Lemma is_hyphen (c : ascii) : is_char "-" c = true -> c = "-"%char.
Proof. unfold is_char. intros H%Ascii.eqb_eq. by subst. Qed.

(** [all_in] along the steps. *)
Lemma all_in_impl (p q : ascii -> bool) (s : string) :
  (forall c, p c = true -> q c = true) -> all_in p s = true -> all_in q s = true.
Proof.
  intros Hpq. induction s as [| c s IH]; cbn; [done |].
  intros [Hc Hs]%andb_true_iff. by rewrite (Hpq c Hc), IH.
Qed.

Lemma all_in_and (p q : ascii -> bool) (s : string) :
  all_in p s = true -> all_in q s = true ->
  all_in (fun c => p c && q c) s = true.
Proof.
  induction s as [| c s IH]; cbn; [done |].
  intros [Hc Hs]%andb_true_iff [Hc' Hs']%andb_true_iff.
  by rewrite Hc, Hc', IH.
Qed.

Lemma all_in_toLowerCase (s : string) :
  all_in (fun c => negb (is_upper c)) (Str.toLowerCase s) = true.
Proof.
  induction s as [| c s IH]; cbn; [done |].
  by rewrite lower_not_upper, IH.
Qed.

Lemma all_in_strip_start (p cls : ascii -> bool) (s : string) :
  all_in p s = true -> all_in p (strip_start cls s) = true.
Proof.
  induction s as [| c s IH]; cbn; [done |].
  intros [Hc Hs]%andb_true_iff.
  destruct (cls c); [by apply IH | cbn; by rewrite Hc, Hs].
Qed.

Lemma all_in_strip_end (p cls : ascii -> bool) (s : string) :
  all_in p s = true -> all_in p (strip_end cls s) = true.
Proof.
  induction s as [| c s IH]; cbn; [done |].
  intros [Hc Hs]%andb_true_iff. specialize (IH Hs).
  destruct (strip_end cls s); [destruct (cls c); cbn; by rewrite ?Hc |].
  cbn in *. by rewrite Hc, IH.
Qed.

Lemma trimStart_strip (s : string) : Str.trimStart s = strip_start Str.is_space s.
Proof. induction s as [| c s IH]; cbn; [done |]. by rewrite IH. Qed.

Lemma trimEnd_strip (s : string) : Str.trimEnd s = strip_end Str.is_space s.
Proof. induction s as [| c s IH]; cbn; [done |]. by rewrite IH. Qed.

Lemma all_in_trim (p : ascii -> bool) (s : string) :
  all_in p s = true -> all_in p (Str.trim s) = true.
Proof.
  intros Hs. unfold Str.trim. rewrite trimEnd_strip, trimStart_strip.
  by apply all_in_strip_end, all_in_strip_start.
Qed.

Lemma all_in_replaced (p cls : ascii -> bool) (least : nat) (by_ run : string) :
  all_in p by_ = true -> all_in p run = true ->
  all_in p (replaced least by_ run) = true.
Proof.
  intros Hby Hrun. unfold replaced.
  destruct (String.eqb run ""); [done |].
  by destruct (least <=? String.length run)%nat.
Qed.

Lemma all_in_replace_runs_from (p cls : ascii -> bool) (least : nat)
    (by_ run s : string) :
  all_in p by_ = true -> all_in p run = true -> all_in p s = true ->
  all_in p (replace_runs_from cls least by_ run s) = true.
Proof.
  intros Hby. revert run. induction s as [| c s IH]; intros run Hrun; cbn.
  - intros _. by apply (all_in_replaced p cls).
  - intros [Hc Hs]%andb_true_iff. destruct (cls c).
    + apply IH; [| done]. rewrite all_in_app, Hrun. cbn. by rewrite Hc.
    + rewrite all_in_app, (all_in_replaced p cls) by done. cbn.
      rewrite Hc. by apply IH.
Qed.

Lemma all_in_replace_runs (p cls : ascii -> bool) (least : nat) (by_ s : string) :
  all_in p by_ = true -> all_in p s = true ->
  all_in p (replace_runs cls least by_ s) = true.
Proof. intros Hby Hs. by apply all_in_replace_runs_from. Qed.

Lemma all_in_without (cls : ascii -> bool) (s : string) :
  all_in (fun c => negb (cls c)) (without cls s) = true.
Proof.
  induction s as [| c s IH]; cbn; [done |].
  destruct (cls c) eqn:Hc; [done |]. cbn. by rewrite Hc, IH.
Qed.

End SlugFacts.

Section SlugShape.
Local Arguments is_char : simpl never.

Lemma replaced_hyphens (run : string) :
  all_in (is_char "-") run = true ->
  replaced 2 "-" run = ""%string \/ replaced 2 "-" run = "-"%string.
Proof.
  intros Hrun. unfold replaced.
  destruct run as [| c [| c' run]]; cbn; [by left | | by right].
  cbn in Hrun. rewrite andb_true_r in Hrun.
  apply is_hyphen in Hrun as ->. by right.
Qed.

Lemma no_double_after (x : string) (c : ascii) (s : string) :
  x = ""%string \/ x = "-"%string -> (is_char "-") c = false ->
  no_double (is_char "-") s = true -> no_double (is_char "-") (x +:+ String c s) = true.
Proof.
  intros [-> | ->] Hc Hs.
  - rewrite StrFacts.append_nil. cbn [no_double]. destruct s; [done |].
    by rewrite Hc.
  - rewrite StrFacts.append_cons, StrFacts.append_nil.
    cbn [no_double]. rewrite Hc, andb_false_r. destruct s; [done |].
    exact Hs.
Qed.

Lemma no_double_replace_runs_from (run s : string) :
  all_in (is_char "-") run = true ->
  no_double (is_char "-") (replace_runs_from (is_char "-") 2 "-" run s) = true.
Proof.
  revert run. induction s as [| c s IH]; intros run Hrun; cbn.
  - by destruct (replaced_hyphens run Hrun) as [-> | ->].
  - destruct ((is_char "-") c) eqn:Hc.
    + apply IH. rewrite all_in_app, Hrun. cbn. by rewrite Hc.
    + apply no_double_after; [by apply replaced_hyphens | done | by apply IH].
Qed.

Lemma no_double_tail (c : ascii) (s : string) :
  no_double (is_char "-") (String c s) = true -> no_double (is_char "-") s = true.
Proof. cbn. destruct s; [done |]. by intros [_ ?]%andb_true_iff. Qed.

Lemma no_double_strip_start (s : string) :
  no_double (is_char "-") s = true -> no_double (is_char "-") (strip_start (is_char "-") s) = true.
Proof.
  induction s as [| c s IH]; [done |]. intros Hs. cbn [strip_start].
  destruct ((is_char "-") c); [| done]. apply IH. by apply no_double_tail in Hs.
Qed.

Lemma strip_end_first (cls : ascii -> bool) (s : string) (c : ascii) (kept : string) :
  strip_end cls s = String c kept -> exists rest, s = String c rest.
Proof.
  destruct s as [| x s]; cbn; [done |].
  destruct (strip_end cls s); [destruct (cls x) |]; intros [= -> _]; eauto.
Qed.

Lemma no_double_strip_end (s : string) :
  no_double (is_char "-") s = true -> no_double (is_char "-") (strip_end (is_char "-") s) = true.
Proof.
  induction s as [| c s IH]; [done |]. intros Hs. cbn [strip_end].
  pose proof (no_double_tail _ _ Hs) as Htail. specialize (IH Htail).
  destruct (strip_end (is_char "-") s) as [| b kept] eqn:E; [by destruct ((is_char "-") c) |].
  destruct (strip_end_first _ _ _ _ E) as [rest ->].
  cbn in Hs |- *. apply andb_true_iff in Hs as [Hcb _].
  rewrite Hcb. exact IH.
Qed.

Lemma first_char_strip_start (s : string) :
  first_char (strip_start (is_char "-") s) <> Some "-"%char.
Proof.
  induction s as [| c s IH]; cbn; [done |].
  destruct ((is_char "-") c) eqn:Hc; [done |]. cbn. intros [= ->]. done.
Qed.

Lemma first_char_strip_end (s : string) :
  first_char s <> Some "-"%char -> first_char (strip_end (is_char "-") s) <> Some "-"%char.
Proof.
  destruct s as [| c s]; cbn; [done |]. intros Hc.
  destruct (strip_end (is_char "-") s); [destruct ((is_char "-") c) |]; done.
Qed.

Lemma last_char_strip_end (s : string) :
  last_char (strip_end (is_char "-") s) <> Some "-"%char.
Proof.
  induction s as [| c s IH]; cbn; [done |].
  destruct (strip_end (is_char "-") s) as [| b kept].
  - destruct ((is_char "-") c) eqn:Hc; cbn; [done |]. intros [= ->]. done.
  - exact IH.
Qed.

End SlugShape.

Lemma slugify_shape (text : string) : is_slug (slugify text).
Proof.
  unfold slugify, is_slug.
  set (s1 := Str.trim (Str.toLowerCase text)).
  set (s2 := replace_runs Str.is_space 1 "-" s1).
  set (s3 := replace_runs (fun c => negb (is_word c || is_char "-" c)) 1 "" s2).
  set (s4 := replace_runs (is_char "-") 2 "-" s3).
  assert (all_in (fun c => negb (is_upper c)) s3 = true) as Hlow.
  { apply all_in_replace_runs; [done |].
    apply all_in_replace_runs; [done |].
    apply all_in_trim, all_in_toLowerCase. }
  assert (all_in (fun c => negb (negb (is_word c || is_char "-" c))) s3 = true)
    as Hword.
  { unfold s3. rewrite replace_runs_without. apply all_in_without. }
  assert (all_in slug_char s3 = true) as Hslug.
  { apply (all_in_impl _ _ _
             (fun c H => word_not_upper_is_slug_char c
                           (proj1 (proj1 (andb_true_iff _ _) H))
                           (proj2 (proj1 (andb_true_iff _ _) H)))
             (all_in_and _ _ _ Hlow Hword)). }
  split; [| split; [| split]].
  - by apply all_in_strip_end, all_in_strip_start, all_in_replace_runs.
  - apply no_double_strip_end, no_double_strip_start.
    by apply no_double_replace_runs_from.
  - apply first_char_strip_end, first_char_strip_start.
  - apply last_char_strip_end.
Qed.

(** [slugify]: whatever the text, the slug is made of lower-case letters,
    digits, [_] and [-] only, has no [-] at either end and no two [-] in a
    row. *)
Theorem slugify_is_slug (text : string) :
  let slug := slugify text in
  all_in slug_char slug = true
  /\ no_double (is_char "-") slug = true
  /\ first_char slug <> Some "-"%char
  /\ last_char slug <> Some "-"%char.
Proof. exact (slugify_shape text). Qed.

Section SlugFixpoint.
Local Arguments is_char : simpl never.

Lemma toLowerCase_slug (s : string) :
  all_in slug_char s = true -> Str.toLowerCase s = s.
Proof.
  induction s as [| c s IH]; cbn; [done |].
  intros [Hc Hs]%andb_true_iff. by rewrite (slug_char_lower c Hc), IH.
Qed.

Lemma strip_start_outside (cls : ascii -> bool) (s : string) :
  all_in (fun c => negb (cls c)) s = true -> strip_start cls s = s.
Proof.
  destruct s as [| c s]; cbn; [done |].
  intros [Hc _]%andb_true_iff. by apply negb_true_iff in Hc as ->.
Qed.

Lemma strip_end_outside (cls : ascii -> bool) (s : string) :
  all_in (fun c => negb (cls c)) s = true -> strip_end cls s = s.
Proof.
  induction s as [| c s IH]; cbn; [done |].
  intros [Hc Hs]%andb_true_iff. rewrite (IH Hs).
  apply negb_true_iff in Hc. rewrite Hc. by destruct s.
Qed.

Lemma replace_runs_outside (cls : ascii -> bool) (least : nat) (by_ s : string) :
  all_in (fun c => negb (cls c)) s = true -> replace_runs cls least by_ s = s.
Proof.
  unfold replace_runs. induction s as [| c s IH]; cbn; [done |].
  intros [Hc Hs]%andb_true_iff. apply negb_true_iff in Hc. rewrite Hc.
  by rewrite (IH Hs).
Qed.

Lemma replace_runs_no_double (run s : string) :
  no_double (is_char "-") s = true ->
  (run = ""%string
   \/ (run = "-"%string /\ first_char s <> Some "-"%char)) ->
  replace_runs_from (is_char "-") 2 "-" run s = (run +:+ s)%string.
Proof.
  revert run. induction s as [| c s IH]; intros run Hs Hrun.
  - cbn. rewrite StrFacts.append_nil_r.
    by destruct Hrun as [-> | [-> _]].
  - cbn [replace_runs_from]. destruct (is_char "-" c) eqn:Hc.
    + apply is_hyphen in Hc as Ec. subst c.
      destruct Hrun as [-> | [_ Hfirst]]; [| done].
      rewrite StrFacts.append_nil. rewrite IH.
      * by rewrite StrFacts.append_cons, !StrFacts.append_nil.
      * by apply no_double_tail in Hs.
      * right. split; [done |].
        destruct s as [| b s]; [done |]. cbn in Hs |- *.
        rewrite Hc in Hs. cbn in Hs.
        apply andb_true_iff in Hs as [Hb _]. apply negb_true_iff in Hb.
        intros [= ->]. done.
    + rewrite (IH ""%string);
        [| by apply no_double_tail in Hs | by left].
      rewrite StrFacts.append_nil.
      by destruct Hrun as [-> | [-> _]].
Qed.

Lemma strip_start_hyphen (s : string) :
  first_char s <> Some "-"%char -> strip_start (is_char "-") s = s.
Proof.
  destruct s as [| c s]; cbn; [done |]. intros Hc.
  destruct (is_char "-" c) eqn:E; [| done].
  apply is_hyphen in E. by subst.
Qed.

Lemma strip_end_hyphen (s : string) :
  last_char s <> Some "-"%char -> strip_end (is_char "-") s = s.
Proof.
  induction s as [| c s IH]; [done |]. cbn [strip_end last_char].
  destruct s as [| b s].
  - cbn. intros Hc. destruct (is_char "-" c) eqn:E; [| done].
    apply is_hyphen in E. by subst.
  - intros Hlast. by rewrite (IH Hlast).
Qed.

End SlugFixpoint.

(** [slugify] leaves a slug as it is, so that applying it twice is the
    same as applying it once. *)
Theorem slugify_idempotent (text : string) :
  slugify (slugify text) = slugify text
  /\ (forall s, is_slug s -> slugify s = s).
Proof.
  assert (forall s, is_slug s -> slugify s = s) as Hfix.
  { intros s (Hchars & Hdouble & Hfirst & Hlast).
    assert (all_in (fun c => negb (Str.is_space c)) s = true) as Hspace.
    { apply (all_in_impl _ _ _ slug_char_no_space Hchars). }
    assert (all_in (fun c => negb (negb (is_word c || is_char "-" c))) s = true)
      as Hword.
    { apply (all_in_impl _ _ _ slug_char_word Hchars). }
    unfold slugify, Str.trim.
    rewrite (toLowerCase_slug s Hchars), trimEnd_strip, trimStart_strip.
    rewrite (strip_start_outside _ s Hspace), (strip_end_outside _ s Hspace).
    rewrite (replace_runs_outside _ _ _ s Hspace).
    rewrite (replace_runs_outside _ _ _ s Hword).
    unfold replace_runs at 1.
    rewrite (replace_runs_no_double "" s Hdouble) by (by left).
    rewrite StrFacts.append_nil.
    by rewrite (strip_start_hyphen s Hfirst), (strip_end_hyphen s Hlast). }
  split; [| exact Hfix].
  apply Hfix, slugify_shape.
Qed.

(* ===================================================================== *)
(** * The store, tokens and health *)
(* ===================================================================== *)

(** The keys of the store are independent: writing or removing one key
    changes what [storage.get] returns for no other key, whether or not the
    browser took the write; after [storage.clear], [storage.get] returns
    [null] for every key. *)
Theorem storage_keys_are_independent `{JsonRuntime} (ls : LocalStorage) :
  (forall k k' v,
      k <> k' ->
      storage.get k' (snd (storage.set k v ls)) = storage.get k' ls
      /\ storage.get k' (snd (storage.remove k ls)) = storage.get k' ls)
  /\ (forall k, storage.get k (snd (storage_clear ls)) = JNull)
  /\ fst (storage_clear ls) = true.
Proof.
  split; [| split; [| reflexivity]].
  - intros k k' v Hne. unfold storage.get, storage.set, storage.remove,
      localStorage.setItem, localStorage.removeItem, localStorage.getItem.
    split.
    + destruct (accepts ls (items ls) k (JSON_stringify_arg v)); cbn; [| done].
      by rewrite lookup_insert_ne.
    + cbn. by rewrite lookup_delete_ne.
  - intros k. unfold storage.get, localStorage.getItem. cbn.
    by rewrite lookup_empty.
Qed.

Section InstanceFacts.
Context `{JsonRuntime} (env : Env).
Local Arguments outgoing : simpl never.

Lemma outgoing_metadata (config : Config) (w : World) :
  metadata (outgoing config w) = Some (clock w).
Proof.
  unfold outgoing, bind, axios.mergeConfig, Api.requestInterceptor, read, ret.
  by destruct (truthy (storage_get STORAGE_KEYS.AUTH_TOKEN w)).
Qed.

Lemma first_interceptors_dispatch (config : Config) (w : World) :
  first_interceptors env config w
  = then_ (axios.dispatchRequest env (outgoing config w))
          Api.responseInterceptor Api.responseErrorInterceptor w.
Proof. reflexivity. Qed.

(** An answer with a status from 200 to 299 resolves the request. *)
Lemma api_answer_2xx (config : Config) (w : World) (status : Z) (body : json)
    (latency : Z) :
  server env (wire w) (outgoing config w) = Answer status body latency ->
  200 <= status < 300 ->
  Api.api env config w
  = (Resolved {| res_status := status; res_data := body;
                 res_config := Some (outgoing config w);
                 res_responseTime := Some (clock w + latency - clock w) |},
     record (Sent (outgoing config w)) (set_clock (clock w + latency) w)).
Proof.
  intros Hanswer Hstatus. rewrite api_first, first_interceptors_dispatch.
  unfold then_, axios.dispatchRequest. rewrite Hanswer.
  unfold axios.validateStatus.
  destruct (Z.leb_spec 200 status); [| lia].
  destruct (Z.ltb_spec status 300); [| lia]. cbn [andb].
  unfold Api.responseInterceptor, bind, read, ret. cbn.
  reflexivity.
Qed.

(** Anything else rejects it, with an object that has no [response] and
    no [request]; in both cases the request went out once. *)
Lemma api_no_2xx (config : Config) (w : World) :
  ~ answered_2xx env config w ->
  exists e w',
    Api.api env config w = (Rejected e, w')
    /\ wire w' = wire w ++ [Sent (outgoing config w)]
    /\ err_response e = None /\ err_request e = false.
Proof.
  intros Hno. rewrite api_first, first_interceptors_dispatch.
  unfold then_, axios.dispatchRequest.
  destruct (server env (wire w) (outgoing config w))
    as [status body latency | why latency] eqn:Hanswer.
  - assert (axios.validateStatus status = false) as ->.
    { unfold axios.validateStatus.
      destruct (Z.leb_spec 200 status); [| done].
      destruct (Z.ltb_spec status 300); [| done].
      exfalso. apply Hno. exists status, body, latency. split; [done | lia]. }
    unfold Api.responseErrorInterceptor, bind, ret, exec, throw. cbn.
    destruct (status =? HTTP_STATUS.UNPROCESSABLE_ENTITY);
      destruct body; cbn;
      destruct (status =? HTTP_STATUS.UNAUTHORIZED); cbn;
      try destruct (_retry (outgoing config w)); cbn;
      eexists _, _; (split; [reflexivity |]); cbn; done.
  - unfold Api.responseErrorInterceptor, bind, ret, exec, throw.
    destruct why; cbn; eexists _, _; (split; [reflexivity |]); cbn; done.
Qed.

Lemma api_sends_once (config : Config) (w : World) :
  wire (snd (Api.api env config w)) = wire w ++ [Sent (outgoing config w)].
Proof.
  destruct (server env (wire w) (outgoing config w))
    as [status body latency | why latency] eqn:Hanswer.
  - destruct (decide (200 <= status < 300)) as [Hok | Hbad].
    + by rewrite (api_answer_2xx _ _ _ _ _ Hanswer Hok).
    + destruct (api_no_2xx config w) as (e & w' & -> & Hwire & _); [| done].
      intros (s & b & l & E & Hs). congruence.
  - destruct (api_no_2xx config w) as (e & w' & -> & Hwire & _); [| done].
    intros (s & b & l & E & Hs). congruence.
Qed.

End InstanceFacts.

Section RejectionFacts.
Context `{JsonRuntime} (env : Env).

(** Every rejection of the instance is an object without [response] and
    without [request]. *)
Lemma api_rejection_plain (config : Config) (w w' : World) (e : JsError) :
  Api.api env config w = (Rejected e, w') ->
  err_response e = None /\ err_request e = false.
Proof.
  intros E.
  destruct (server env (wire w) (outgoing config w))
    as [status body latency | why latency] eqn:Hanswer.
  - destruct (decide (200 <= status < 300)) as [Hok | Hbad].
    + rewrite (api_answer_2xx _ _ _ _ _ _ Hanswer Hok) in E. discriminate.
    + destruct (api_no_2xx env config w) as (e' & w'' & E' & _ & He).
      { intros (s & b & l & Es & Hs). congruence. }
      congruence.
  - destruct (api_no_2xx env config w) as (e' & w'' & E' & _ & He).
    { intros (s & b & l & Es & Hs). congruence. }
    congruence.
Qed.

End RejectionFacts.

(** [handleApiError] is not meant to be applied twice: applied to an
    object of its own making it answers with status 0 and the type
    [unknown_error], keeping the message only.  The instance of api.js
    already rejects with such an object, so that wherever its errors are
    handed to [handleApiError] again (the AuthProvider, the hooks) the
    status of the response is lost. *)
Theorem handleApiError_twice_loses_the_status :
  (forall error,
      handleApiError (handleApiError error)
      = api_error 0
          (or_else (err_message (handleApiError error))
                   (Some (JStr "An unexpected error occurred")))
          "unknown_error")
  /\ (forall (J : JsonRuntime) env config w w' e,
        Api.api env config w = (Rejected e, w') ->
        handleApiError e
        = api_error 0
            (or_else (err_message e)
                     (Some (JStr "An unexpected error occurred")))
            "unknown_error").
Proof.
  split.
  - intros error. unfold handleApiError at 1.
    destruct (handleApiError_bare error) as [-> _].
    assert (err_request (handleApiError error) = false) as ->; [| done].
    unfold handleApiError.
    destruct (err_response error); [done |]. by destruct (err_request error).
  - intros J env config w w' e E.
    destruct (api_rejection_plain env config w w' e E) as [Hr Hq].
    unfold handleApiError. by rewrite Hr, Hq.
Qed.

(** A 404 of the server, seen through the instance and [handleApiError]. *)
Lemma handleApiError_twice_loses_the_status_witness :
  exists e w',
    Api.api (H := reference_runtime) server_404 (request GET "/news/1")
      (world_with (roomy ∅))
    = (Rejected e, w')
    /\ err_status e = Some 404
    /\ err_status (handleApiError e) = Some 0.
Proof.
  eexists _, _. split; [reflexivity |]. split; [reflexivity |].
  rewrite (proj2 handleApiError_twice_loses_the_status reference_runtime
             server_404 (request GET "/news/1") (world_with (roomy ∅)) _ _
             eq_refl).
  reflexivity.
Defined.

(** [api.setAuthToken] and [api.getAuthToken]: a token that the browser
    stores is the one [getAuthToken] returns, it is the default bearer, and
    every request of the instance goes out with it, whatever
    [Authorization] header the request brought along; setting no token (or
    [null], or the empty string) removes the stored token and the default
    header. *)
Theorem setAuthToken_round_trip {J : JsonRuntime} {laws : JsonLaws J}
    (w : World) :
  (forall token,
      token <> ""%string ->
      accepts (storage_area w) (items (storage_area w))
        STORAGE_KEYS.AUTH_TOKEN (JSON_stringify (JStr token)) = true ->
      let w' := setAuthToken (Some (JStr token)) w in
      getAuthToken w' = JStr token
      /\ defaults_common w' !! "Authorization"%string
         = Some ("Bearer " +:+ token)%string
      /\ forall config,
           headers (outgoing config w') !! "Authorization"%string
           = Some ("Bearer " +:+ token)%string)
  /\ (forall token,
        truthy_opt token = false ->
        let w' := setAuthToken token w in
        getAuthToken w' = JNull
        /\ defaults_common w' !! "Authorization"%string = None
        /\ forall config,
             headers (outgoing config w') !! "Authorization"%string
             = headers config !! "Authorization"%string).
Proof.
  split.
  - intros token Hne Haccepts w'.
    assert (truthy_opt (Some (JStr token)) = true) as Htruthy.
    { cbn. by destruct (String.eqb_spec token ""). }
    assert (getAuthToken w' = JStr token) as Hget.
    { unfold w', setAuthToken, getAuthToken, storage_get, storage_set.
      rewrite Htruthy. cbn.
      unfold storage.set, localStorage.setItem. cbn. rewrite Haccepts. cbn.
      apply storage_get_stored. unfold localStorage.getItem. cbn.
      apply lookup_insert_eq. }
    split; [exact Hget |]. split.
    + unfold w', setAuthToken. rewrite Htruthy. cbn. apply lookup_insert_eq.
    + intros config.
      cbv [outgoing bind axios.mergeConfig Api.requestInterceptor read ret].
      unfold getAuthToken in Hget. rewrite Hget. cbn.
      destruct (String.eqb_spec token ""); [done |]. cbn.
      apply lookup_insert_eq.
  - intros token Hfalsy w'.
    assert (getAuthToken w' = JNull) as Hget.
    { unfold w', setAuthToken, getAuthToken, storage_get, storage_remove.
      rewrite Hfalsy. cbn. apply storage_get_removed. }
    split; [exact Hget |]. split.
    + unfold w', setAuthToken. rewrite Hfalsy. cbn. apply lookup_delete_eq.
    + intros config.
      cbv [outgoing bind axios.mergeConfig Api.requestInterceptor read ret].
      unfold getAuthToken in Hget. rewrite Hget. cbn.
      unfold w', setAuthToken. rewrite Hfalsy. cbn.
      rewrite lookup_union, lookup_delete_eq.
      by destruct (headers config !! "Authorization"%string).
Qed.

Lemma setAuthToken_round_trip_witness :
  let w' := setAuthToken (H := reference_runtime) (Some (JStr "t9"))
              (world_with (roomy ∅)) in
  getAuthToken (H := reference_runtime) w' = JStr "t9"
  /\ defaults_common w' !! "Authorization"%string = Some "Bearer t9"%string
  /\ forall config,
       headers (outgoing (H := reference_runtime) config w')
         !! "Authorization"%string
       = Some "Bearer t9"%string.
Proof.
  apply (proj1 (setAuthToken_round_trip (laws := reference_lawful)
                  (world_with (roomy ∅))) "t9"%string); [done | reflexivity].
Defined.

(** [api.health] never rejects: it sends one request to [/health] and
    resolves, with [healthy: true] exactly when the server answered with a
    status from 200 to 299. *)
Theorem health_never_rejects `{JsonRuntime} (env : Env) (w : World) :
  exists h w',
    health (Api.api env) w = (Resolved h, w')
    /\ (healthy h = true <-> answered_2xx env (request GET "/health") w)
    /\ wire w' = wire w ++ [Sent (outgoing (request GET "/health") w)].
Proof.
  unfold health, try_catch, bind, ret.
  pose proof (api_sends_once env (request GET "/health") w) as Hwire.
  destruct (server env (wire w) (outgoing (request GET "/health") w))
    as [status body latency | why latency] eqn:Hanswer.
  - destruct (decide (200 <= status < 300)) as [Hok | Hbad].
    + rewrite (api_answer_2xx _ _ _ _ _ _ Hanswer Hok) in *.
      eexists _, _. split; [reflexivity |]. split; [| exact Hwire].
      cbn. split; [| done]. intros _. by exists status, body, latency.
    + destruct (api_no_2xx env (request GET "/health") w)
        as (e & w' & E & _ & _).
      { intros (s & b & l & Es & Hs). congruence. }
      rewrite E in *. eexists _, _. split; [reflexivity |].
      split; [| exact Hwire]. cbn. split; [done |].
      intros (s & b & l & Es & Hs). congruence.
  - destruct (api_no_2xx env (request GET "/health") w)
      as (e & w' & E & _ & _).
    { intros (s & b & l & Es & Hs). congruence. }
    rewrite E in *. eexists _, _. split; [reflexivity |].
    split; [| exact Hwire]. cbn. split; [done |].
    intros (s & b & l & Es & Hs). congruence.
Qed.

(* ===================================================================== *)
(** * api.clearCache *)
(* ===================================================================== *)

Section IncludesFacts.

Lemma substring_skip (a s : string) (m n : nat) :
  String.substring (String.length a + m) n (a +:+ s) = String.substring m n s.
Proof. induction a as [| c a IH]; [reflexivity | exact IH]. Qed.

Lemma substring_empty (m : nat) (s : string) : String.substring m 0 s = ""%string.
Proof.
  revert s. induction m as [| m IH]; intros [| c s]; cbn; done.
Qed.

Lemma substring_inside (s b p : string) (m : nat) :
  String.substring m (String.length p) s = p ->
  String.substring m (String.length p) (s +:+ b) = p.
Proof.
  revert m p. induction s as [| c s IH]; intros m p.
  - destruct p as [| x p]; [intros _; apply substring_empty |].
    destruct m; cbn; done.
  - rewrite StrFacts.append_cons. destruct m as [| m].
    + destruct p as [| x p]; cbn; [done |].
      intros [= -> Hp]. f_equal. by apply (IH 0%nat).
    + cbn. apply IH.
Qed.

Lemma prefix_append (a b : string) : String.prefix a (a +:+ b) = true.
Proof.
  induction a as [| c a IH].
  - rewrite StrFacts.append_nil. by destruct b.
  - rewrite StrFacts.append_cons. cbn. by destruct (ascii_dec c c).
Qed.

Lemma includes_inside (p a s b : string) :
  includes p s = true -> includes p (a +:+ s +:+ b) = true.
Proof.
  unfold includes.
  destruct (String.index 0 p s) as [m |] eqn:E; [intros _ | done].
  apply index_correct1 in E.
  destruct (String.index 0 p (a +:+ s +:+ b)) eqn:E'; [done |].
  destruct (String.eqb_spec p "") as [-> | Hne].
  - apply index_correct4 in E'. lia.
  - exfalso.
    apply (index_correct3 0 (String.length a + m) p _ E' Hne); [lia |].
    rewrite substring_skip. by apply substring_inside.
Qed.

End IncludesFacts.

Section ClearCacheFacts.

Lemma clearCache_lookup (pattern : option string) (w : World) (key : string) :
  localStorage.getItem key (storage_area (clearCache pattern w))
  = if String.prefix "api_cache_" key
       && match pattern with
          | Some p => if String.eqb p "" then true else includes p key
          | None => true
          end
    then None
    else localStorage.getItem key (storage_area w).
Proof.
  unfold clearCache, localStorage.getItem. cbn.
  destruct (items (storage_area w) !! key) as [v |] eqn:E.
  - match goal with
    | |- _ = if ?b then _ else _ => destruct b eqn:Hb
    end.
    + apply map_lookup_filter_None. right. intros v' Hv'. cbn. by rewrite Hb.
    + apply map_lookup_filter_Some. split; [done |]. cbn. exact Hb.
  - match goal with
    | |- _ = if ?b then _ else _ => destruct b
    end; apply map_lookup_filter_None; by left.
Qed.

End ClearCacheFacts.

(** [api.clearCache] touches the cache only.  An entry whose key does not
    start with [api_cache_] (the token, the theme) stays as it is, and so
    does everything on the page but the store.  Without a pattern every
    entry of the cache is removed; with one, exactly the entries whose key
    contains the pattern. *)
Theorem clearCache_clears_the_cache_only (pattern : option string) (w : World) :
  (forall key,
      String.prefix "api_cache_" key = false ->
      localStorage.getItem key (storage_area (clearCache pattern w))
      = localStorage.getItem key (storage_area w))
  /\ (forall key,
        String.prefix "api_cache_" key = true ->
        localStorage.getItem key (storage_area (clearCache pattern w))
        = match pattern with
          | Some p =>
              if String.eqb p "" || includes p key then None
              else localStorage.getItem key (storage_area w)
          | None => None
          end)
  /\ defaults_common (clearCache pattern w) = defaults_common w
  /\ user (clearCache pattern w) = user w
  /\ wire (clearCache pattern w) = wire w.
Proof.
  split; [| split; [| done]].
  - intros key Hkey. by rewrite clearCache_lookup, Hkey.
  - intros key Hkey. rewrite clearCache_lookup, Hkey. cbn [andb].
    destruct pattern as [p |]; [| done].
    by destruct (String.eqb p "").
Qed.

(** After [api.clearCache], [getWithCache] goes to the network: for a URL
    that contains the pattern (or after a clearing without pattern), and
    whatever the params, the next call does not answer from the cache. *)
Theorem clearCache_forces_a_fetch {J : JsonRuntime} {laws : JsonLaws J}
    (api : Config -> M Response) (pattern : option string) (u : string)
    (config : Config) (w : World) :
  Api.cacheEnabled config = true ->
  pattern = None \/ (exists p, pattern = Some p /\ includes p u = true) ->
  Api.getWithCache api u config (clearCache pattern w)
  = fetch_and_store api u config (clearCache pattern w).
Proof.
  intros Hon Hpattern. apply getWithCache_miss; [done |].
  unfold storage_get.
  rewrite (storage_get_missing (Api.cacheKey u config)); [done |].
  rewrite clearCache_lookup.
  assert (String.prefix "api_cache_" (Api.cacheKey u config) = true) as ->.
  { unfold Api.cacheKey. apply prefix_append. }
  destruct Hpattern as [-> | (p & -> & Hp)]; [done |].
  destruct (String.eqb p ""); [done |].
  unfold Api.cacheKey.
  by rewrite (includes_inside p "api_cache_" u _ Hp).
Qed.

Lemma clearCache_forces_a_fetch_witness :
  Api.getWithCache (H := reference_runtime)
    (Api.api (H := reference_runtime) server_ok) "/news" news_page_1
    (clearCache (Some "news"%string) (news_cached_at 1000 61000))
  = fetch_and_store (H := reference_runtime)
      (Api.api (H := reference_runtime) server_ok) "/news" news_page_1
      (clearCache (Some "news"%string) (news_cached_at 1000 61000)).
Proof.
  apply (clearCache_forces_a_fetch (laws := reference_lawful)
           (Api.api (H := reference_runtime) server_ok)
           (Some "news"%string) "/news" news_page_1
           (news_cached_at 1000 61000) eq_refl).
  right. exists "news"%string. split; reflexivity.
Defined.

(* ===================================================================== *)
(** * requestWithRetry on the instance of api.js *)
(* ===================================================================== *)

Section RetryBound.
Context `{JsonRuntime} (env : Env).

Lemma waits_app (a b : list Event) : waits (a ++ b) = waits a ++ waits b.
Proof. unfold waits. apply omap_app. Qed.

Lemma sent_urls_app (a b : list Event) :
  sent_urls (a ++ b) = sent_urls a ++ sent_urls b.
Proof. unfold sent_urls. apply omap_app. Qed.

Lemma api_settled (config : Config) (w : World) :
  (exists r w', Api.api env config w = (Resolved r, w')
                /\ wire w' = wire w ++ [Sent (outgoing config w)])
  \/ (exists e w', Api.api env config w = (Rejected e, w')
                   /\ wire w' = wire w ++ [Sent (outgoing config w)]
                   /\ bare e).
Proof.
  pose proof (api_sends_once env config w) as Hwire.
  pose proof (api_settles env config w) as Hsettles.
  destruct (Api.api env config w) as [[r | e |] w'] eqn:E; [| | done].
  - left. eauto.
  - right. exists e, w'. repeat split; [done | |];
      by destruct (api_rejection env config w w' e E).
Qed.

(** With [k] retries left, [requestWithRetry] sends between 1 and [k + 1]
    requests, waits before every one but the first, and gives up only
    after the last. *)
Lemma requestWithRetry_left (k : nat) (config : Config) (w : World) :
  (k <= 3)%nat ->
  exists settled w' n,
    Api.requestWithRetry (Api.api env) config (3 - Z.of_nat k) w = (settled, w')
    /\ settled <> Pending
    /\ (n <= k)%nat
    /\ waits (wire w')
       = waits (wire w) ++ take n (drop (3 - k) [1000; 2000; 4000])
    /\ length (sent_urls (wire w')) = (length (sent_urls (wire w)) + n + 1)%nat
    /\ (forall e, settled = Rejected e -> n = k).
Proof.
  revert w. induction k as [| k IH]; intros w Hk;
    rewrite requestWithRetry_unfold;
    destruct (api_settled config w)
      as [(r & w1 & -> & Hwire) | (e & w1 & -> & Hwire & Hr & Hc)].
  - exists (Resolved r), w1, 0%nat.
    split; [done |]. split; [done |]. split; [lia |]. split; [| split].
    + by rewrite Hwire, waits_app, take_0.
    + rewrite Hwire, sent_urls_app, length_app. cbn. lia.
    + intros e [=].
  - unfold Api.shouldRetry. rewrite Hr, Hc. cbn.
    exists (Rejected e), w1, 0%nat.
    split; [done |]. split; [done |]. split; [lia |]. split; [| split].
    + by rewrite Hwire, waits_app, take_0.
    + rewrite Hwire, sent_urls_app, length_app. cbn. lia.
    + done.
  - exists (Resolved r), w1, 0%nat.
    split; [done |]. split; [done |]. split; [lia |]. split; [| split].
    + by rewrite Hwire, waits_app, take_0.
    + rewrite Hwire, sent_urls_app, length_app. cbn. lia.
    + intros e [=].
  - unfold Api.shouldRetry. rewrite Hr, Hc.
    destruct (Z.ltb_spec (3 - Z.of_nat (S k)) API_CONFIG.retryAttempts) as [_ | Hge];
      [| unfold API_CONFIG.retryAttempts in Hge; lia].
    cbn [andb negb].
    replace (3 - Z.of_nat (S k) + 1) with (3 - Z.of_nat k) by lia.
    destruct (IH (slept (Api.retryDelayFor (3 - Z.of_nat (S k))) w1))
      as (settled & w' & n & -> & Hsettled & Hn & Hwaits & Hsent & Hrej); [lia |].
    exists settled, w', (S n). split; [done |]. split; [done |].
    split; [lia |]. split; [| split].
    + rewrite Hwaits. cbn [slept record wire set_clock].
      rewrite Hwire, !waits_app. cbn [waits omap]. cbn.
      rewrite <- !app_assoc. f_equal.
      destruct k as [| [| [| k]]]; try lia; reflexivity.
    + rewrite Hsent. cbn [slept record wire set_clock].
      rewrite Hwire, !sent_urls_app, !length_app. cbn. lia.
    + intros e' He'. by rewrite (Hrej e' He').
Qed.

End RetryBound.

(** On the instance of api.js, [requestWithRetry(config)] always settles.
    It puts between one and four requests on the wire, waits 1000, 2000 and
    4000 milliseconds before the second, third and fourth, and rejects only
    when all four have failed: the instance hands every failure on as an
    object without [response] and [code], which is retried whatever the
    status was. *)
Theorem requestWithRetry_at_most_four `{JsonRuntime} (env : Env)
    (config : Config) (w : World) :
  exists settled w' n,
    Api.requestWithRetry (Api.api env) config 0 w = (settled, w')
    /\ settled <> Pending
    /\ (n <= 3)%nat
    /\ waits (wire w') = waits (wire w) ++ take n [1000; 2000; 4000]
    /\ length (sent_urls (wire w')) = (length (sent_urls (wire w)) + n + 1)%nat
    /\ (forall e, settled = Rejected e -> n = 3%nat).
Proof.
  destruct (requestWithRetry_left env 3 config w)
    as (settled & w' & n & E & H1 & H2 & H3 & H4 & H5); [lia |].
  change (3 - Z.of_nat 3) with 0 in E.
  exists settled, w', n. repeat split; done.
Qed.

(* ===================================================================== *)
(** * requestWithRetry on the instance: every failure is retried *)
(* ===================================================================== *)

Section RetryOnTheInstance.
Context `{JsonRuntime} (env : Env).
Hypothesis fails : never_2xx env.
Local Arguments outgoing : simpl never.

Lemma outgoing_method (config : Config) (w : World) :
  method (outgoing config w) = method config /\ url (outgoing config w) = url config.
Proof.
  cbv [outgoing bind axios.mergeConfig Api.requestInterceptor read ret].
  by destruct (truthy (storage_get STORAGE_KEYS.AUTH_TOKEN w)).
Qed.

Lemma sent_methods_app (a b : list Event) :
  sent_methods (a ++ b) = sent_methods a ++ sent_methods b.
Proof. unfold sent_methods. apply omap_app. Qed.

(** The instance rejects, after one request, with an object that
    [shouldRetry] takes for a failure without response. *)
Lemma api_fails (config : Config) (w : World) :
  exists e w',
    Api.api env config w = (Rejected e, w')
    /\ wire w' = wire w ++ [Sent (outgoing config w)]
    /\ bare e.
Proof.
  destruct (api_settled env config w)
    as [(r & w1 & E & _) | (e & w1 & E & Hwire & Hbare)]; [| by eauto].
  destruct (api_no_2xx env config w) as (e & w2 & E' & _); [| congruence].
  intros (status & body & latency & Hanswer & Hstatus).
  by apply (fails _ _ _ _ _ Hanswer).
Qed.

(** With [k] retries left the request goes out [k + 1] times. *)
Lemma requestWithRetry_failing (k : nat) (config : Config) (w : World) :
  (k <= 3)%nat ->
  exists error w',
    Api.requestWithRetry (Api.api env) config (3 - Z.of_nat k) w
    = (Rejected error, w')
    /\ bare error
    /\ sent_urls (wire w') = sent_urls (wire w) ++ replicate (S k) (url config)
    /\ sent_methods (wire w')
       = sent_methods (wire w) ++ replicate (S k) (method config)
    /\ waits (wire w') = waits (wire w) ++ drop (3 - k) [1000; 2000; 4000].
Proof.
  revert w. induction k as [| k IH]; intros w Hk;
    rewrite requestWithRetry_unfold;
    destruct (api_fails config w) as (e & w1 & -> & Hwire & Hr & Hc);
    destruct (outgoing_method config w) as [Hmethod Hurl];
    unfold Api.shouldRetry; rewrite Hr, Hc.
  - cbn. exists e, w1. split; [done |]. split; [done |].
    rewrite Hwire, sent_urls_app, sent_methods_app, waits_app. cbn.
    rewrite Hmethod, Hurl. by rewrite app_nil_r.
  - destruct (Z.ltb_spec (3 - Z.of_nat (S k)) API_CONFIG.retryAttempts) as [_ | Hge];
      [| unfold API_CONFIG.retryAttempts in Hge; lia].
    cbn [andb negb].
    replace (3 - Z.of_nat (S k) + 1) with (3 - Z.of_nat k) by lia.
    destruct (IH (slept (Api.retryDelayFor (3 - Z.of_nat (S k))) w1))
      as (error & w' & -> & Hbare & Hurls & Hmethods & Hwaits); [lia |].
    exists error, w'. split; [done |]. split; [done |].
    rewrite Hurls, Hmethods, Hwaits. cbn [slept record wire set_clock].
    rewrite !sent_urls_app, !sent_methods_app, !waits_app, Hwire.
    rewrite !sent_urls_app, !sent_methods_app, !waits_app. cbn.
    rewrite Hmethod, Hurl, !app_nil_r, <- !app_assoc. cbn.
    split; [done |]. split; [done |]. f_equal.
    destruct k as [| [| [| k]]]; try lia; reflexivity.
Qed.

End RetryOnTheInstance.

(** C2.  The client as the program builds it: [requestWithRetry] over the
    instance of api.js.  Against a server that never answers with a status
    from 200 to 299 (one that answers 404 to everything, or one that is not
    heard from before the timeout) every request, whatever its method, is
    sent four times, with waits of 1000, 2000 and 4000 milliseconds, before
    the promise rejects.  The rejection handler of the instance has turned
    every failure into an object without [response] and [code] before
    [requestWithRetry] sees it, so that the tests on the status and on
    [ECONNABORTED] never stop a retry: a 4xx answer and a timeout are not
    handed on without retry, as the claim and the comment of the code have
    it. *)
Theorem every_failure_is_retried `{JsonRuntime} (env : Env) (config : Config)
    (w : World) :
  never_2xx env ->
  exists error w',
    Api.requestWithRetry (Api.api env) config 0 w = (Rejected error, w')
    /\ err_response error = None /\ err_code error = None
    /\ sent_urls (wire w') = sent_urls (wire w) ++ replicate 4 (url config)
    /\ sent_methods (wire w')
       = sent_methods (wire w) ++ replicate 4 (method config)
    /\ waits (wire w') = waits (wire w) ++ [1000; 2000; 4000].
Proof.
  intros Hfails.
  destruct (requestWithRetry_failing env Hfails 3 config w)
    as (error & w' & E & [Hr Hc] & Hurls & Hmethods & Hwaits); [lia |].
  change (3 - Z.of_nat 3) with 0 in E.
  exists error, w'. repeat split; done.
Qed.

(** A GET against a server that answers 404, and a POST against one that
    is not heard from in time. *)
Lemma every_failure_is_retried_witness :
  (exists error w',
      Api.requestWithRetry (Api.api (H := reference_runtime) server_404)
        (request GET "/news/1") 0 (world_with (roomy ∅)) = (Rejected error, w')
      /\ err_response error = None /\ err_code error = None
      /\ sent_urls (wire w')
         = sent_urls (wire (world_with (roomy ∅)))
           ++ replicate 4 (url (request GET "/news/1"))
      /\ sent_methods (wire w')
         = sent_methods (wire (world_with (roomy ∅)))
           ++ replicate 4 (method (request GET "/news/1"))
      /\ waits (wire w')
         = waits (wire (world_with (roomy ∅))) ++ [1000; 2000; 4000])
  /\ (exists error w',
        Api.requestWithRetry (Api.api (H := reference_runtime) server_timeout)
          (request POST "/news") 0 (signed_in "t0") = (Rejected error, w')
        /\ err_response error = None /\ err_code error = None
        /\ sent_urls (wire w')
           = sent_urls (wire (signed_in "t0"))
             ++ replicate 4 (url (request POST "/news"))
        /\ sent_methods (wire w')
           = sent_methods (wire (signed_in "t0"))
             ++ replicate 4 (method (request POST "/news"))
        /\ waits (wire w')
           = waits (wire (signed_in "t0")) ++ [1000; 2000; 4000]).
Proof.
  split.
  - apply (every_failure_is_retried (H := reference_runtime) server_404
             (request GET "/news/1") (world_with (roomy ∅))).
    intros history request status body latency [= <- _ _]. lia.
  - apply (every_failure_is_retried (H := reference_runtime) server_timeout
             (request POST "/news") (signed_in "t0")).
    intros history request status body latency [=].
Defined.

(* ===================================================================== *)
(** * getWithCache on the instance *)
(* ===================================================================== *)

Section CacheOnTheInstance.
Context {J : JsonRuntime} {laws : JsonLaws J} (env : Env).
Local Arguments outgoing : simpl never.









End CacheOnTheInstance.




(* ===================================================================== *)
(** * AuthContext: the outcome of a token refresh *)
(* ===================================================================== *)

Section RefreshOutcome.
Context `{JsonRuntime} (api : Config -> M Response).
Hypothesis api_settles' : forall config w, fst (api config w) <> Pending.

Lemma refresh_fails (e : JsError) (w1 : World) :
  exists w2,
    try_finally
      (try_catch (throw e)
         (fun error => AuthContext.logout api;;; ret false))
      (setRefreshing false) w1
    = (Resolved false, setRefreshing false (logout_cleanup w2)).
Proof.
  destruct (logout_with api w1 api_settles') as [w2 E].
  exists w2. unfold try_finally, try_catch, throw, bind, ret. by rewrite E.
Qed.

Lemma refreshToken_outcome (w : World) :
  exists b w',
    AuthContext.refreshToken api false w = (Resolved b, w')
    /\ refreshing w' = false
    /\ (b = false -> logged_out w')
    /\ (b = true ->
        exists response w1,
          api (request POST "/auth/refresh") (setRefreshing true w)
          = (Resolved response, w1)
          /\ res_data response <> JNull
          /\ defaults_common w' !! "Authorization"%string
             = Some ("Bearer "
                     +:+ ToString_opt (get_field "token" (res_data response)))%string).
Proof.
  pose proof (api_settles' (request POST "/auth/refresh") (setRefreshing true w))
    as Hsettles.
  unfold AuthContext.refreshToken.
  destruct (api (request POST "/auth/refresh") (setRefreshing true w))
    as [[response | e |] w1] eqn:E; [| | done].
  - destruct (res_data response) eqn:Hbody.
    1:{ destruct (refresh_fails (TypeError "Cannot destructure 'response.data'") w1)
          as [w2 E2].
        exists false, (setRefreshing false (logout_cleanup w2)).
        split; [| split; [done | split; [| done]]].
        - unfold try_finally, try_catch, bind, exec, throw, ret,
            authService.refreshToken, bind, ret in *.
          cbn. rewrite E. cbn. rewrite Hbody. exact E2.
        - intros _. apply logout_cleanup_logged_out. }
    all: unfold try_finally, try_catch, bind, exec, throw, ret,
           authService.refreshToken, bind, ret;
         cbn; rewrite E; cbn; rewrite Hbody.
    all: try match goal with
             | |- context [assoc "user" ?fields] =>
                 destruct (assoc "user" fields) as [u |]; [destruct (truthy u) |]
             end.
    all: eexists _, _; (split; [reflexivity |]); (split; [done |]);
      (split; [done |]); intros _; exists response, w1; (split; [done |]);
      (split; [congruence |]); rewrite Hbody; cbn; apply lookup_insert_eq.
  - destruct (refresh_fails e w1) as [w2 E2].
    exists false, (setRefreshing false (logout_cleanup w2)).
    split; [| split; [done | split; [| done]]].
    + unfold try_finally, try_catch, bind, exec, throw, ret,
        authService.refreshToken, bind, ret in *.
      cbn. rewrite E. cbn. exact E2.
    + intros _. apply logout_cleanup_logged_out.
Qed.

End RefreshOutcome.

(** [refreshToken], called while no refresh is under way, never rejects
    and never leaves [refreshing] set.  It returns [true] only when the
    server granted the refresh (a status from 200 to 299, with a body), and
    then the token of the body is the default bearer; in every other case
    it returns [false] after having logged the user out. *)
Theorem refreshToken_succeeds_or_logs_out `{JsonRuntime} (env : Env) (w : World) :
  exists b w',
    AuthContext.refreshToken (Api.api env) false w = (Resolved b, w')
    /\ refreshing w' = false
    /\ (b = false -> logged_out w')
    /\ (b = true ->
        exists status body latency,
          server env (wire w)
            (outgoing (request POST "/auth/refresh") (setRefreshing true w))
          = Answer status body latency
          /\ 200 <= status < 300
          /\ body <> JNull
          /\ defaults_common w' !! "Authorization"%string
             = Some ("Bearer " +:+ ToString_opt (get_field "token" body))%string).
Proof.
  destruct (refreshToken_outcome (Api.api env) (api_settles env) w)
    as (b & w' & E & Hrefreshing & Hfalse & Htrue).
  exists b, w'. split; [done |]. split; [done |]. split; [done |].
  intros Hb. destruct (Htrue Hb) as (response & w1 & Eapi & Hbody & Hheader).
  set (w0 := setRefreshing true w) in *.
  destruct (server env (wire w0) (outgoing (request POST "/auth/refresh") w0))
    as [status body latency | why latency] eqn:Hanswer.
  - destruct (decide (200 <= status < 300)) as [Hok | Hbad].
    + rewrite (api_answer_2xx env _ _ _ _ _ Hanswer Hok) in Eapi.
      injection Eapi as <- _. cbn in Hbody, Hheader.
      exists status, body, latency. change (wire w) with (wire w0).
      by rewrite Hanswer.
    + destruct (api_no_2xx env (request POST "/auth/refresh") w0)
        as (e & w2 & E2 & _).
      { intros (s & b' & l & Es & Hs). congruence. }
      congruence.
  - destruct (api_no_2xx env (request POST "/auth/refresh") w0)
      as (e & w2 & E2 & _).
    { intros (s & b' & l & Es & Hs). congruence. }
    congruence.
Qed.


(* ===================================================================== *)
(** * AuthContext: login *)
(* ===================================================================== *)

Section LoginFacts.
Context `{JsonRuntime} (api : Config -> M Response).
Hypothesis api_settles' : forall config w, fst (api config w) <> Pending.
Hypothesis api_plain :
  forall config w e w',
    api config w = (Rejected e, w') ->
    err_response e = None /\ err_request e = false.

(** The [catch] block of [login]. *)
Lemma login_catch (error : JsError) (w1 : World) :
  exists w2,
    (AuthContext.logout api;;;
     ret {| login_success := false; login_user := None;
            login_error := err_message (handleApiError error);
            login_status := err_status (handleApiError error) |}) w1
    = (Resolved {| login_success := false; login_user := None;
                   login_error := err_message (handleApiError error);
                   login_status := err_status (handleApiError error) |},
       logout_cleanup w2).
Proof.
  destruct (logout_with api w1 api_settles') as [w2 E].
  exists w2. unfold bind, ret. by rewrite E.
Qed.

Lemma login_outcome (credentials : Credentials) (w : World) :
  exists r w',
    AuthContext_login api credentials w = (Resolved r, w')
    /\ loading w' = false
    /\ (login_success r = false ->
        logged_out w'
        /\ login_status r
           = Some (match login_errors credentials with [] => 0 | _ => 422 end))
    /\ (login_success r = true ->
        exists response w1 userData,
          api (login_request credentials) (setLoading true w)
          = (Resolved response, w1)
          /\ get_field "user" (res_data response) = Some userData
          /\ userData <> JNull
          /\ login_user r = Some userData
          /\ user w' = userData)
    /\ (login_errors credentials <> [] ->
        login_success r = false /\ login_status r = Some 422).
Proof.
  unfold AuthContext_login, authService_login.
  destruct (login_errors credentials) as [| err errs] eqn:Herrors.
  - (* the credentials pass the checks *)
    cbn [length Nat.ltb Nat.leb].
    pose proof (api_settles' (login_request credentials) (setLoading true w))
      as Hsettles.
    destruct (api (login_request credentials) (setLoading true w))
      as [[response | e |] w1] eqn:E; [| | done].
    + unfold try_catch, bind, exec, throw, ret. cbn. rewrite E. cbn.
      destruct (res_data response) as [| b | n | s | items | fields] eqn:Hbody;
        cbn;
        try (destruct (assoc "user" fields) as [[] |] eqn:Huser; cbn);
        first
          [ (* the user is there *)
            eexists _, _; (split; [reflexivity |]); (split; [done |]);
            (split; [done |]); split; [| done];
            intros _; eexists response, w1, _; rewrite Hbody;
            (split; [done |]); (split; [exact Huser |]);
            (split; [done |]); split; reflexivity
          | (* [response.data] or its user is missing *)
            match goal with
            | |- context [AuthContext.logout api ?W] =>
                destruct (logout_with api W api_settles') as [w2 E2];
                rewrite E2
            end;
            eexists _, _; (split; [reflexivity |]); (split; [done |]);
            split; [| split; [done | done]];
            intros _; split; [apply logout_cleanup_logged_out | done] ].
    + destruct (api_plain _ _ _ _ E) as [Hr Hq].
      destruct (login_catch e w1) as [w2 E2].
      eexists _, (logout_cleanup w2). split.
      { unfold try_catch, bind, exec, throw, ret in *. cbn.
        rewrite E. cbn. unfold AuthContext.is_401. rewrite Hr. exact E2. }
      split; [done |]. split; [| split; [done | done]].
      intros _. split; [apply logout_cleanup_logged_out |].
      unfold handleApiError. by rewrite Hr, Hq.
  - (* they do not: nothing is sent *)
    destruct (login_catch (adminService.validationError (err :: errs))
                (setLoading true w)) as [w2 E2].
    eexists _, (logout_cleanup w2). split.
    { unfold try_catch, bind, exec, throw, ret in *. cbn. exact E2. }
    split; [done |]. split; [| split; [done |]].
    + intros _. split; [apply logout_cleanup_logged_out | done].
    + intros _. by split.
Qed.

End LoginFacts.

Section LoginOnInstance.
Context `{JsonRuntime} (env : Env).
Local Arguments outgoing : simpl never.

Lemma outgoing_url (config : Config) (w : World) :
  url (outgoing config w) = url config.
Proof.
  cbv [outgoing bind axios.mergeConfig Api.requestInterceptor read ret].
  by destruct (truthy (storage_get STORAGE_KEYS.AUTH_TOKEN w)).
Qed.

(** [logout] sends the server logout exactly when a token is stored. *)
Lemma logout_sends (w : World) :
  exists w1,
    AuthContext.logout (Api.api env) w = (Resolved tt, logout_cleanup w1)
    /\ sent_urls (wire w1)
       = sent_urls (wire w)
         ++ (if truthy (getAuthToken w) then [Some "/auth/logout"%string] else []).
Proof.
  unfold AuthContext.logout, try_finally, try_catch, bind, read, ret, getAuthToken.
  fold logout_cleanup.
  destruct (truthy (storage_get STORAGE_KEYS.AUTH_TOKEN w)).
  - unfold authService.logout, try_catch, bind, ret.
    destruct (api_settled env (request POST "/auth/logout") w)
      as [(r & w1 & -> & Hwire) | (e & w1 & -> & Hwire & _)];
      exists w1; (split; [reflexivity |]);
      by rewrite Hwire, sent_urls_app; cbn; rewrite outgoing_url.
  - exists w. by rewrite app_nil_r.
Qed.

End LoginOnInstance.

(** [login] of the AuthProvider never rejects and always ends with
    [loading = false].  It reports success only when the server answered
    [/auth/login] with a status from 200 to 299 and a body that has a user,
    who is then the user of the page.  In every other case the client is
    logged out and the reported status is 422 or 0, never the status the
    server sent: 422 for credentials that fail the checks of
    [authService.login], for which nothing is sent to [/auth/login], and 0
    otherwise. *)
Theorem login_always_resolves `{JsonRuntime} (env : Env)
    (credentials : Credentials) (w : World) :
  exists r w',
    AuthContext_login (Api.api env) credentials w = (Resolved r, w')
    /\ loading w' = false
    /\ (login_success r = false ->
        logged_out w'
        /\ login_status r
           = Some (match login_errors credentials with [] => 0 | _ => 422 end))
    /\ (login_success r = true ->
        exists status body latency userData,
          server env (wire w)
            (outgoing (login_request credentials) (setLoading true w))
          = Answer status body latency
          /\ 200 <= status < 300
          /\ get_field "user" body = Some userData
          /\ userData <> JNull
          /\ login_user r = Some userData
          /\ user w' = userData)
    /\ (login_errors credentials <> [] ->
        login_success r = false
        /\ sent_urls (wire w')
           = sent_urls (wire w)
             ++ (if truthy (getAuthToken w)
                 then [Some "/auth/logout"%string] else [])).
Proof.
  destruct (login_errors credentials) as [| err errs] eqn:Herrors.
  - destruct (login_outcome (Api.api env) (api_settles env)
                (fun config w0 e w' => api_rejection_plain env config w0 w' e)
                credentials w)
      as (r & w' & E & Hloading & Hfalse & Htrue & _).
    rewrite Herrors in Hfalse.
    exists r, w'. split; [done |]. split; [done |]. split; [done |].
    split; [| done].
    intros Hr. destruct (Htrue Hr)
      as (response & w1 & userData & Eapi & Huser & Hnull & Hlogin & Hw').
    set (w0 := setLoading true w) in *.
    destruct (server env (wire w0) (outgoing (login_request credentials) w0))
      as [status body latency | why latency] eqn:Hanswer.
    + destruct (decide (200 <= status < 300)) as [Hok | Hbad].
      * rewrite (api_answer_2xx env _ _ _ _ _ Hanswer Hok) in Eapi.
        injection Eapi as <- _. cbn in Huser.
        exists status, body, latency, userData.
        change (wire w) with (wire w0). by rewrite Hanswer.
      * destruct (api_no_2xx env (login_request credentials) w0)
          as (e & w2 & E2 & _).
        { intros (s & b' & l & Es & Hs). congruence. }
        congruence.
    + destruct (api_no_2xx env (login_request credentials) w0)
        as (e & w2 & E2 & _).
      { intros (s & b' & l & Es & Hs). congruence. }
      congruence.
  - destruct (logout_sends env (setLoading true w)) as (w1 & E1 & Hsent).
    eexists _, (logout_cleanup w1). split.
    { unfold AuthContext_login, authService_login. rewrite Herrors.
      unfold try_catch, bind, exec, throw, ret in *. cbn. rewrite E1.
      reflexivity. }
    split; [done |]. split; [| split; [done |]].
    + intros _. split; [apply logout_cleanup_logged_out | done].
    + intros _. split; [done |]. exact Hsent.
Qed.

(* ===================================================================== *)
(** * Roles, permissions and protected routes *)
(* ===================================================================== *)

Section AccessFacts.
Context (user : json) (r : string).
Hypothesis Hrole : get_field "role" user = Some (JStr r).
Hypothesis Hr : r <> ""%string.
Hypothesis Hown : r ∉ Access.Object_prototype.

Lemma role_of_user : Access.role_of user = Some (JStr r).
Proof.
  unfold Access.role_of. destruct user; try discriminate Hrole.
  cbn [truthy]. rewrite Hrole. cbn. by destruct (String.eqb_spec r "").
Qed.

Lemma hasRole_user (role : string) :
  Access.hasRole user role = true <-> r = role.
Proof.
  unfold Access.hasRole. rewrite role_of_user. cbn.
  by destruct (String.eqb_spec r role).
Qed.

Lemma some_role (roles : list string) :
  existsb (Access.hasRole user) roles = true <-> r ∈ roles.
Proof.
  rewrite existsb_exists. split.
  - intros (role & Hin & <-%hasRole_user). by apply list_elem_of_In.
  - intros Hin. exists r. split; [by apply list_elem_of_In | by apply hasRole_user].
Qed.

Lemma hasPermission_user (permission : string) :
  Access.hasPermission user permission
  = Returns (String.eqb r "admin"
             || bool_decide (permission ∈ permissions_of r)).
Proof.
  unfold Access.hasPermission. rewrite role_of_user. cbn [Access.is_string].
  unfold USER_ROLES.ADMIN. destruct (String.eqb r "admin"); [done |].
  cbn [orb ToString]. unfold permissions_of.
  destruct (Access.own r Access.rolePermissions); [done |].
  rewrite bool_decide_eq_false_2 by done. cbn.
  by rewrite bool_decide_eq_false_2 by apply not_elem_of_nil.
Qed.

Lemma some_permission_user (permissions : list string) :
  Access.some_permission user permissions
  = Returns (existsb (fun p => String.eqb r "admin"
                               || bool_decide (p ∈ permissions_of r))
                     permissions).
Proof.
  induction permissions as [| p rest IH]; [done |].
  cbn [Access.some_permission existsb]. rewrite hasPermission_user.
  by destruct (String.eqb r "admin" || bool_decide (p ∈ permissions_of r)).
Qed.

End AccessFacts.

(** [ProtectedRoute], for a signed-in user whose role is a string (other
    than the names of the properties of [Object.prototype]): it never
    throws, and it renders its children exactly when the auth context is
    not loading, the role is one of the required roles if any are required,
    and, if permissions are required, the role is [admin] or the table
    gives the role one of them.  Roles are compared for equality: an
    [admin] does not pass a route that requires [editor]. *)
Theorem ProtectedRoute_guards (props : RouteProps) (loading : bool)
    (user : json) (r : string) :
  get_field "role" user = Some (JStr r) ->
  r <> ""%string ->
  r ∉ Access.Object_prototype ->
  (exists rendered, ProtectedRoute props loading user = Returns rendered)
  /\ (ProtectedRoute props loading user = Returns Children
      <-> loading = false
          /\ (requiredRoles props = [] \/ r ∈ requiredRoles props)
          /\ (requiredPermissions props = []
              \/ r = "admin"%string
              \/ exists p, p ∈ requiredPermissions props
                           /\ p ∈ permissions_of r)).
Proof.
  intros Hrole Hr Hown.
  assert (truthy user = true) as Htruthy.
  { destruct user; try discriminate Hrole. done. }
  pose proof (some_role user r Hrole Hr (requiredRoles props)) as Hroles.
  assert (existsb (fun p => String.eqb r "admin"
                            || bool_decide (p ∈ permissions_of r))
                  (requiredPermissions props) = true
          <-> requiredPermissions props <> []
              /\ (r = "admin"%string
                  \/ exists p, p ∈ requiredPermissions props
                               /\ p ∈ permissions_of r)) as Hperms.
  { rewrite existsb_exists. split.
    - intros (p & Hin%list_elem_of_In & Hp). split.
      { intros E. rewrite E in Hin. by apply elem_of_nil in Hin. }
      apply orb_true_iff in Hp as [Hadmin%String.eqb_eq | Hp%bool_decide_eq_true];
        [by left | right; eauto].
    - intros [Hne [-> | (p & Hin & Hp)]].
      + destruct (requiredPermissions props) as [| p rest]; [done |].
        exists p. split; [by left | done].
      + exists p. split; [by apply list_elem_of_In |].
        apply orb_true_iff. right. by apply bool_decide_eq_true. }
  unfold ProtectedRoute. rewrite Htruthy. cbn [negb].
  rewrite (some_permission_user user r Hrole Hr Hown).
  destruct loading.
  { split; [eauto |]. split; [done | by intros [? _]]. }
  destruct (requiredRoles props) as [| role roles] eqn:Eroles.
  - cbn [length Nat.ltb Nat.leb andb].
    destruct (requiredPermissions props) as [| p ps] eqn:Eperms.
    + cbn. split; [eauto |]. split; [| done]. intros _. repeat split; by left.
    + cbn [length Nat.ltb Nat.leb].
      destruct (existsb _ (p :: ps)) eqn:Eex.
      * split; [eauto |]. split; [| done]. intros _.
        destruct (proj1 Hperms eq_refl) as [_ Hsome]. split; [done |].
        split; [by left | by right].
      * split; [eauto |]. split.
        { by destruct (showAccessDenied props). }
        intros (_ & _ & [? | Hsome]); [done |].
        assert (false = true) as Hyes by (by apply Hperms).
        discriminate.
  - cbn [length Nat.ltb Nat.leb andb].
    destruct (existsb (Access.hasRole user) (role :: roles)) eqn:Ehas.
    + cbn [negb]. pose proof (proj1 Hroles eq_refl) as Hin.
      destruct (requiredPermissions props) as [| p ps] eqn:Eperms.
      * cbn. split; [eauto |]. split; [| done]. intros _.
        split; [done |]. split; [by right | by left].
      * cbn [length Nat.ltb Nat.leb].
        destruct (existsb _ (p :: ps)) eqn:Eex.
        -- split; [eauto |]. split; [| done]. intros _.
           destruct (proj1 Hperms eq_refl) as [_ Hsome]. split; [done |].
           split; [by right | by right].
        -- split; [eauto |]. split.
           { by destruct (showAccessDenied props). }
           intros (_ & _ & [? | Hsome]); [done |].
           assert (false = true) as Hyes by (by apply Hperms).
           discriminate.
    + cbn [negb]. split; [eauto |]. split.
      { by destruct (showAccessDenied props). }
      intros (_ & [? | Hin] & _); [done |].
      apply Hroles in Hin. discriminate.
Qed.

(** An editor on a page for editors and admins, and an admin on a page
    that asks for the role [editor]. *)
Lemma ProtectedRoute_guards_witness :
  ProtectedRoute
    {| requiredRoles := ["admin"; "editor"]%string;
       requiredPermissions := ["create_news"%string];
       fallbackUrl := "/login"; showAccessDenied := true |}
    false (JObj [("role"%string, JStr "editor")])
  = Returns Children
  /\ ProtectedRoute
       {| requiredRoles := ["editor"%string]; requiredPermissions := [];
          fallbackUrl := "/login"; showAccessDenied := true |}
       false (JObj [("role"%string, JStr "admin")])
     <> Returns Children.
Proof.
  split.
  - apply (proj2 (ProtectedRoute_guards _ false
                    (JObj [("role"%string, JStr "editor")]) "editor"
                    eq_refl ltac:(done) ltac:(by vm_compute; intros H; repeat (apply elem_of_cons in H as [H | H]; [discriminate |]); apply elem_of_nil in H))).
    split; [done |]. split.
    + right. cbn. apply elem_of_cons. right. by left.
    + right. right. exists "create_news"%string. split; [by left |].
      cbn. by left.
  - intros E.
    apply (proj2 (ProtectedRoute_guards _ false
                    (JObj [("role"%string, JStr "admin")]) "admin"
                    eq_refl ltac:(done) ltac:(by vm_compute; intros H; repeat (apply elem_of_cons in H as [H | H]; [discriminate |]); apply elem_of_nil in H)))
      in E.
    destruct E as (_ & [E | E] & _); [discriminate |].
    cbn in E. apply elem_of_cons in E as [E | E]; [discriminate |].
    by apply elem_of_nil in E.
Defined.

(** The role checks of the AuthProvider.  Without a user, or for a user
    without a role, every check is false.  For a user whose role is a
    string (other than the names of the properties of [Object.prototype]),
    [hasRole] compares the role for equality, [isAdmin] holds for [admin]
    only and [canEdit] for [admin] and [editor]; [hasPermission] never
    throws, an [admin] has every permission, also one that no table lists,
    and any other role has exactly the permissions of its table, none if it
    has no table. *)
Theorem role_checks (user : json) :
  (Access.role_of user = None ->
   forall x,
     Access.hasRole user x = false /\ Access.hasPermission user x = Returns false
     /\ Access.isAdmin user = false /\ Access.canEdit user = false)
  /\ (forall r,
        get_field "role" user = Some (JStr r) -> r <> ""%string ->
        r ∉ Access.Object_prototype ->
        (forall role, Access.hasRole user role = true <-> r = role)
        /\ (Access.isAdmin user = true <-> r = "admin"%string)
        /\ (Access.canEdit user = true
            <-> r = "admin"%string \/ r = "editor"%string)
        /\ (forall p,
              exists b,
                Access.hasPermission user p = Returns b
                /\ (b = true
                    <-> r = "admin"%string \/ p ∈ permissions_of r))).
Proof.
  split.
  - intros Hnone x.
    unfold Access.isAdmin, Access.canEdit, Access.hasRole, Access.hasRoles,
      Access.hasPermission.
    by rewrite Hnone.
  - intros r Hrole Hr Hown.
    split; [intros role; by apply hasRole_user |].
    split; [by apply hasRole_user |]. split.
    + unfold Access.canEdit, Access.hasRoles.
      rewrite (role_of_user user r Hrole Hr). cbn.
      unfold USER_ROLES.ADMIN, USER_ROLES.EDITOR.
      destruct (String.eqb_spec r "admin"), (String.eqb_spec r "editor");
        cbn; intuition congruence.
    + intros p. eexists. split; [by apply hasPermission_user |].
      rewrite orb_true_iff, String.eqb_eq, bool_decide_eq_true. tauto.
Qed.

Section EmailNormalisation.

Ltac by_cases_on c :=
  destruct c as [[] [] [] [] [] [] [] []];
  vm_compute; intros; first [reflexivity | discriminate | congruence].

Lemma local_char_lower (c : ascii) : local_char (Str.lower c) = local_char c.
Proof. by_cases_on c. Qed.

Lemma domain_char_lower (c : ascii) : domain_char (Str.lower c) = domain_char c.
Proof. by_cases_on c. Qed.

Lemma is_letter_lower (c : ascii) : Str.is_letter (Str.lower c) = Str.is_letter c.
Proof. by_cases_on c. Qed.

Lemma is_at_lower (c : ascii) : is_char "@" (Str.lower c) = is_char "@" c.
Proof. by_cases_on c. Qed.

Lemma is_dot_lower (c : ascii) : is_char "." (Str.lower c) = is_char "." c.
Proof. by_cases_on c. Qed.

Lemma local_char_no_space (c : ascii) :
  local_char c = true -> negb (Str.is_space c) = true.
Proof. by_cases_on c. Qed.

Lemma domain_char_no_space (c : ascii) :
  domain_char c = true -> negb (Str.is_space c) = true.
Proof. by_cases_on c. Qed.

Lemma is_letter_no_space (c : ascii) :
  Str.is_letter c = true -> negb (Str.is_space c) = true.
Proof. by_cases_on c. Qed.

Lemma all_in_lower (p : ascii -> bool) (s : string) :
  (forall c, p (Str.lower c) = p c) ->
  all_in p (Str.toLowerCase s) = all_in p s.
Proof.
  intros Hp. induction s as [| c s IH]; cbn; [done |]. by rewrite Hp, IH.
Qed.

Lemma toLowerCase_app (a b : string) :
  Str.toLowerCase (a +:+ b) = (Str.toLowerCase a +:+ Str.toLowerCase b)%string.
Proof.
  induction a as [| c a IH]; [reflexivity |].
  rewrite !StrFacts.append_cons. cbn. by rewrite IH, StrFacts.append_cons.
Qed.

Lemma toLowerCase_empty (s : string) : Str.toLowerCase s = ""%string <-> s = ""%string.
Proof. by destruct s. Qed.

Lemma length_toLowerCase (s : string) :
  String.length (Str.toLowerCase s) = String.length s.
Proof. induction s as [| c s IH]; cbn; [done |]. by rewrite IH. Qed.

Lemma isValidEmail_lower (email : string) :
  isValidEmail email = true -> isValidEmail (Str.toLowerCase email) = true.
Proof.
  rewrite !isValidEmail_spec.
  intros (loc & domain & tld & -> & H1 & H2 & H3 & H4 & H5 & H6).
  exists (Str.toLowerCase loc), (Str.toLowerCase domain), (Str.toLowerCase tld).
  rewrite !toLowerCase_app.
  rewrite (all_in_lower _ _ local_char_lower),
    (all_in_lower _ _ domain_char_lower), (all_in_lower _ _ is_letter_lower),
    length_toLowerCase, !toLowerCase_empty.
  done.
Qed.

Lemma valid_email_no_space (email : string) :
  isValidEmail email = true ->
  all_in (fun c => negb (Str.is_space c)) email = true.
Proof.
  rewrite isValidEmail_spec.
  intros (loc & domain & tld & -> & H1 & H2 & H3 & H4 & H5 & H6).
  rewrite !all_in_app.
  rewrite (all_in_impl _ _ _ local_char_no_space H2),
    (all_in_impl _ _ _ domain_char_no_space H4),
    (all_in_impl _ _ _ is_letter_no_space H6).
  reflexivity.
Qed.

End EmailNormalisation.

(** [isValidEmail] accepts exactly the strings [local@domain.tld] in
    which [local] is one or more of the letters, digits and [._%+-],
    [domain] one or more of the letters, digits and [.-], and [tld] two or
    more letters.  An address that is accepted is still accepted after
    the [toLowerCase().trim()] the services send it through, and the
    trimming then removes nothing. *)
Theorem isValidEmail_accepts (email : string) :
  (isValidEmail email = true
   <-> exists loc domain tld,
         email = (loc +:+ "@" +:+ domain +:+ "." +:+ tld)%string
         /\ loc <> ""%string /\ all_in local_char loc = true
         /\ domain <> ""%string /\ all_in domain_char domain = true
         /\ (2 <= String.length tld)%nat /\ all_in Str.is_letter tld = true)
  /\ (isValidEmail email = true ->
      Str.trim (Str.toLowerCase email) = Str.toLowerCase email
      /\ isValidEmail (Str.trim (Str.toLowerCase email)) = true).
Proof.
  split; [exact (isValidEmail_spec email) |].
  intros Hvalid. pose proof (isValidEmail_lower email Hvalid) as Hlower.
  pose proof (valid_email_no_space _ Hlower) as Hspace.
  assert (Str.trim (Str.toLowerCase email) = Str.toLowerCase email) as E.
  { unfold Str.trim. rewrite trimEnd_strip, trimStart_strip.
    by rewrite (strip_start_outside _ _ Hspace), (strip_end_outside _ _ Hspace). }
  by rewrite E.
Qed.

(* ===================================================================== *)
(** * getWithCache serves what it stored *)
(* ===================================================================== *)

(** A call of [getWithCache] that goes to the network, gets a 200 and has
    its entry taken by the browser resolves with the response; from then
    on, and for as long as less than the cache duration has passed since
    the response arrived, the same call is answered from the store, with
    the body of that response and without any request. *)
Theorem getWithCache_serves_what_it_stored {J : JsonRuntime} {laws : JsonLaws J}
    (api : Config -> M Response) (u : string) (config : Config)
    (w w1 : World) (response : Response) :
  Api.cacheEnabled config = true ->
  Api.isFresh (clock w) (storage_get (Api.cacheKey u config) w)
    (Api.cacheDurationOf config) = false ->
  Api.requestWithRetry api (Api.spread GET u None config) 0 w
  = (Resolved response, w1) ->
  res_status response = 200 ->
  accepts (storage_area w1) (items (storage_area w1)) (Api.cacheKey u config)
    (JSON_stringify (cacheEntry (res_data response) (clock w1))) = true ->
  exists w2,
    Api.getWithCache api u config w = (Resolved (Fetched response), w2)
    /\ forall t,
         t - clock w1 < Api.cacheDurationOf config ->
         Api.getWithCache api u config (set_clock t w2)
         = (Resolved (Cached (Some (res_data response))), set_clock t w2).
Proof.
  intros Hon Hstale Hfetch Hstatus Haccepts.
  exists (storage_set (Api.cacheKey u config)
            (Some (cacheEntry (res_data response) (clock w1))) w1).
  split.
  - rewrite (getWithCache_miss api u config w Hon Hstale).
    unfold fetch_and_store. by rewrite Hfetch, Hstatus.
  - intros t Hage.
    assert (storage_get (Api.cacheKey u config)
              (set_clock t
                 (storage_set (Api.cacheKey u config)
                    (Some (cacheEntry (res_data response) (clock w1))) w1))
            = cacheEntry (res_data response) (clock w1)) as Hget.
    { unfold storage_get, storage_set, storage.set, localStorage.setItem. cbn.
      rewrite Haccepts. cbn. apply storage_get_stored.
      unfold localStorage.getItem. cbn. apply lookup_insert_eq. }
    rewrite getWithCache_hit; [by rewrite Hget | done |].
    rewrite Hget, isFresh_cacheEntry. by apply Z.ltb_lt.
Qed.

Lemma getWithCache_serves_what_it_stored_witness :
  exists w2,
    Api.getWithCache (H := reference_runtime)
      (Api.api (H := reference_runtime) server_ok) "/news" news_page_1
      (world_with (roomy ∅))
    = (Resolved (Fetched news_response), w2)
    /\ forall t,
         t - clock news_arrived < Api.cacheDurationOf news_page_1 ->
         Api.getWithCache (H := reference_runtime)
           (Api.api (H := reference_runtime) server_ok) "/news" news_page_1
           (set_clock t w2)
         = (Resolved (Cached (Some (res_data news_response))), set_clock t w2).
Proof.
  apply (getWithCache_serves_what_it_stored (laws := reference_lawful)
           (Api.api (H := reference_runtime) server_ok) "/news" news_page_1
           (world_with (roomy ∅)) news_arrived news_response).
  - reflexivity.
  - by vm_compute.
  - by vm_compute.
  - reflexivity.
  - by vm_compute.
Defined.

(* ===================================================================== *)
(** * useApi: every failure is retried *)
(* ===================================================================== *)

Section UseApiFacts.
Context (apiFunction : M json) (options : useApi.Options).

Local Abbreviation loop := (useApi.loop apiFunction options).

Lemma seq_cons_app (i k : nat) (l : list Z) :
  [Z.of_nat i] ++ (Z.of_nat <$> seq (S i) k) ++ l
  = (Z.of_nat <$> seq i (S k)) ++ l.
Proof. reflexivity. Qed.


(** A fulfilled loop leaves the result in the cache. *)
Lemma loop_caches (k : string) (n : nat) :
  useApi.key options = Some k ->
  forall (i : nat) (lastError : option JsError) (st : useApi.State) (w : World)
         (result : json) (st' : useApi.State) (w' : World),
  loop n i lastError st w = (Resolved result, st', w') ->
  exists timestamp, useApi.cacheRef st' !! k = Some (result, timestamp).
Proof.
  intros Hkey. induction n as [| n IH]; intros i lastError st w result st' w' E.
  - cbn in E. unfold useApi.failed in E. by destruct lastError.
  - cbn [useApi.loop] in E.
    destruct (apiFunction w) as [[result1 | err |] w1]; [| | done].
    + unfold useApi.succeeded in E. rewrite Hkey in E.
      injection E as <- <- <-. exists (clock w1). cbn.
      apply lookup_insert_eq.
    + destruct (useApi.aborted err); [discriminate E |].
      by apply IH in E.
Qed.

End UseApiFacts.



(** [useApi] with a [cacheKey]: a result that is truthy is kept under the
    key with the time it arrived at, and until [cacheDuration] has passed
    [fetchData] answers with it and neither calls the function nor touches
    the page. *)
Theorem useApi_serves_from_its_cache (apiFunction : M json)
    (options : useApi.Options) (k : string) (st st' : useApi.State)
    (w w' : World) (result : json) :
  useApi.key options = Some k ->
  useApi.fetchData apiFunction options st w = (Resolved result, st', w') ->
  truthy result = true ->
  exists timestamp,
    useApi.cacheRef st' !! k = Some (result, timestamp)
    /\ forall w2, clock w2 - timestamp < useApi.duration options ->
         useApi.fetchData apiFunction options st' w2
         = (Resolved result,
            useApi.setError None (useApi.setLoading false (useApi.setData result st')),
            w2).
Proof.
  intros Hkey E Htruthy.
  assert (exists timestamp, useApi.cacheRef st' !! k = Some (result, timestamp))
    as [timestamp Hcached].
  { unfold useApi.fetchData, useApi.cachedData in E. rewrite Hkey in E.
    destruct (truthy _) eqn:Hhit.
    - injection E as E <- <-. unfold useApi.getCachedData in E, Hhit |- *.
      cbn. destruct (useApi.cacheRef st !! k) as [[cached t] |]; [| done].
      destruct (_ <? _); [| done]. subst. by eexists.
    - by eapply loop_caches. }
  exists timestamp. split; [done |]. intros w2 Hfresh.
  unfold useApi.fetchData, useApi.cachedData. rewrite Hkey.
  unfold useApi.getCachedData. rewrite Hcached.
  destruct (Z.ltb_spec (clock w2 - timestamp) (useApi.duration options)); [| lia].
  by rewrite Htruthy.
Qed.

(** The theorem on a function that answers at once, under the key
    [news]. *)
Lemma useApi_serves_from_its_cache_witness :
  exists timestamp,
    useApi.cacheRef
      (useApi.fetchData (ret (JStr "news")) useApi.keyed (useApi.init true)
         (world_with (roomy ∅))).1.2 !! "news"%string
    = Some (JStr "news", timestamp)
    /\ forall w2, clock w2 - timestamp < useApi.duration useApi.keyed ->
         useApi.fetchData (ret (JStr "news")) useApi.keyed
           (useApi.fetchData (ret (JStr "news")) useApi.keyed (useApi.init true)
              (world_with (roomy ∅))).1.2 w2
         = (Resolved (JStr "news"),
            useApi.setError None
              (useApi.setLoading false
                 (useApi.setData (JStr "news")
                    (useApi.fetchData (ret (JStr "news")) useApi.keyed
                       (useApi.init true) (world_with (roomy ∅))).1.2)),
            w2).
Proof.
  apply (useApi_serves_from_its_cache (ret (JStr "news")) useApi.keyed "news"
           (useApi.init true) _ (world_with (roomy ∅)) (world_with (roomy ∅))).
  - reflexivity.
  - reflexivity.
  - reflexivity.
Defined.

(* ===================================================================== *)
(** * useInfiniteScroll: the pages add up to the list *)
(* ===================================================================== *)

Section InfiniteScrollFacts.
Context (apiFunction : Z -> Z -> M useInfiniteScroll.Fetched)
        (options : useInfiniteScroll.Options) (all : list json).
Hypothesis served : useInfiniteScroll.serves all apiFunction.
Hypothesis enabled : useInfiniteScroll.on options = true.
Hypothesis positive : 0 < useInfiniteScroll.size options.

Local Abbreviation p := (Z.to_nat (useInfiniteScroll.size options)).

Local Abbreviation scrolled := (useInfiniteScroll.scrolled options all).

Lemma loadMore_scrolled (k : nat) (st : useInfiniteScroll.State) (w : World) :
  scrolled k st ->
  exists st' w',
    useInfiniteScroll.loadMore apiFunction options st w = (Resolved tt, st', w')
    /\ scrolled (S k) st'.
Proof.
  unfold useInfiniteScroll.scrolled.
  intros (Hl & Hr & He & Hi & Hm & Hp). unfold useInfiniteScroll.loadMore.
  rewrite Hr, enabled. cbn [orb negb].
  destruct (useInfiniteScroll.hasMore st) eqn:Hmore; cbn [orb negb].
  - symmetry in Hm. apply bool_decide_eq_true in Hm. rewrite (Hp eq_refl).
    cbn [useInfiniteScroll.page].
    destruct (served (Z.of_nat k + 1) (useInfiniteScroll.size options) w)
      as [w' ->].
    eexists _, w'. split; [reflexivity |].
    cbn [useInfiniteScroll.data default id from_option].
    assert (useInfiniteScroll.page_of all (Z.of_nat k + 1)
              (useInfiniteScroll.size options)
            = take p (drop (k * p) all)) as ->.
    { unfold useInfiniteScroll.page_of. do 2 f_equal. nia. }
    unfold useInfiniteScroll.settle. cbn.
    split; [done |]. split; [done |]. split; [done |]. split; [| split].
    + rewrite Hi, take_take_drop. f_equal. lia.
    + rewrite length_take, length_drop.
      destruct (_ || _) eqn:Hshort.
      * symmetry. apply bool_decide_eq_false.
        apply orb_true_iff in Hshort as [H0 | Hlt]; [apply Z.eqb_eq in H0 |
          apply Z.ltb_lt in Hlt]; lia.
      * symmetry. apply bool_decide_eq_true.
        apply orb_false_iff in Hshort as [_ Hge]. apply Z.ltb_ge in Hge. lia.
    + intros _. lia.
  - symmetry in Hm. apply bool_decide_eq_false in Hm.
    eexists _, w. split; [reflexivity |].
    rewrite Hmore. split; [done |]. split; [done |]. split; [done |].
    split; [| split].
    + rewrite Hi, !take_ge by lia. done.
    + symmetry. apply bool_decide_eq_false. lia.
    + done.
Qed.

Lemma loads_scrolled (n : nat) :
  forall (k : nat) (st : useInfiniteScroll.State) (w : World),
  scrolled k st ->
  exists st' w',
    useInfiniteScroll.loads apiFunction options n st w = (Resolved tt, st', w')
    /\ scrolled (k + n) st'.
Proof.
  induction n as [| n IH]; intros k st w Hst.
  - exists st, w. split; [done |]. by rewrite Nat.add_0_r.
  - cbn [useInfiniteScroll.loads].
    destruct (loadMore_scrolled k st w Hst) as (st1 & w1 & -> & H1).
    destruct (IH (S k) st1 w1 H1) as (st' & w' & -> & H').
    exists st', w'. split; [done |]. by replace (k + S n)%nat with (S k + n)%nat by lia.
Qed.

End InfiniteScrollFacts.

(** [useInfiniteScroll] over a server that holds a list and answers with
    the page asked for, [pageSize] positive: after [loadMore] has run [n]
    times the items are the first [n * pageSize] elements of the list, and
    [hasMore] is still [true] exactly when the
    list is not shorter than that, so a list whose length is a multiple of
    the page size takes one more, empty, page to be known as complete.
    With more than [length / pageSize] calls the items are the list. *)
Theorem useInfiniteScroll_collects_the_list
    (apiFunction : Z -> Z -> M useInfiniteScroll.Fetched)
    (options : useInfiniteScroll.Options) (all : list json) (n : nat)
    (w : World) :
  useInfiniteScroll.serves all apiFunction ->
  useInfiniteScroll.on options = true ->
  0 < useInfiniteScroll.size options ->
  exists st' w',
    useInfiniteScroll.loads apiFunction options n useInfiniteScroll.init w
    = (Resolved tt, st', w')
    /\ useInfiniteScroll.items st'
       = take (n * Z.to_nat (useInfiniteScroll.size options)) all
    /\ useInfiniteScroll.hasMore st'
       = bool_decide (n * Z.to_nat (useInfiniteScroll.size options)
                      <= length all)%nat
    /\ useInfiniteScroll.loading st' = false
    /\ useInfiniteScroll.error st' = None
    /\ ((length all < n * Z.to_nat (useInfiniteScroll.size options))%nat
        -> useInfiniteScroll.items st' = all).
Proof.
  intros Hserved Hon Hsize.
  destruct (loads_scrolled apiFunction options all Hserved Hon Hsize n 0
              useInfiniteScroll.init w)
    as (st' & w' & E & Hl & Hr & He & Hi & Hm & Hp).
  { unfold useInfiniteScroll.scrolled. cbn.
    split; [done |]. split; [done |]. split; [done |].
    split; [done |]. split; [| done].
    symmetry. apply bool_decide_eq_true. lia. }
  exists st', w'. cbn in Hi, Hm.
  split; [done |]. split; [done |]. split; [done |]. split; [done |].
  split; [done |]. intros Hall. rewrite Hi. apply take_ge. lia.
Qed.

(** The theorem on a list of five, three calls and pages of two. *)
Lemma useInfiniteScroll_collects_the_list_witness :
  exists st' w',
    useInfiniteScroll.loads
      (useInfiniteScroll.paged [JNum 1; JNum 2; JNum 3; JNum 4; JNum 5])
      useInfiniteScroll.pairs 3 useInfiniteScroll.init (world_with (roomy ∅))
    = (Resolved tt, st', w')
    /\ useInfiniteScroll.items st'
       = take (3 * Z.to_nat (useInfiniteScroll.size useInfiniteScroll.pairs))
           [JNum 1; JNum 2; JNum 3; JNum 4; JNum 5]
    /\ useInfiniteScroll.hasMore st'
       = bool_decide (3 * Z.to_nat (useInfiniteScroll.size useInfiniteScroll.pairs)
                      <= length [JNum 1; JNum 2; JNum 3; JNum 4; JNum 5])%nat
    /\ useInfiniteScroll.loading st' = false
    /\ useInfiniteScroll.error st' = None
    /\ ((length [JNum 1; JNum 2; JNum 3; JNum 4; JNum 5]
         < 3 * Z.to_nat (useInfiniteScroll.size useInfiniteScroll.pairs))%nat
        -> useInfiniteScroll.items st' = [JNum 1; JNum 2; JNum 3; JNum 4; JNum 5]).
Proof.
  apply (useInfiniteScroll_collects_the_list
           (useInfiniteScroll.paged [JNum 1; JNum 2; JNum 3; JNum 4; JNum 5])
           useInfiniteScroll.pairs [JNum 1; JNum 2; JNum 3; JNum 4; JNum 5] 3
           (world_with (roomy ∅))).
  - intros page per_page w. by exists w.
  - reflexivity.
  - by vm_compute.
Defined.

(* ===================================================================== *)
(** * useApi: what a fetch puts on the wire *)
(* ===================================================================== *)

Section UseApiWire.
Context (apiFunction : M json) (options : useApi.Options).
Hypothesis one_request : forall w, exists settled w' config,
  apiFunction w = (settled, w') /\ settled <> Pending
  /\ wire w' = wire w ++ [Sent config].
Hypothesis onSuccess_quiet : forall f, useApi.onSuccess options = Some f ->
  forall result w, wire (f result w) = wire w.
Hypothesis onError_quiet : forall f, useApi.onError options = Some f ->
  forall e w, wire (f e w) = wire w.







End UseApiWire.


Section NeverAborted.
Context `{JsonRuntime} (env : Env).
Local Arguments outgoing : simpl never.




End NeverAborted.



(* ===================================================================== *)
(** * useOptimisticUpdate: no optimistic value is left behind *)
(* ===================================================================== *)

(** [useOptimisticUpdate] with [rollbackOnError] as it is by default, and a
    function that always settles: after any number of calls of [mutate],
    [loading] is [false], and [data] is what it was before the first call or
    what the function was fulfilled with, never a value that was only put
    in optimistically: whatever holds of the data before and of all that
    the function can be fulfilled with holds of the data after. *)
Theorem useOptimisticUpdate_leaves_no_guess {A : Type}
    (apiFunction : A -> M json) (options : useOptimisticUpdate.Options)
    (P : json -> Prop) (calls : list (json * A))
    (st : useOptimisticUpdate.State) (w : World) :
  useOptimisticUpdate.rollback options = true ->
  (forall arg w, (apiFunction arg w).1 <> Pending) ->
  (forall arg w result w', apiFunction arg w = (Resolved result, w') -> P result) ->
  useOptimisticUpdate.loading st = false ->
  P (useOptimisticUpdate.data st) ->
  useOptimisticUpdate.loading
    (useOptimisticUpdate.mutations apiFunction options calls st w).1 = false
  /\ P (useOptimisticUpdate.data
          (useOptimisticUpdate.mutations apiFunction options calls st w).1).
Proof.
  intros Hrollback Hsettles Hresults. revert st w.
  induction calls as [| [optimisticData actualUpdateFn] calls IH];
    intros st w Hloading Hdata; [done |].
  cbn [useOptimisticUpdate.mutations]. unfold useOptimisticUpdate.mutate.
  specialize (Hsettles actualUpdateFn w).
  destruct (apiFunction actualUpdateFn w) as [[result | err |] w1] eqn:E;
    [| | done].
  - apply IH; [done |]. cbn. by eapply Hresults.
  - apply IH; [done |]. cbn. by rewrite Hrollback.
Qed.

(** The theorem on a function that always throws: the data stay
    [null]. *)
Lemma useOptimisticUpdate_leaves_no_guess_witness :
  useOptimisticUpdate.loading
    (useOptimisticUpdate.mutations (fun _ : unit => throw (plain_error "offline"))
       useOptimisticUpdate.defaults [(JStr "draft", tt); (JStr "final", tt)]
       useOptimisticUpdate.init (world_with (roomy ∅))).1 = false
  /\ useOptimisticUpdate.data
       (useOptimisticUpdate.mutations (fun _ : unit => throw (plain_error "offline"))
          useOptimisticUpdate.defaults [(JStr "draft", tt); (JStr "final", tt)]
          useOptimisticUpdate.init (world_with (roomy ∅))).1 = JNull.
Proof.
  apply (useOptimisticUpdate_leaves_no_guess
           (fun _ : unit => throw (plain_error "offline"))
           useOptimisticUpdate.defaults (fun v => v = JNull)
           [(JStr "draft", tt); (JStr "final", tt)]
           useOptimisticUpdate.init (world_with (roomy ∅))).
  - reflexivity.
  - intros arg w. discriminate.
  - intros arg w result w'. discriminate.
  - reflexivity.
  - reflexivity.
Defined.
